(** * Customer API: the query and aggregation layer

    A shallow embedding of the four read operations of [app.py]
    ([list_customers], [get_customer_details], [get_customer_orders],
    [get_statistics]; the handlers of [simple_api.py] run the same
    statements) over a model of the two tables created by
    [database_setup.py].

    The SQL text of each statement is embedded through a handful of list
    combinators ([left_join], [group_by], [order_by_desc],
    [sql_limit_offset], the aggregates), and the Python around it through
    a small monad that records the statements the cursor runs and carries
    the HTTP failure.

    The handlers start from the integers [int()] has parsed and from the
    search string as the request holds it; the views of [app.py] and the
    server of [simple_api.py], with [int()], the query string, the routes
    and the 400 answer to a page that is no number, have sections of their
    own. *)

From Stdlib Require Import ZArith List Bool Ascii String Lia Permutation Sorted QArith.
Import ListNotations.
Local Open Scope string_scope.
Local Open Scope list_scope.
Local Open Scope Z_scope.

(* ===================================================================== *)
(** ** Text *)
(* ===================================================================== *)

(** Text is a sequence of characters; a character is a code point below
    256 (an [ascii]). *)

(** [str.isspace] on the code points below 256. *)
Definition py_isspace (c : ascii) : bool :=
  let n := Z.of_N (N_of_ascii c) in
  ((9 <=? n) && (n <=? 13)) || ((28 <=? n) && (n <=? 32))
  || (n =? 133) || (n =? 160).

Fixpoint lstrip (s : string) : string :=
  match s with
  | EmptyString => EmptyString
  | String c s' => if py_isspace c then lstrip s' else s
  end.

Fixpoint rstrip (s : string) : string :=
  match s with
  | EmptyString => EmptyString
  | String c s' =>
      match rstrip s' with
      | EmptyString => if py_isspace c then EmptyString else String c EmptyString
      | r => String c r
      end
  end.

(** [str.strip()] *)
Definition strip (s : string) : string := rstrip (lstrip s).

(** Python truth value of a [str]. *)
Definition nonempty (s : string) : bool :=
  match s with EmptyString => false | _ => true end.

(** SQLite folds only the 26 ASCII letters when it compares for LIKE. *)
Definition sqlite_tolower (c : ascii) : ascii :=
  let n := N_of_ascii c in
  if ((65 <=? n) && (n <=? 90))%N then ascii_of_N (n + 32) else c.

Definition eq_nocase (a b : ascii) : bool :=
  Ascii.eqb (sqlite_tolower a) (sqlite_tolower b).

(** The comparison behind LIKE (no ESCAPE clause) on two C strings: [%]
    stands for any run of characters, [_] for any one character, every
    other character for itself up to ASCII case. *)
Fixpoint like_match (pat : string) (s : string) {struct pat} : bool :=
  match pat with
  | EmptyString => match s with EmptyString => true | _ => false end
  | String p pat' =>
      if Ascii.eqb p "%" then
        (fix star (s : string) : bool :=
           like_match pat' s
           || match s with
              | EmptyString => false
              | String _ s' => star s'
              end) s
      else
        match s with
        | EmptyString => false
        | String c s' =>
            (Ascii.eqb p "_" || eq_nocase p c) && like_match pat' s'
        end
  end.

(** SQLite hands both texts to that comparison as C strings: each ends at
    its first NUL character. *)
Fixpoint c_string (s : string) : string :=
  match s with
  | EmptyString => EmptyString
  | String c s' => if Ascii.eqb c zero then EmptyString else String c (c_string s')
  end.

(** [text LIKE pat] *)
Definition sql_like (pat text : string) : bool :=
  like_match (c_string pat) (c_string text).

(** A pattern of more than 50000 bytes of UTF-8 makes the LIKE function
    fail ("LIKE or GLOB pattern too complex") when it is called. *)
Definition SQLITE_MAX_LIKE_PATTERN_LENGTH : Z := 50000.

Fixpoint utf8_length (s : string) : Z :=
  match s with
  | EmptyString => 0
  | String c s' =>
      (if (N_of_ascii c <? 128)%N then 1 else 2) + utf8_length s'
  end.

Definition like_too_complex (pat : string) : bool :=
  SQLITE_MAX_LIKE_PATTERN_LENGTH <? utf8_length pat.

(** The two LIKE metacharacters. *)
Definition is_meta (c : ascii) : bool := Ascii.eqb c "%" || Ascii.eqb c "_".

Fixpoint has_meta (s : string) : bool :=
  match s with
  | EmptyString => false
  | String c s' => is_meta c || has_meta s'
  end.

Fixpoint has_nul (s : string) : bool :=
  match s with
  | EmptyString => false
  | String c s' => Ascii.eqb c zero || has_nul s'
  end.

(** What "contains" means: [t] occurs in [s], up to ASCII case
    ([contains_ci]) or to the letter ([contains]). *)
Fixpoint prefix_ci (t s : string) : bool :=
  match t with
  | EmptyString => true
  | String a t' =>
      match s with
      | EmptyString => false
      | String b s' => eq_nocase a b && prefix_ci t' s'
      end
  end.

Fixpoint contains_ci (t s : string) : bool :=
  prefix_ci t s
  || match s with
     | EmptyString => false
     | String _ s' => contains_ci t s'
     end.

Fixpoint contains (t s : string) : bool :=
  String.prefix t s
  || match s with
     | EmptyString => false
     | String _ s' => contains t s'
     end.

Definition is_substring (t s : string) : Prop :=
  exists pre post, s = (pre ++ t ++ post)%string.

(* ===================================================================== *)
(** ** SQLite values *)
(* ===================================================================== *)

(** An INTEGER of SQLite is a signed 64-bit integer. *)
Definition SQLITE_INT_MIN : Z := - 2 ^ 63.
Definition SQLITE_INT_MAX : Z := 2 ^ 63 - 1.

Definition fits_int64 (z : Z) : bool :=
  (SQLITE_INT_MIN <=? z) && (z <=? SQLITE_INT_MAX).

(** A cell of a TIMESTAMP column.  The affinity of that declared type is
    NUMERIC, so a cell holds NULL, a number or text; the loader stores the
    text of the CSV.  (REAL and BLOB cells are left out.) *)
Inductive sql_value : Type :=
| SqlNull
| SqlInt (n : Z)
| SqlText (s : string).

(** The order SQLite sorts by: NULL first, then numbers, then text, text
    by [memcmp]. *)
Definition sql_leb (a b : sql_value) : bool :=
  match a, b with
  | SqlNull, _ => true
  | SqlInt _, SqlNull => false
  | SqlInt x, SqlInt y => x <=? y
  | SqlInt _, SqlText _ => true
  | SqlText _, SqlNull => false
  | SqlText _, SqlInt _ => false
  | SqlText s, SqlText t => String.leb s t
  end.

Definition sql_ltb (a b : sql_value) : bool := negb (sql_leb b a).

Definition sql_value_eqb (a b : sql_value) : bool :=
  match a, b with
  | SqlNull, SqlNull => true
  | SqlInt x, SqlInt y => x =? y
  | SqlText s, SqlText t => String.eqb s t
  | _, _ => false
  end.

Definition option_eqb {A : Type} (eqb : A -> A -> bool) (a b : option A) : bool :=
  match a, b with
  | None, None => true
  | Some x, Some y => eqb x y
  | _, _ => false
  end.

(* ===================================================================== *)
(** ** The store *)
(* ===================================================================== *)

(** A row of [users].  [latitude] and [longitude] are REAL columns the
    core only passes through: they are kept as the 64-bit pattern of the
    double. *)
Record User : Type := mkUser {
  u_id : Z;
  u_first_name : string;
  u_last_name : string;
  u_email : string;
  u_age : option Z;
  u_gender : option string;
  u_state : option string;
  u_street_address : option string;
  u_postal_code : option string;
  u_city : option string;
  u_country : option string;
  u_latitude : option Z;
  u_longitude : option Z;
  u_traffic_source : option string;
  u_created_at : sql_value
}.

(** A row of [orders]. *)
Record Order : Type := mkOrder {
  o_order_id : Z;
  o_user_id : option Z;
  o_status : option string;
  o_gender : option string;
  o_created_at : sql_value;
  o_returned_at : sql_value;
  o_shipped_at : sql_value;
  o_delivered_at : sql_value;
  o_num_of_item : option Z
}.

(** The database file.  SQL gives the rows of a table no order: each list
    holds its table in the order in which the engine walks the rows.  Both
    tables have an INTEGER PRIMARY KEY, which makes that key the rowid, and
    the engine walks a table upwards by rowid: see [rowid_order]. *)
Record Store : Type := mkStore {
  users : list User;
  orders : list Order
}.

Fixpoint distinct (l : list Z) : bool :=
  match l with
  | [] => true
  | x :: l' => negb (existsb (Z.eqb x) l') && distinct l'
  end.

(** What the schema and the engine guarantee of any database file: the
    two primary keys are unique 64-bit integers, [num_of_item] is a
    64-bit integer, and a table has no more rows than a 64-bit count
    holds. *)
Definition store_ok (db : Store) : bool :=
  distinct (map u_id (users db))
  && forallb (fun u => fits_int64 (u_id u)) (users db)
  && distinct (map o_order_id (orders db))
  && forallb (fun o => fits_int64 (o_order_id o)) (orders db)
  && forallb (fun o => match o_num_of_item o with
                       | Some n => fits_int64 n
                       | None => true
                       end) (orders db)
  && (Z.of_nat (List.length (users db)) <=? SQLITE_INT_MAX)
  && (Z.of_nat (List.length (orders db)) <=? SQLITE_INT_MAX).

(** The order in which the engine holds a table keyed by its rowid: the
    key goes up from row to row, whatever the order of the INSERTs. *)
Fixpoint ascending (l : list Z) : bool :=
  match l with
  | [] => true
  | x :: l' =>
      match l' with
      | [] => true
      | y :: _ => (x <? y) && ascending l'
      end
  end.

Definition rowid_order (db : Store) : bool :=
  ascending (map u_id (users db)) && ascending (map o_order_id (orders db)).

(* ===================================================================== *)
(** ** SQL combinators *)
(* ===================================================================== *)

(** [ON u.id = o.user_id]; a NULL [user_id] matches nothing. *)
Definition on_user (u : User) (o : Order) : bool :=
  match o_user_id o with
  | Some i => u_id u =? i
  | None => false
  end.

(** [users u LEFT JOIN orders o ON u.id = o.user_id]: every user with
    each of its orders, or once with NULLs when it has none. *)
Definition left_join (us : list User) (os : list Order) : list (User * option Order) :=
  flat_map
    (fun u =>
       match filter (on_user u) os with
       | [] => [(u, None)]
       | matched => map (fun o => (u, Some o)) matched
       end)
    us.

(** [GROUP BY]: a row joins the group that has its key, or opens a new
    group behind the others. *)
Fixpoint add_to_group {K R : Type} (eqb : K -> K -> bool) (k : K) (r : R)
    (groups : list (K * list R)) : list (K * list R) :=
  match groups with
  | [] => [(k, [r])]
  | (k', rs) :: groups' =>
      if eqb k' k then (k', rs ++ [r]) :: groups'
      else (k', rs) :: add_to_group eqb k r groups'
  end.

Definition group_by {K R : Type} (eqb : K -> K -> bool) (key : R -> K)
    (rows : list R) : list (K * list R) :=
  fold_left (fun groups r => add_to_group eqb (key r) r groups) rows [].

(** [ORDER BY key DESC].  SQL leaves the order of rows with equal keys to
    the engine: here they stay as they came in. *)
Fixpoint insert_desc {R K : Type} (ltb : K -> K -> bool) (key : R -> K)
    (x : R) (l : list R) : list R :=
  match l with
  | [] => [x]
  | y :: l' =>
      if ltb (key x) (key y) then y :: insert_desc ltb key x l'
      else x :: l
  end.

Definition order_by_desc {R K : Type} (ltb : K -> K -> bool) (key : R -> K)
    (rows : list R) : list R :=
  fold_right (insert_desc ltb key) [] rows.

(** [LIMIT limit OFFSET offset]: a negative offset skips nothing, a
    negative limit keeps everything. *)
Definition sql_limit_offset {R : Type} (limit offset : Z) (rows : list R) : list R :=
  let rest := skipn (Z.to_nat offset) rows in
  if limit <? 0 then rest else firstn (Z.to_nat limit) rest.

(** [COUNT(expr)]: the rows where the expression is not NULL. *)
Definition sql_count {R A : Type} (expr : R -> option A) (rows : list R) : Z :=
  Z.of_nat (List.length (filter (fun r => match expr r with Some _ => true | None => false end) rows)).

(** [COUNT( * )] *)
Definition sql_count_star {R : Type} (rows : list R) : Z := Z.of_nat (List.length rows).

(** [COUNT(DISTINCT expr)] of an integer expression that is never NULL. *)
Definition sql_count_distinct {R : Type} (expr : R -> Z) (rows : list R) : Z :=
  Z.of_nat (List.length (nodup Z.eq_dec (map expr rows))).

(** The values an aggregate sees: the ones that are not NULL. *)
Fixpoint non_null {A : Type} (l : list (option A)) : list A :=
  match l with
  | [] => []
  | Some x :: l' => x :: non_null l'
  | None :: l' => non_null l'
  end.

(** [SUM(expr)] over integers: NULL when there is no value, and the
    statement fails as soon as a partial sum leaves the 64-bit range. *)
Fixpoint sum_from (acc : Z) (l : list Z) : option Z :=
  match l with
  | [] => Some acc
  | x :: l' => if fits_int64 (acc + x) then sum_from (acc + x) l' else None
  end.

Inductive sum_result : Type :=
| SumNull
| SumInt (n : Z)
| SumOverflow.

Definition sql_sum (l : list (option Z)) : sum_result :=
  match non_null l with
  | [] => SumNull
  | x :: l' =>
      match sum_from x l' with
      | Some n => SumInt n
      | None => SumOverflow
      end
  end.

(** [AVG(expr)]: NULL when there is no value, else the mean.  The engine
    adds the values up in double precision and divides; the exact quotient
    written here stands for that double, and is not the same number once
    the sum is beyond what a double holds exactly (2^53).  Nothing below is
    stated of an average that is not NULL. *)
Definition sql_avg (l : list (option Z)) : option Q :=
  match non_null l with
  | [] => None
  | x :: l' => Some (Qmake (fold_left Z.add l' x) (Pos.of_nat (List.length (x :: l'))))
  end.

(** [COUNT(CASE WHEN status = lit THEN 1 END)]: equality of text under the
    BINARY collation; a NULL status is no match. *)
Definition status_is (lit : string) (status : option string) : option Z :=
  match status with
  | Some s => if String.eqb s lit then Some 1 else None
  | None => None
  end.

(** NULL sorts before any value. *)
Definition option_ltb {A : Type} (ltb : A -> A -> bool) (a b : option A) : bool :=
  match a, b with
  | None, Some _ => true
  | Some x, Some y => ltb x y
  | _, _ => false
  end.

(** For the join of the statistics statement the engine builds an
    automatic covering index on [orders]: [user_id], then the columns the
    statement reads, [status] and [num_of_item], then the rowid.  It meets
    the orders of one user in the order of that index: by [status], then by
    [num_of_item], then by [order_id], text by [memcmp]. *)
Definition index_ltb (a b : Order) : bool :=
  option_ltb String.ltb (o_status a) (o_status b)
  || (option_eqb String.eqb (o_status a) (o_status b)
      && (option_ltb Z.ltb (o_num_of_item a) (o_num_of_item b)
          || (option_eqb Z.eqb (o_num_of_item a) (o_num_of_item b)
              && (o_order_id a <? o_order_id b)))).

Definition index_scan (os : list Order) : list Order :=
  order_by_desc (fun a b => index_ltb b a) (fun o => o) os.

(* ===================================================================== *)
(** ** The cursor *)
(* ===================================================================== *)

(** The SQL statements of [app.py], in the order of the file. *)
Inductive statement : Type :=
| SelectCustomersSearch
| SelectCustomers
| CountCustomersSearch
| CountCustomers
| SelectCustomer
| SelectRecentOrders
| SelectOrderStatistics
| SelectCustomerId
| SelectCustomerOrders
| CountCustomerOrders
| SelectOverallStatistics
| SelectTopCountries.

(** How a handler ends when it does not answer 200. *)
Inductive failure : Type :=
| NotFound
| InternalError.

Definition status_code (f : failure) : Z :=
  match f with
  | NotFound => 404
  | InternalError => 500
  end.

(** A handler body: it extends the list of the statements the engine has
    run, and ends with a value or with a failure. *)
Definition cursor (A : Type) : Type :=
  list statement -> list statement * (failure + A).

Definition ret {A : Type} (a : A) : cursor A := fun log => (log, inr a).

Definition raise {A : Type} (f : failure) : cursor A := fun log => (log, inl f).

Definition bind {A B : Type} (c : cursor A) (k : A -> cursor B) : cursor B :=
  fun log =>
    match c log with
    | (log', inr a) => k a log'
    | (log', inl f) => (log', inl f)
    end.

Declare Scope cursor_scope.
Delimit Scope cursor_scope with cursor.
Notation "x <- c ;; k" := (bind c (fun x => k))
  (at level 100, c at next level, right associativity) : cursor_scope.
Notation "c ;; k" := (bind c (fun _ => k))
  (at level 100, right associativity) : cursor_scope.

(** [cursor.execute(stmt, params)]: the integers among the parameters are
    bound as SQLite INTEGERs; [sqlite3] raises [OverflowError] for one
    that does not fit, before the statement runs.  The handlers turn that
    and any other exception but [ValueError] (an [sqlite3] error when a
    statement fails) into the 500 answer. *)
Definition execute (stmt : statement) (ints : list Z) : cursor unit :=
  fun log =>
    if forallb fits_int64 ints then (log ++ [stmt], inr tt)
    else (log, inl InternalError).

(** A request: the handler on a fresh cursor. *)
Definition run {A : Type} (c : cursor A) : list statement * (failure + A) := c [].

Definition answer {A : Type} (c : cursor A) : failure + A := snd (run c).

Definition executed {A : Type} (c : cursor A) : list statement := fst (run c).

(* ===================================================================== *)
(** ** Response shapes *)
(* ===================================================================== *)

Record Pagination : Type := mkPagination {
  pg_page : Z;
  pg_limit : Z;
  pg_total : Z;
  pg_total_pages : Z;
  pg_has_next : bool;
  pg_has_prev : bool
}.

(** A row of the customer list: nine columns of [users] and the count. *)
Record CustomerSummary : Type := mkCustomerSummary {
  cs_id : Z;
  cs_first_name : string;
  cs_last_name : string;
  cs_email : string;
  cs_age : option Z;
  cs_gender : option string;
  cs_country : option string;
  cs_city : option string;
  cs_created_at : sql_value;
  cs_order_count : Z
}.

Record CustomerList : Type := mkCustomerList {
  cl_success : bool;
  cl_data : list CustomerSummary;
  cl_pagination : Pagination;
  cl_search : option string
}.

(** The customer of the detail answer: the fifteen columns of its row and
    the two aggregates, [None] being JSON [null]. *)
Record CustomerFull : Type := mkCustomerFull {
  cf_columns : User;
  cf_order_count : Z;
  cf_total_items_ordered : option Z
}.

Record OrderSummary : Type := mkOrderSummary {
  os_order_id : Z;
  os_status : option string;
  os_num_of_item : option Z;
  os_created_at : sql_value;
  os_shipped_at : sql_value;
  os_delivered_at : sql_value
}.

Record OrderFull : Type := mkOrderFull {
  of_order_id : Z;
  of_status : option string;
  of_num_of_item : option Z;
  of_created_at : sql_value;
  of_shipped_at : sql_value;
  of_delivered_at : sql_value;
  of_returned_at : sql_value
}.

(** A number of the answer: an [int], or the [float] that
    [round(x, 2)] makes of the double next to [x]. *)
Inductive py_number : Type :=
| PyInt (n : Z)
| PyRound2 (x : Q).

Record OrderStatistics : Type := mkOrderStatistics {
  st_total_orders : Z;
  st_total_items : Z;
  st_avg_items_per_order : py_number;
  st_completed_orders : Z;
  st_shipped_orders : Z;
  st_cancelled_orders : Z
}.

Record CustomerDetails : Type := mkCustomerDetails {
  cd_success : bool;
  cd_customer : CustomerFull;
  cd_recent_orders : list OrderSummary;
  cd_order_statistics : OrderStatistics
}.

Record CustomerOrders : Type := mkCustomerOrders {
  co_success : bool;
  co_data : list OrderFull;
  co_pagination : Pagination
}.

Record OverallStatistics : Type := mkOverallStatistics {
  ov_total_customers : Z;
  ov_total_orders : Z;
  ov_total_items : Z;
  ov_avg_items_per_order : py_number;
  ov_completed_orders : Z;
  ov_shipped_orders : Z;
  ov_cancelled_orders : Z
}.

Record CountryRow : Type := mkCountryRow {
  cr_country : string;
  cr_customer_count : Z;
  cr_order_count : Z
}.

Record Statistics : Type := mkStatistics {
  sx_success : bool;
  sx_overall_statistics : OverallStatistics;
  sx_top_countries : list CountryRow
}.

(* ===================================================================== *)
(** ** The queries *)
(* ===================================================================== *)

Local Open Scope cursor_scope.

(** Equality of two user rows on the columns of
    [GROUP BY u.id, u.first_name, u.last_name, u.email, u.age, u.gender,
    u.country, u.city, u.created_at]. *)
Definition same_summary_columns (u v : User) : bool :=
  (u_id u =? u_id v)
  && String.eqb (u_first_name u) (u_first_name v)
  && String.eqb (u_last_name u) (u_last_name v)
  && String.eqb (u_email u) (u_email v)
  && option_eqb Z.eqb (u_age u) (u_age v)
  && option_eqb String.eqb (u_gender u) (u_gender v)
  && option_eqb String.eqb (u_country u) (u_country v)
  && option_eqb String.eqb (u_city u) (u_city v)
  && sql_value_eqb (u_created_at u) (u_created_at v).

(** Equality on the fifteen columns of the GROUP BY of the detail query. *)
Definition same_columns (u v : User) : bool :=
  same_summary_columns u v
  && option_eqb String.eqb (u_state u) (u_state v)
  && option_eqb String.eqb (u_street_address u) (u_street_address v)
  && option_eqb String.eqb (u_postal_code u) (u_postal_code v)
  && option_eqb Z.eqb (u_latitude u) (u_latitude v)
  && option_eqb Z.eqb (u_longitude u) (u_longitude v)
  && option_eqb String.eqb (u_traffic_source u) (u_traffic_source v).

(** [o.order_id] and [o.num_of_item] of a joined row: NULL on the row of
    a user without orders. *)
Definition joined_order_id (r : User * option Order) : option Z :=
  option_map o_order_id (snd r).

Definition joined_num_of_item (r : User * option Order) : option Z :=
  match snd r with
  | Some o => o_num_of_item o
  | None => None
  end.

Definition joined_status (r : User * option Order) : option string :=
  match snd r with
  | Some o => o_status o
  | None => None
  end.

(** [WHERE (u.first_name LIKE ? OR u.last_name LIKE ? OR u.email LIKE ?)],
    the three parameters being the same pattern. *)
Definition search_filter (search_param : string) (u : User) : bool :=
  sql_like search_param (u_first_name u)
  || sql_like search_param (u_last_name u)
  || sql_like search_param (u_email u).

(** The LIKE function is called once there is a row of [users] to test:
    that is when a pattern that is too long makes the statement fail. *)
Definition search_fails (db : Store) (search_param : string) : bool :=
  like_too_complex search_param
  && match users db with [] => false | _ => true end.

(** The WHERE clause of the list queries: absent when there is no search. *)
Definition customers_where (search_param : option string) (u : User) : bool :=
  match search_param with
  | Some pat => search_filter pat u
  | None => true
  end.

Definition customer_summary (g : User * list (User * option Order)) : CustomerSummary :=
  let u := fst g in
  {| cs_id := u_id u;
     cs_first_name := u_first_name u;
     cs_last_name := u_last_name u;
     cs_email := u_email u;
     cs_age := u_age u;
     cs_gender := u_gender u;
     cs_country := u_country u;
     cs_city := u_city u;
     cs_created_at := u_created_at u;
     cs_order_count := sql_count joined_order_id (snd g) |}.

(** The list query up to its GROUP BY: one row per user, in the order of
    the groups. *)
Definition customers_grouped (db : Store) (search_param : option string)
    : list CustomerSummary :=
  let joined := left_join (users db) (orders db) in
  let kept := filter (fun r => customers_where search_param (fst r)) joined in
  map customer_summary (group_by same_summary_columns fst kept).

(** ... and up to its [ORDER BY u.created_at DESC]: the whole result, of
    which LIMIT and OFFSET cut a window. *)
Definition customers_ordered (db : Store) (search_param : option string)
    : list CustomerSummary :=
  order_by_desc sql_ltb cs_created_at (customers_grouped db search_param).

Definition select_customers (db : Store) (search_param : option string)
    (limit offset : Z) : list CustomerSummary :=
  sql_limit_offset limit offset (customers_ordered db search_param).

(** [SELECT COUNT(DISTINCT u.id) FROM users u WHERE (...)] *)
Definition count_customers_search (db : Store) (search_param : string) : Z :=
  sql_count_distinct u_id (filter (search_filter search_param) (users db)).

(** [WHERE user_id = ?] on [orders]. *)
Definition of_user (customer_id : Z) (o : Order) : bool :=
  match o_user_id o with
  | Some i => i =? customer_id
  | None => false
  end.

Definition order_summary (o : Order) : OrderSummary :=
  {| os_order_id := o_order_id o;
     os_status := o_status o;
     os_num_of_item := o_num_of_item o;
     os_created_at := o_created_at o;
     os_shipped_at := o_shipped_at o;
     os_delivered_at := o_delivered_at o |}.

Definition order_full (o : Order) : OrderFull :=
  {| of_order_id := o_order_id o;
     of_status := o_status o;
     of_num_of_item := o_num_of_item o;
     of_created_at := o_created_at o;
     of_shipped_at := o_shipped_at o;
     of_delivered_at := o_delivered_at o;
     of_returned_at := o_returned_at o |}.

(** [... FROM orders WHERE user_id = ? ORDER BY created_at DESC]: the
    orders of a customer, before any LIMIT. *)
Definition orders_ordered (db : Store) (customer_id : Z) : list Order :=
  order_by_desc sql_ltb o_created_at (filter (of_user customer_id) (orders db)).

Definition select_customer_orders (db : Store) (customer_id limit offset : Z)
    : list OrderFull :=
  map order_full (sql_limit_offset limit offset (orders_ordered db customer_id)).

Definition select_recent_orders (db : Store) (customer_id : Z) : list OrderSummary :=
  map order_summary (sql_limit_offset 5 0 (orders_ordered db customer_id)).

(** [SELECT id FROM users WHERE id = ?] followed by [fetchone()]. *)
Definition select_customer_id (db : Store) (customer_id : Z) : option Z :=
  match filter (fun u => u_id u =? customer_id) (users db) with
  | [] => None
  | u :: _ => Some (u_id u)
  end.

(** The detail query: the groups of the joined rows of that id, each with
    its count and its sum. *)
Definition select_customer (db : Store) (customer_id : Z)
    : list (User * Z * sum_result) :=
  let joined := left_join (users db) (orders db) in
  let kept := filter (fun r => u_id (fst r) =? customer_id) joined in
  map (fun g => (fst g, sql_count joined_order_id (snd g),
                 sql_sum (map joined_num_of_item (snd g))))
      (group_by same_columns fst kept).

(** [x or 0] on a sum: [None] and [0] both give [0]. *)
Definition or_zero (x : option Z) : Z :=
  match x with
  | Some n => n
  | None => 0
  end.

(** [round(x or 0, 2)] on an average: [None] and [0.0] are false, and
    [round(0, 2)] is the [int] 0. *)
Definition round2_or_zero (x : option Q) : py_number :=
  match x with
  | Some q => if Qeq_bool q 0 then PyInt 0 else PyRound2 q
  | None => PyInt 0
  end.

(** [GROUP BY u.country] after [WHERE u.country IS NOT NULL], then
    [ORDER BY order_count DESC LIMIT 5].  To form these groups the engine
    sorts the rows by country, and it hands the groups on from the last
    country to the first. *)
Definition select_top_countries (db : Store) : list CountryRow :=
  let joined := left_join (users db) (orders db) in
  let kept :=
    flat_map (fun r => match u_country (fst r) with
                       | Some c => [(c, r)]
                       | None => []
                       end) joined in
  let rows :=
    map (fun g => {| cr_country := fst g;
                     cr_customer_count := sql_count_distinct (fun cr => u_id (fst (snd cr))) (snd g);
                     cr_order_count := sql_count (fun cr => joined_order_id (snd cr)) (snd g) |})
        (order_by_desc String.ltb fst (group_by String.eqb fst kept)) in
  sql_limit_offset 5 0 (order_by_desc Z.ltb cr_order_count rows).

(* ===================================================================== *)
(** ** The handlers *)
(* ===================================================================== *)

(** The [pagination] object both paginated handlers build. *)
Definition pagination (page limit total_count : Z) : Pagination :=
  let total_pages := (total_count + limit - 1) / limit in
  {| pg_page := page;
     pg_limit := limit;
     pg_total := total_count;
     pg_total_pages := total_pages;
     pg_has_next := page <? total_pages;
     pg_has_prev := 1 <? page |}.

(** [page = max(1, int(...))], [limit = min(100, max(1, int(...)))],
    [offset = (page - 1) * limit], on the integers [int()] has parsed. *)
Definition normalize (page limit : Z) : Z * Z * Z :=
  let page := Z.max 1 page in
  let limit := Z.min 100 (Z.max 1 limit) in
  (page, limit, (page - 1) * limit).

Definition list_customers (db : Store) (page limit : Z) (search : string)
    : cursor CustomerList :=
  let '(page, limit, offset) := normalize page limit in
  let search := strip search in
  let search_param := ("%" ++ search ++ "%")%string in
  customers <-
    (if nonempty search then
       execute SelectCustomersSearch [limit; offset] ;;
       if search_fails db search_param then raise InternalError
       else ret (select_customers db (Some search_param) limit offset)
     else
       execute SelectCustomers [limit; offset] ;;
       ret (select_customers db None limit offset)) ;;
  total_count <-
    (if nonempty search then
       execute CountCustomersSearch [] ;;
       ret (count_customers_search db search_param)
     else
       execute CountCustomers [] ;;
       ret (sql_count_star (users db))) ;;
  ret {| cl_success := true;
         cl_data := customers;
         cl_pagination := pagination page limit total_count;
         cl_search := if nonempty search then Some search else None |}.

Definition get_customer_details (db : Store) (customer_id : Z)
    : cursor CustomerDetails :=
  execute SelectCustomer [customer_id] ;;
  match select_customer db customer_id with
  | [] => raise NotFound
  | (_, _, SumOverflow) :: _ => raise InternalError
  | (u, order_count, total) :: _ =>
      let customer_data :=
        {| cf_columns := u;
           cf_order_count := order_count;
           cf_total_items_ordered :=
             match total with SumInt n => Some n | _ => None end |} in
      execute SelectRecentOrders [customer_id] ;;
      let recent_orders := select_recent_orders db customer_id in
      execute SelectOrderStatistics [customer_id] ;;
      let mine := filter (of_user customer_id) (orders db) in
      match sql_sum (map o_num_of_item mine) with
      | SumOverflow => raise InternalError
      | total_items =>
          ret {| cd_success := true;
                 cd_customer := customer_data;
                 cd_recent_orders := recent_orders;
                 cd_order_statistics :=
                   {| st_total_orders := sql_count_star mine;
                      st_total_items :=
                        or_zero (match total_items with SumInt n => Some n | _ => None end);
                      st_avg_items_per_order :=
                        round2_or_zero (sql_avg (map o_num_of_item mine));
                      st_completed_orders :=
                        sql_count (fun o => status_is "Complete" (o_status o)) mine;
                      st_shipped_orders :=
                        sql_count (fun o => status_is "Shipped" (o_status o)) mine;
                      st_cancelled_orders :=
                        sql_count (fun o => status_is "Cancelled" (o_status o)) mine |} |}
      end
  end.

Definition get_customer_orders (db : Store) (customer_id page limit : Z)
    : cursor CustomerOrders :=
  let '(page, limit, offset) := normalize page limit in
  execute SelectCustomerId [customer_id] ;;
  match select_customer_id db customer_id with
  | None => raise NotFound
  | Some _ =>
      execute SelectCustomerOrders [customer_id; limit; offset] ;;
      let fetched := select_customer_orders db customer_id limit offset in
      execute CountCustomerOrders [customer_id] ;;
      let total_count := sql_count_star (filter (of_user customer_id) (orders db)) in
      ret {| co_success := true;
             co_data := fetched;
             co_pagination := pagination page limit total_count |}
  end.

(** [get_statistics()].  The first statement joins every user to its
    orders as the automatic index holds them ([index_scan]); of its
    aggregates only the SUM, which fails on the first partial sum out of
    range, sees that order. *)
Definition get_statistics (db : Store) : cursor Statistics :=
  execute SelectOverallStatistics [] ;;
  let joined := left_join (users db) (index_scan (orders db)) in
  match sql_sum (map joined_num_of_item joined) with
  | SumOverflow => raise InternalError
  | total_items =>
      execute SelectTopCountries [] ;;
      let top_countries := select_top_countries db in
      ret {| sx_success := true;
             sx_overall_statistics :=
               {| ov_total_customers := sql_count_distinct (fun r => u_id (fst r)) joined;
                  ov_total_orders := sql_count joined_order_id joined;
                  ov_total_items :=
                    or_zero (match total_items with SumInt n => Some n | _ => None end);
                  ov_avg_items_per_order :=
                    round2_or_zero (sql_avg (map joined_num_of_item joined));
                  ov_completed_orders :=
                    sql_count (fun r => status_is "Complete" (joined_status r)) joined;
                  ov_shipped_orders :=
                    sql_count (fun r => status_is "Shipped" (joined_status r)) joined;
                  ov_cancelled_orders :=
                    sql_count (fun r => status_is "Cancelled" (joined_status r)) joined |};
             sx_top_countries := top_countries |}
  end.

(* ===================================================================== *)
(** ** A client *)
(* ===================================================================== *)

(** A client that asks for the orders of a customer 100 at a time, from
    [page] on, until an answer says [has_next = false], and puts the pages
    one after the other; [fuel] bounds the number of requests. *)
Fixpoint all_order_pages (fuel : nat) (db : Store) (customer_id page : Z)
    : option (list OrderFull) :=
  match fuel with
  | O => None
  | S fuel' =>
      match answer (get_customer_orders db customer_id page 100) with
      | inr body =>
          if pg_has_next (co_pagination body)
          then option_map (app (co_data body))
                          (all_order_pages fuel' db customer_id (page + 1))
          else Some (co_data body)
      | inl _ => None
      end
  end.

(* ===================================================================== *)
(** ** Vocabulary of the properties *)
(* ===================================================================== *)

(** The rows a user contributes to the join. *)
Definition join_block (os : list Order) (u : User) : list (User * option Order) :=
  match filter (on_user u) os with
  | [] => [(u, None)]
  | matched => map (fun o => (u, Some o)) matched
  end.

(** The row of the customer list for a user. *)
Definition summary_of (os : list Order) (u : User) : CustomerSummary :=
  customer_summary (u, join_block os u).

(** The pattern a search string leads to, the users its WHERE clause
    keeps, and the totals the count statements return. *)
Definition search_param_of (search : string) : option string :=
  if nonempty (strip search) then Some ("%" ++ strip search ++ "%")%string else None.

Definition matches_search (search : string) (u : User) : bool :=
  customers_where (search_param_of search) u.

Definition customers_total (db : Store) (search : string) : Z :=
  if nonempty (strip search)
  then count_customers_search db ("%" ++ strip search ++ "%")%string
  else sql_count_star (users db).

Definition customer_orders_total (db : Store) (customer_id : Z) : Z :=
  sql_count_star (filter (of_user customer_id) (orders db)).

(** The search of the request makes the list statement fail. *)
Definition search_too_complex (db : Store) (search : string) : bool :=
  nonempty (strip search) && search_fails db ("%" ++ strip search ++ "%")%string.

(** The store has a user of that id. *)
Definition customer_exists (db : Store) (customer_id : Z) : Prop :=
  exists u, In u (users db) /\ u_id u = customer_id.

(** An order that is not orphaned: its [user_id] is the id of a user. *)
Definition has_customer (db : Store) (o : Order) : bool :=
  existsb (fun u => on_user u o) (users db).

(** [k] is the ceiling of [total / limit]. *)
Definition is_ceiling (total limit k : Z) : Prop :=
  (k - 1) * limit < total <= k * limit.

(** What C3 says of a [pagination] object. *)
Definition pagination_consistent (p : Pagination) : Prop :=
  0 <= pg_total p /\ 1 <= pg_limit p <= 100 /\
  is_ceiling (pg_total p) (pg_limit p) (pg_total_pages p) /\
  (pg_total p = 0 -> pg_total_pages p = 0) /\
  pg_has_next p = (pg_page p <? pg_total_pages p) /\
  pg_has_prev p = (1 <? pg_page p).

(** [a] may stand before [b] under [ORDER BY key DESC]. *)
Definition desc_by {R : Type} (key : R -> sql_value) (a b : R) : Prop :=
  sql_leb (key b) (key a) = true.

(** [a] may stand before [b] under [ORDER BY key DESC, ident]: its key is
    not less, and where the keys are the same its [ident] is less. *)
Definition desc_then_id {R : Type} (key : R -> sql_value) (ident : R -> Z) (a b : R)
    : Prop :=
  sql_leb (key b) (key a) = true
  /\ (sql_leb (key a) (key b) = true -> ident a < ident b).

(** [t] occurs in [s] up to the case of ASCII letters. *)
Fixpoint same_nocase (t s : string) : bool :=
  match t, s with
  | EmptyString, EmptyString => true
  | String a t', String b s' => eq_nocase a b && same_nocase t' s'
  | _, _ => false
  end.

Definition occurs_nocase (t s : string) : Prop :=
  exists pre mid post, s = (pre ++ mid ++ post)%string /\ same_nocase t mid = true.

(* ===================================================================== *)
(** ** Example stores *)
(* ===================================================================== *)

Definition example_user (id : Z) (first_name last_name email created_at : string) : User :=
  {| u_id := id; u_first_name := first_name; u_last_name := last_name;
     u_email := email; u_age := None; u_gender := None; u_state := None;
     u_street_address := None; u_postal_code := None; u_city := None;
     u_country := Some "Brasil"; u_latitude := None; u_longitude := None;
     u_traffic_source := None; u_created_at := SqlText created_at |}.

Definition example_order (order_id user_id : Z) (status : string) (num_of_item : Z)
    (created_at : string) : Order :=
  {| o_order_id := order_id; o_user_id := Some user_id; o_status := Some status;
     o_gender := None; o_created_at := SqlText created_at;
     o_returned_at := SqlNull; o_shipped_at := SqlNull; o_delivered_at := SqlNull;
     o_num_of_item := Some num_of_item |}.

(** Four customers, held by rowid; the first three were created at the
    same time, the fourth later.  Customer 1 has two orders, the others
    none, and order 12 names a customer that does not exist. *)
Definition example_store : Store :=
  {| users :=
       [example_user 1 "Ann" "Roe" "ann@example.com" "2022-07-19 13:51:00+00:00";
        example_user 2 "Bob" "Lee" "bob@example.com" "2022-07-19 13:51:00+00:00";
        example_user 3 "Cyd" "Poe" "cyd@example.com" "2022-07-19 13:51:00+00:00";
        example_user 4 "Dee" "Kay" "dee@example.com" "2023-01-05 09:00:00+00:00"];
     orders :=
       [example_order 10 1 "Complete" 3 "2022-10-20 10:03:00+00:00";
        example_order 11 1 "Shipped" 2 "2022-10-21 08:00:00+00:00";
        example_order 12 77 "Shipped" 4 "2022-10-22 09:30:00+00:00"] |}.

(** A search of 49999 characters: its pattern has 50001. *)
Definition long_search : string :=
  string_of_list_ascii (repeat "a"%char (Z.to_nat 49999)).

(** No customer, one order. *)
Definition orphan_store : Store :=
  {| users := [];
     orders := [example_order 12 77 "Shipped" 4 "2022-10-22 09:30:00+00:00"] |}.

(* ===================================================================== *)
(** ** The parameters of a request *)
(* ===================================================================== *)

(** [int(s)] on a [str], base 10.  Blanks around the number are dropped:
    the ASCII blanks, and the two other characters below 256 that
    [str.isspace] accepts and that are not ASCII. *)
Definition int_space (c : ascii) : bool :=
  let n := Z.of_N (N_of_ascii c) in
  ((9 <=? n) && (n <=? 13)) || (n =? 32) || (n =? 133) || (n =? 160).

Definition is_digit (c : ascii) : bool :=
  let n := Z.of_N (N_of_ascii c) in (48 <=? n) && (n <=? 57).

Definition digit_value (c : ascii) : Z := Z.of_N (N_of_ascii c) - 48.

Fixpoint int_lstrip (s : string) : string :=
  match s with
  | EmptyString => EmptyString
  | String c s' => if int_space c then int_lstrip s' else s
  end.

Fixpoint all_int_space (s : string) : bool :=
  match s with
  | EmptyString => true
  | String c s' => int_space c && all_int_space s'
  end.

(** The digits of the literal, one underscore allowed between two digits:
    the value, the number of digits and what follows them, or [None] when
    an underscore is followed by no digit. *)
Fixpoint int_digits (s : string) (value : Z) (count : nat) (after_underscore : bool)
    : option (Z * nat * string) :=
  match s with
  | EmptyString => if after_underscore then None else Some (value, count, EmptyString)
  | String c s' =>
      if is_digit c then int_digits s' (10 * value + digit_value c) (S count) false
      else if Ascii.eqb c "_" then
        if after_underscore then None else int_digits s' value count true
      else if after_underscore then None else Some (value, count, s)
  end.

(** [int_max_str_digits] is the interpreter's limit on the digits of such
    a literal ([sys.get_int_max_str_digits()]: 4300 by default since Python
    3.11, 0 for no limit, as before it).  [None] is [ValueError]. *)
Definition py_int (int_max_str_digits : nat) (s : string) : option Z :=
  let s := int_lstrip s in
  let '(negative, s) :=
    match s with
    | String c s' =>
        if Ascii.eqb c "-" then (true, s')
        else if Ascii.eqb c "+" then (false, s')
        else (false, s)
    | EmptyString => (false, s)
    end in
  match s with
  | EmptyString => None
  | String c _ =>
      if is_digit c then
        match int_digits s 0 0%nat false with
        | Some (value, count, rest) =>
            if all_int_space rest then
              if (0 <? int_max_str_digits)%nat && (int_max_str_digits <? count)%nat
              then None
              else Some (if negative then - value else value)
            else None
        | None => None
        end
      else None
  end.

(** [int(d.get(key, default))], the default being an [int]. *)
Definition int_param (int_max_str_digits : nat) (value : option string) (default : Z)
    : option Z :=
  match value with
  | Some s => py_int int_max_str_digits s
  | None => Some default
  end.

(* ===================================================================== *)
(** ** The views of [app.py] *)
(* ===================================================================== *)

(** What a request is answered with when it is not 200: the 400 of a page
    or limit that is no number, the 404 of a customer that does not exist,
    the 404 of a path that is no route, the 500 of any other exception. *)
Inductive http_failure : Type :=
| InvalidPagination
| CustomerNotFound
| RouteNotFound
| ServerError.


Definition of_failure (f : failure) : http_failure :=
  match f with
  | NotFound => CustomerNotFound
  | InternalError => ServerError
  end.

(** The answer of a handler body as the view returns it. *)
Definition respond {A : Type} (c : cursor A) : list statement * (http_failure + A) :=
  match run c with
  | (log, inr body) => (log, inr body)
  | (log, inl f) => (log, inl (of_failure f))
  end.

(** [request.args.get(key)]: the first value of the key. *)
Fixpoint args_get (key : string) (args : list (string * string)) : option string :=
  match args with
  | [] => None
  | (k, v) :: args' => if String.eqb k key then Some v else args_get key args'
  end.

Module app.
Section Views.
Variable int_max_str_digits : nat.

(** [list_customers()], from [request.args] on: [int()] raises
    [ValueError] before the connection is opened, and the view answers
    400. *)
Definition list_customers (db : Store) (args : list (string * string))
    : list statement * (http_failure + CustomerList) :=
  match int_param int_max_str_digits (args_get "page" args) 1 with
  | None => ([], inl InvalidPagination)
  | Some page =>
      match int_param int_max_str_digits (args_get "limit" args) 10 with
      | None => ([], inl InvalidPagination)
      | Some limit =>
          let search :=
            match args_get "search" args with Some s => s | None => "" end in
          respond (list_customers db page limit search)
      end
  end.

(** [get_customer_details(customer_id)] *)
Definition get_customer_details (db : Store) (customer_id : Z)
    : list statement * (http_failure + CustomerDetails) :=
  respond (get_customer_details db customer_id).

(** [get_customer_orders(customer_id)], from [request.args] on. *)
Definition get_customer_orders (db : Store) (customer_id : Z)
    (args : list (string * string))
    : list statement * (http_failure + CustomerOrders) :=
  match int_param int_max_str_digits (args_get "page" args) 1 with
  | None => ([], inl InvalidPagination)
  | Some page =>
      match int_param int_max_str_digits (args_get "limit" args) 10 with
      | None => ([], inl InvalidPagination)
      | Some limit => respond (get_customer_orders db customer_id page limit)
      end
  end.

(** [get_statistics()] *)
Definition get_statistics (db : Store) : list statement * (http_failure + Statistics) :=
  respond (get_statistics db).
End Views.
End app.

(* ===================================================================== *)
(** ** The server of [simple_api.py] *)
(* ===================================================================== *)

(** [c in s] *)
Fixpoint in_string (c : ascii) (s : string) : bool :=
  match s with
  | EmptyString => false
  | String d s' => Ascii.eqb d c || in_string c s'
  end.

(** [s.split(c, 1)] as a pair: what stands before the first [c] and what
    stands after it ([s] and nothing when there is no [c]). *)
Fixpoint split1 (c : ascii) (s : string) : string * string :=
  match s with
  | EmptyString => (EmptyString, EmptyString)
  | String d s' =>
      if Ascii.eqb d c then (EmptyString, s')
      else let '(before, after) := split1 c s' in (String d before, after)
  end.

(** [s.split(c)] *)
Fixpoint split (c : ascii) (s : string) : list string :=
  match s with
  | EmptyString => [EmptyString]
  | String d s' =>
      if Ascii.eqb d c then EmptyString :: split c s'
      else
        match split c s' with
        | piece :: pieces => String d piece :: pieces
        | [] => [String d EmptyString]
        end
  end.

(** [p] removed from the front of [s], when [s.startswith(p)]. *)
Fixpoint strip_prefix (p s : string) : option string :=
  match p with
  | EmptyString => Some s
  | String a p' =>
      match s with
      | String b s' => if Ascii.eqb a b then strip_prefix p' s' else None
      | EmptyString => None
      end
  end.

(** The longest run of digits at the front of [s], and the rest. *)
Fixpoint take_digits (s : string) : string * string :=
  match s with
  | EmptyString => (EmptyString, EmptyString)
  | String c s' =>
      if is_digit c then let '(digits, rest) := take_digits s' in (String c digits, rest)
      else (EmptyString, s)
  end.

(** [$] of a regular expression: the end of the text, or the end but for
    one newline. *)
Definition at_end (s : string) : bool :=
  String.eqb s EmptyString || String.eqb s (String (ascii_of_nat 10) EmptyString).

(** [re.match(r'/api/customers/(\d+)$', path)]: the group, when the path
    matches. *)
Definition match_customer (path : string) : option string :=
  match strip_prefix "/api/customers/" path with
  | Some tail =>
      let '(digits, rest) := take_digits tail in
      if nonempty digits && at_end rest then Some digits else None
  | None => None
  end.

(** [re.match(r'/api/customers/(\d+)/orders$', path)] *)
Definition match_customer_orders (path : string) : option string :=
  match strip_prefix "/api/customers/" path with
  | Some tail =>
      let '(digits, rest) := take_digits tail in
      match strip_prefix "/orders" rest with
      | Some rest' => if nonempty digits && at_end rest' then Some digits else None
      | None => None
      end
  | None => None
  end.

(** A [dict] with text keys, in the order of the first insertion of each
    key. *)
Fixpoint dict_set (key value : string) (d : list (string * string))
    : list (string * string) :=
  match d with
  | [] => [(key, value)]
  | (k, v) :: d' =>
      if String.eqb k key then (k, value) :: d' else (k, v) :: dict_set key value d'
  end.

Definition dict_get (key : string) (d : list (string * string)) : option string :=
  args_get key d.

(** The body of a 200 answer of the server; the health answer has no more
    than constants and the time of the answer, which is left out. *)
Inductive api_body : Type :=
| Health
| Customers (body : CustomerList)
| Customer (body : CustomerDetails)
| Orders (body : CustomerOrders)
| Stats (body : Statistics).

Module simple_api.
Section Handler.
(** [urllib.parse.unquote] and the interpreter's limit on the digits of an
    integer literal. *)
Variable unquote : string -> string.
Variable int_max_str_digits : nat.

(** [_parse_query_params(query_string)] *)
Definition _parse_query_params (query_string : string) : list (string * string) :=
  if nonempty query_string then
    fold_left
      (fun params param =>
         if in_string "=" param then
           let '(key, value) := split1 "=" param in
           dict_set (unquote key) (unquote value) params
         else params)
      (split "&" query_string) []
  else [].

(** The handlers send the 404 of a missing customer themselves; any
    exception leaves them, and [do_GET] answers 500 for it: that end is
    written [ServerError] here as well. *)
Definition _handle_list_customers (db : Store) (query_string : string)
    : list statement * (http_failure + CustomerList) :=
  let params := _parse_query_params query_string in
  match int_param int_max_str_digits (dict_get "page" params) 1 with
  | None => ([], inl ServerError)
  | Some page =>
      match int_param int_max_str_digits (dict_get "limit" params) 10 with
      | None => ([], inl ServerError)
      | Some limit =>
          let search :=
            match dict_get "search" params with Some s => s | None => "" end in
          respond (list_customers db page limit search)
      end
  end.

Definition _handle_get_customer_details (db : Store) (customer_id : Z)
    : list statement * (http_failure + CustomerDetails) :=
  respond (get_customer_details db customer_id).

Definition _handle_get_customer_orders (db : Store) (customer_id : Z)
    (query_string : string) : list statement * (http_failure + CustomerOrders) :=
  let params := _parse_query_params query_string in
  match int_param int_max_str_digits (dict_get "page" params) 1 with
  | None => ([], inl ServerError)
  | Some page =>
      match int_param int_max_str_digits (dict_get "limit" params) 10 with
      | None => ([], inl ServerError)
      | Some limit => respond (get_customer_orders db customer_id page limit)
      end
  end.

Definition _handle_get_statistics (db : Store)
    : list statement * (http_failure + Statistics) :=
  respond (get_statistics db).

(** A handler's answer as an answer of the server. *)
Definition sent {A : Type} (wrap : A -> api_body)
    (r : list statement * (http_failure + A))
    : list statement * (http_failure + api_body) :=
  match r with
  | (log, inr body) => (log, inr (wrap body))
  | (log, inl f) => (log, inl f)
  end.

(** [do_GET], from [self.path] on. *)
Definition do_GET (db : Store) (path : string)
    : list statement * (http_failure + api_body) :=
  if String.eqb path "/api/health" then ([], inr Health)
  else
    let with_query := String.prefix "/api/customers" path && in_string "?" path in
    let query_string := if with_query then snd (split1 "?" path) else EmptyString in
    let path := if with_query then fst (split1 "?" path) else path in
    if with_query && String.eqb path "/api/customers" then
      sent Customers (_handle_list_customers db query_string)
    else
      match match_customer path with
      | Some digits =>
          match py_int int_max_str_digits digits with
          | Some customer_id =>
              sent Customer (_handle_get_customer_details db customer_id)
          | None => ([], inl ServerError)
          end
      | None =>
          match match_customer_orders path with
          | Some digits =>
              match py_int int_max_str_digits digits with
              | Some customer_id =>
                  let query_string :=
                    if in_string "?" path then nth 1 (split "?" path) EmptyString
                    else EmptyString in
                  sent Orders (_handle_get_customer_orders db customer_id query_string)
              | None => ([], inl ServerError)
              end
          | None =>
              if String.eqb path "/api/statistics" then
                sent Stats (_handle_get_statistics db)
              else ([], inl RouteNotFound)
          end
      end.
End Handler.
End simple_api.


(* ===================================================================== *)
(** ** Words for the statistics *)
(* ===================================================================== *)

(** The quantities the statistics statement adds up: the [num_of_item]
    that are not NULL, of the orders that are not orphaned. *)
Definition counted_items (db : Store) : list Z :=
  non_null (map o_num_of_item (filter (has_customer db) (orders db))).

Definition z_sum (l : list Z) : Z := fold_right Z.add 0 l.

(** The users of a country, and the orders of these users. *)
Definition in_country (c : string) (u : User) : bool :=
  match u_country u with
  | Some c' => String.eqb c' c
  | None => false
  end.

Definition country_customers (db : Store) (c : string) : list User :=
  filter (in_country c) (users db).

Definition country_orders (db : Store) (c : string) : list Order :=
  filter (fun o => existsb (fun u => on_user u o) (country_customers db c)) (orders db).

(** One customer whose two orders have 2^62 items each. *)
Definition heavy_store : Store :=
  {| users := [example_user 1 "Ann" "Roe" "ann@example.com" "2022-07-19 13:51:00+00:00"];
     orders :=
       [example_order 10 1 "Complete" (2 ^ 62) "2022-10-20 10:03:00+00:00";
        example_order 11 1 "Complete" (2 ^ 62) "2022-10-21 08:00:00+00:00"] |}.

(** Six customers of six countries; the one of Peru has no order. *)
Definition example_user_of (id : Z) (country : string) : User :=
  {| u_id := id; u_first_name := "Ann"; u_last_name := "Roe";
     u_email := "ann@example.com"; u_age := None; u_gender := None; u_state := None;
     u_street_address := None; u_postal_code := None; u_city := None;
     u_country := Some country; u_latitude := None; u_longitude := None;
     u_traffic_source := None; u_created_at := SqlText "2022-07-19 13:51:00+00:00" |}.

Definition world_store : Store :=
  {| users :=
       [example_user_of 1 "Brasil"; example_user_of 2 "China";
        example_user_of 3 "France"; example_user_of 4 "Japan";
        example_user_of 5 "Spain"; example_user_of 6 "Peru";
        example_user_of 7 "Brasil"];
     orders :=
       [example_order 10 1 "Complete" 3 "2022-10-20 10:03:00+00:00";
        example_order 11 7 "Shipped" 2 "2022-10-21 08:00:00+00:00";
        example_order 12 2 "Shipped" 4 "2022-10-22 09:30:00+00:00";
        example_order 13 3 "Complete" 1 "2022-10-23 09:30:00+00:00";
        example_order 14 4 "Cancelled" 1 "2022-10-24 09:30:00+00:00";
        example_order 15 5 "Complete" 1 "2022-10-25 09:30:00+00:00"] |}.

(* ===================================================================== *)
(** * Properties *)
(* ===================================================================== *)

(** ** Lists *)


Lemma sql_limit_offset_window {R : Type} (limit offset : Z) (rows : list R) :
  0 <= limit ->
  sql_limit_offset limit offset rows
  = firstn (Z.to_nat limit) (skipn (Z.to_nat offset) rows).
Proof.
  intros H. unfold sql_limit_offset.
  destruct (limit <? 0) eqn:E; [apply Z.ltb_lt in E; lia | reflexivity].
Qed.

Lemma sql_limit_offset_length {R : Type} (limit offset : Z) (rows : list R) :
  0 <= limit ->
  Z.of_nat (List.length (sql_limit_offset limit offset rows)) <= limit.
Proof.
  intros H. rewrite sql_limit_offset_window by assumption.
  pose proof (firstn_le_length (Z.to_nat limit) (skipn (Z.to_nat offset) rows)).
  lia.
Qed.


(** ** ORDER BY *)

Section OrderBy.
Context {R K : Type} (ltb : K -> K -> bool) (key : R -> K).

Lemma insert_desc_perm (x : R) (l : list R) :
  Permutation (x :: l) (insert_desc ltb key x l).
Proof.
  induction l as [|y l IH]; simpl; [reflexivity|].
  destruct (ltb (key x) (key y)); [|reflexivity].
  rewrite perm_swap. now constructor.
Qed.

Lemma order_by_desc_perm (l : list R) :
  Permutation l (order_by_desc ltb key l).
Proof.
  induction l as [|x l IH]; simpl; [constructor|].
  etransitivity; [|apply insert_desc_perm]. now constructor.
Qed.

Lemma order_by_desc_length (l : list R) :
  List.length (order_by_desc ltb key l) = List.length l.
Proof. symmetry. apply Permutation_length, order_by_desc_perm. Qed.


(** Rows that the sort key does not tell apart keep their order: the
    rows picked by a predicate on the key are the same list before and
    after the sort, when the predicate picks one class of equal keys. *)
Lemma insert_desc_filter (p : R -> bool) (x : R) (l : list R) :
  (forall y, In y l -> p x = true -> p y = true -> ltb (key x) (key y) = false) ->
  filter p (insert_desc ltb key x l) = filter p (x :: l).
Proof.
  induction l as [|y l IH]; intros H; [reflexivity|].
  simpl. destruct (ltb (key x) (key y)) eqn:E; [|reflexivity].
  simpl. rewrite IH by (intros; apply H; simpl; auto).
  simpl. destruct (p x) eqn:Px, (p y) eqn:Py; try reflexivity.
  rewrite H in E; simpl; auto. discriminate.
Qed.

Lemma order_by_desc_stable (p : R -> bool) (l : list R) :
  (forall x y, p x = true -> p y = true -> ltb (key x) (key y) = false) ->
  filter p (order_by_desc ltb key l) = filter p l.
Proof.
  intros H. induction l as [|x l IH]; [reflexivity|].
  simpl order_by_desc. rewrite insert_desc_filter by (intros; now apply H).
  simpl. now rewrite IH.
Qed.
End OrderBy.

(** ** GROUP BY *)

Section GroupBy.
Context {K R : Type} (eqb : K -> K -> bool) (key : R -> K).
Hypothesis eqb_refl : forall k, eqb k k = true.

Let add (groups : list (K * list R)) (r : R) := add_to_group eqb (key r) r groups.

Lemma add_to_group_new (k : K) (r : R) (gs : list (K * list R)) :
  Forall (fun g => eqb (fst g) k = false) gs ->
  add_to_group eqb k r gs = gs ++ [(k, [r])].
Proof.
  induction 1 as [|[k' rs] gs Hk _ IH]; simpl in *; [reflexivity|].
  now rewrite Hk, IH.
Qed.

Lemma add_to_group_last (k : K) (r : R) (gs : list (K * list R)) (rs : list R) :
  Forall (fun g => eqb (fst g) k = false) gs ->
  add_to_group eqb k r (gs ++ [(k, rs)]) = gs ++ [(k, rs ++ [r])].
Proof.
  induction 1 as [|[k' rs'] gs Hk _ IH]; simpl in *.
  - now rewrite eqb_refl.
  - now rewrite Hk, IH.
Qed.

Lemma fold_add_block (k : K) (block : list R) :
  Forall (fun r => key r = k) block ->
  forall (gs : list (K * list R)) (rs : list R),
    Forall (fun g => eqb (fst g) k = false) gs ->
    fold_left add block (gs ++ [(k, rs)]) = gs ++ [(k, rs ++ block)].
Proof.
  induction 1 as [|r block Hr _ IH]; intros gs rs Hgs; simpl.
  - now rewrite app_nil_r.
  - unfold add at 2. rewrite Hr, add_to_group_last by assumption.
    rewrite IH by assumption. now rewrite <- app_assoc.
Qed.

Lemma fold_add_new_block (k : K) (block : list R) (gs : list (K * list R)) :
  block <> [] ->
  Forall (fun r => key r = k) block ->
  Forall (fun g => eqb (fst g) k = false) gs ->
  fold_left add block gs = gs ++ [(k, block)].
Proof.
  intros Hne Hall Hgs. destruct block as [|r block]; [congruence|].
  inversion Hall as [|? ? Hr Hall']; subst. simpl.
  unfold add at 2. rewrite add_to_group_new by assumption.
  now rewrite fold_add_block.
Qed.

(** Rows that arrive block by block, one block per key, are grouped
    into exactly these blocks. *)
Lemma fold_add_blocks {U : Type} (ukey : U -> K) (block : U -> list R) (us : list U) :
  (forall u, In u us -> block u <> []) ->
  (forall u, In u us -> Forall (fun r => key r = ukey u) (block u)) ->
  ForallOrdPairs (fun u v => eqb (ukey u) (ukey v) = false) us ->
  forall gs : list (K * list R),
    Forall (fun g => Forall (fun u => eqb (fst g) (ukey u) = false) us) gs ->
    fold_left add (flat_map block us) gs
    = gs ++ map (fun u => (ukey u, block u)) us.
Proof.
  induction us as [|u us IH]; intros Hne Hkey Hpairs gs Hgs; cbn [flat_map map].
  - cbn. now rewrite app_nil_r.
  - inversion Hpairs as [|? ? Hu Hpairs']; subst.
    rewrite fold_left_app.
    rewrite (fold_add_new_block (ukey u) (block u) gs); auto using in_eq.
    + rewrite IH; auto using in_cons.
      * now rewrite <- app_assoc.
      * apply Forall_app; split.
        -- eapply Forall_impl; [|exact Hgs].
           intros g Hg. now inversion Hg.
        -- constructor; [|constructor]. exact Hu.
    + eapply Forall_impl; [|exact Hgs].
      intros g Hg. now inversion Hg.
Qed.

Lemma group_by_blocks {U : Type} (ukey : U -> K) (block : U -> list R) (us : list U) :
  (forall u, In u us -> block u <> []) ->
  (forall u, In u us -> Forall (fun r => key r = ukey u) (block u)) ->
  ForallOrdPairs (fun u v => eqb (ukey u) (ukey v) = false) us ->
  group_by eqb key (flat_map block us) = map (fun u => (ukey u, block u)) us.
Proof.
  intros Hne Hkey Hpairs. unfold group_by.
  exact (fold_add_blocks ukey block us Hne Hkey Hpairs [] (Forall_nil _)).
Qed.
End GroupBy.

Section GroupByAny.
Context {K R : Type} (eqb : K -> K -> bool) (key : R -> K).



End GroupByAny.

(** ** The store and the join *)

Lemma distinct_NoDup (l : list Z) : distinct l = true -> NoDup l.
Proof.
  induction l as [|x l IH]; simpl; intros H; constructor;
    apply andb_true_iff in H; destruct H as [Hx Hl]; auto.
  intros Hin. apply negb_true_iff in Hx.
  assert (existsb (Z.eqb x) l = true) as E
      by (apply existsb_exists; exists x; split; [assumption | apply Z.eqb_refl]).
  congruence.
Qed.

Lemma store_ok_users (db : Store) : store_ok db = true -> NoDup (map u_id (users db)).
Proof.
  unfold store_ok. rewrite !andb_true_iff. intros H. apply distinct_NoDup. tauto.
Qed.

Lemma store_ok_orders (db : Store) : store_ok db = true -> NoDup (map o_order_id (orders db)).
Proof.
  unfold store_ok. rewrite !andb_true_iff. intros H. apply distinct_NoDup. tauto.
Qed.

Lemma store_ok_user_id (db : Store) (u : User) :
  store_ok db = true -> In u (users db) -> fits_int64 (u_id u) = true.
Proof.
  unfold store_ok. rewrite !andb_true_iff. intros H Hin.
  destruct H as [[[[[[_ H] _] _] _] _] _].
  rewrite forallb_forall in H. now apply H.
Qed.

Lemma store_ok_orders_length (db : Store) :
  store_ok db = true -> Z.of_nat (List.length (orders db)) <= SQLITE_INT_MAX.
Proof.
  unfold store_ok. rewrite !andb_true_iff. intros H. apply Z.leb_le. tauto.
Qed.

Lemma store_ok_users_length (db : Store) :
  store_ok db = true -> Z.of_nat (List.length (users db)) <= SQLITE_INT_MAX.
Proof.
  unfold store_ok. rewrite !andb_true_iff. intros H. apply Z.leb_le. tauto.
Qed.

Lemma left_join_blocks (us : list User) (os : list Order) :
  left_join us os = flat_map (join_block os) us.
Proof. reflexivity. Qed.

Lemma join_block_not_nil (os : list Order) (u : User) : join_block os u <> [].
Proof. unfold join_block. destruct (filter (on_user u) os); discriminate. Qed.

Lemma join_block_user (os : list Order) (u : User) :
  Forall (fun r => fst r = u) (join_block os u).
Proof.
  unfold join_block. destruct (filter (on_user u) os) as [|o l].
  - repeat constructor.
  - apply Forall_forall. intros r Hr. apply in_map_iff in Hr.
    destruct Hr as (o' & <- & _). reflexivity.
Qed.

Lemma join_block_count (os : list Order) (u : User) :
  sql_count joined_order_id (join_block os u)
  = Z.of_nat (List.length (filter (on_user u) os)).
Proof.
  unfold join_block, sql_count. destruct (filter (on_user u) os) as [|o l].
  - reflexivity.
  - f_equal. generalize (o :: l). intros m.
    induction m as [|x m IH]; simpl; auto.
Qed.

Lemma join_block_filter (w : User -> bool) (os : list Order) (u : User) :
  filter (fun r => w (fst r)) (join_block os u)
  = if w u then join_block os u else [].
Proof.
  pose proof (join_block_user os u) as H.
  induction H as [|r l Hr _ IH]; simpl.
  - now destruct (w u).
  - rewrite Hr, IH. now destruct (w u).
Qed.

Lemma left_join_filter (w : User -> bool) (us : list User) (os : list Order) :
  filter (fun r => w (fst r)) (left_join us os) = left_join (filter w us) os.
Proof.
  rewrite !left_join_blocks.
  induction us as [|u us IH]; simpl; [reflexivity|].
  rewrite filter_app, IH, join_block_filter.
  now destruct (w u).
Qed.


(** ** Grouping the users of a store *)

Lemma option_eqb_refl {A : Type} (eqb : A -> A -> bool) (x : option A) :
  (forall a, eqb a a = true) -> option_eqb eqb x x = true.
Proof. intros H. destruct x; simpl; auto. Qed.

Lemma sql_value_eqb_refl (v : sql_value) : sql_value_eqb v v = true.
Proof. destruct v; simpl; auto using Z.eqb_refl, String.eqb_refl. Qed.

Lemma sql_value_eqb_eq (a b : sql_value) : sql_value_eqb a b = true <-> a = b.
Proof.
  destruct a, b; simpl; split; intros H; try discriminate; try reflexivity.
  - apply Z.eqb_eq in H. congruence.
  - inversion H. apply Z.eqb_refl.
  - apply String.eqb_eq in H. congruence.
  - inversion H. apply String.eqb_refl.
Qed.

Lemma same_summary_columns_refl (u : User) : same_summary_columns u u = true.
Proof.
  unfold same_summary_columns.
  rewrite Z.eqb_refl, !String.eqb_refl, sql_value_eqb_refl.
  rewrite !option_eqb_refl; auto using Z.eqb_refl, String.eqb_refl.
Qed.

Lemma same_summary_columns_id (u v : User) :
  same_summary_columns u v = true -> u_id u = u_id v.
Proof.
  unfold same_summary_columns. rewrite !andb_true_iff.
  intros H. apply Z.eqb_eq. tauto.
Qed.

Lemma same_columns_refl (u : User) : same_columns u u = true.
Proof.
  unfold same_columns. rewrite same_summary_columns_refl.
  rewrite !option_eqb_refl; auto using Z.eqb_refl, String.eqb_refl.
Qed.

Lemma same_columns_id (u v : User) : same_columns u v = true -> u_id u = u_id v.
Proof.
  unfold same_columns. rewrite !andb_true_iff.
  intros H. apply same_summary_columns_id. tauto.
Qed.

(** A WHERE clause keeps a key unique. *)
Lemma filter_keeps_unique {T I : Type} (ident : T -> I) (keep : T -> bool) :
  forall rows : list T,
    NoDup (map ident rows) -> NoDup (map ident (filter keep rows)).
Proof.
  intros rows. induction rows as [|r rows IH]; cbn; intros Huniq; [constructor|].
  apply NoDup_cons_iff in Huniq. destruct Huniq as [Hfresh Hrest].
  destruct (keep r); cbn; [|now apply IH].
  apply NoDup_cons_iff. split; [|now apply IH].
  rewrite in_map_iff. intros (r' & Hsame & Hkept).
  apply filter_In in Hkept. apply Hfresh.
  rewrite <- Hsame. apply in_map. tauto.
Qed.

Lemma distinct_ids_pairs (eqb : User -> User -> bool) (us : list User) :
  (forall u v, eqb u v = true -> u_id u = u_id v) ->
  NoDup (map u_id us) ->
  ForallOrdPairs (fun u v => eqb u v = false) us.
Proof.
  intros Hid. induction us as [|u us IH]; simpl; intros H; constructor;
    inversion H as [|? ? Hu Hus]; subst; auto.
  apply Forall_forall. intros v Hv.
  destruct (eqb u v) eqn:E; [|reflexivity].
  exfalso. apply Hu. rewrite (Hid _ _ E). now apply in_map.
Qed.

(** With unique ids, the groups of the join are the users, each with its
    own rows. *)
Lemma group_by_left_join (eqb : User -> User -> bool) (us : list User) (os : list Order) :
  (forall u, eqb u u = true) ->
  (forall u v, eqb u v = true -> u_id u = u_id v) ->
  NoDup (map u_id us) ->
  group_by eqb fst (left_join us os) = map (fun u => (u, join_block os u)) us.
Proof.
  intros Hrefl Hid Hnd. rewrite left_join_blocks.
  apply (group_by_blocks eqb fst Hrefl (fun u => u) (join_block os) us).
  - intros; apply join_block_not_nil.
  - intros; apply join_block_user.
  - now apply distinct_ids_pairs.
Qed.

Lemma customers_grouped_users (db : Store) (search_param : option string) :
  NoDup (map u_id (users db)) ->
  customers_grouped db search_param
  = map (summary_of (orders db)) (filter (customers_where search_param) (users db)).
Proof.
  intros Hnd. unfold customers_grouped.
  rewrite (left_join_filter (customers_where search_param)).
  rewrite group_by_left_join;
    auto using same_summary_columns_refl, same_summary_columns_id, filter_keeps_unique.
  now rewrite map_map.
Qed.

Lemma summary_of_order_count (os : list Order) (u : User) :
  cs_order_count (summary_of os u)
  = Z.of_nat (List.length (filter (on_user u) os)).
Proof. apply join_block_count. Qed.

Lemma summary_of_id (os : list Order) (u : User) : cs_id (summary_of os u) = u_id u.
Proof. reflexivity. Qed.

(** ** Running the handlers *)

Lemma normalize_limit_range (page limit : Z) :
  let '(_, limit', _) := normalize page limit in 1 <= limit' <= 100.
Proof. unfold normalize. lia. Qed.

Lemma fits_int64_iff (z : Z) :
  fits_int64 z = true <-> SQLITE_INT_MIN <= z <= SQLITE_INT_MAX.
Proof. unfold fits_int64. rewrite andb_true_iff, !Z.leb_le. tauto. Qed.

Lemma fits_int64_limit (limit : Z) : fits_int64 (Z.min 100 (Z.max 1 limit)) = true.
Proof. apply fits_int64_iff. unfold SQLITE_INT_MIN, SQLITE_INT_MAX. lia. Qed.

Lemma fits_int64_offset (page limit : Z) :
  fits_int64 ((Z.max 1 page - 1) * Z.min 100 (Z.max 1 limit)) = true
  <-> (Z.max 1 page - 1) * Z.min 100 (Z.max 1 limit) <= SQLITE_INT_MAX.
Proof.
  rewrite fits_int64_iff. unfold SQLITE_INT_MIN. split; [tauto|].
  intros H; split; [|assumption]. nia.
Qed.

Lemma list_customers_run (db : Store) (page limit : Z) (search : string) :
  run (list_customers db page limit search)
  = let '(page', limit', offset) := normalize page limit in
    if fits_int64 offset then
      if search_too_complex db search then ([SelectCustomersSearch], inl InternalError)
      else
        ([if nonempty (strip search) then SelectCustomersSearch else SelectCustomers;
          if nonempty (strip search) then CountCustomersSearch else CountCustomers],
         inr {| cl_success := true;
                cl_data := select_customers db (search_param_of search) limit' offset;
                cl_pagination := pagination page' limit' (customers_total db search);
                cl_search := if nonempty (strip search) then Some (strip search) else None |})
    else ([], inl InternalError).
Proof.
  unfold run, list_customers, normalize, search_param_of, customers_total,
    search_too_complex.
  unfold bind, execute, ret, raise. cbn [forallb].
  rewrite fits_int64_limit, andb_true_r. cbn [andb].
  destruct (nonempty (strip search));
    destruct (fits_int64 ((Z.max 1 page - 1) * Z.min 100 (Z.max 1 limit)));
    cbn [andb]; try reflexivity.
  destruct (search_fails db _); reflexivity.
Qed.

(** What a [list_customers] answer is made of, when there is one. *)
Lemma list_customers_body (db : Store) (page limit : Z) (search : string)
    (body : CustomerList) :
  answer (list_customers db page limit search) = inr body ->
  body = {| cl_success := true;
            cl_data :=
              select_customers db (search_param_of search)
                (Z.min 100 (Z.max 1 limit))
                ((Z.max 1 page - 1) * Z.min 100 (Z.max 1 limit));
            cl_pagination :=
              pagination (Z.max 1 page) (Z.min 100 (Z.max 1 limit))
                         (customers_total db search);
            cl_search := if nonempty (strip search) then Some (strip search) else None |}.
Proof.
  unfold answer. rewrite list_customers_run. unfold normalize.
  destruct (fits_int64 _); cbn [snd]; [|discriminate].
  destruct (search_too_complex db search); cbn [snd]; [discriminate|].
  now intros [= <-].
Qed.

Lemma list_customers_page (db : Store) (page limit : Z) (search : string) :
  (Z.max 1 page - 1) * Z.min 100 (Z.max 1 limit) <= SQLITE_INT_MAX ->
  search_too_complex db search = false ->
  answer (list_customers db page limit search)
  = inr {| cl_success := true;
           cl_data :=
             select_customers db (search_param_of search)
               (Z.min 100 (Z.max 1 limit))
               ((Z.max 1 page - 1) * Z.min 100 (Z.max 1 limit));
           cl_pagination :=
             pagination (Z.max 1 page) (Z.min 100 (Z.max 1 limit))
                        (customers_total db search);
           cl_search := if nonempty (strip search) then Some (strip search) else None |}.
Proof.
  intros Hoff Hsearch. unfold answer. rewrite list_customers_run. unfold normalize.
  apply fits_int64_offset in Hoff. now rewrite Hoff, Hsearch.
Qed.

Lemma select_customer_id_some (db : Store) (customer_id : Z) :
  select_customer_id db customer_id <> None
  <-> exists u, In u (users db) /\ u_id u = customer_id.
Proof.
  unfold select_customer_id.
  destruct (filter (fun u => u_id u =? customer_id) (users db)) as [|u l] eqn:E.
  - split; [congruence|]. intros (u & Hin & Hid). exfalso.
    assert (In u []) as H; [|contradiction].
    rewrite <- E. apply filter_In. split; [assumption|]. now apply Z.eqb_eq.
  - split; [|discriminate]. intros _. exists u.
    assert (In u (u :: l)) as H by (simpl; auto).
    rewrite <- E in H. apply filter_In in H. destruct H as [H1 H2].
    split; [assumption|]. now apply Z.eqb_eq.
Qed.

Lemma customer_exists_iff (db : Store) (customer_id : Z) :
  customer_exists db customer_id <-> select_customer_id db customer_id <> None.
Proof. symmetry. apply select_customer_id_some. Qed.


Lemma get_customer_orders_run (db : Store) (customer_id page limit : Z) :
  run (get_customer_orders db customer_id page limit)
  = let '(page', limit', offset) := normalize page limit in
    if fits_int64 customer_id then
      match select_customer_id db customer_id with
      | None => ([SelectCustomerId], inl NotFound)
      | Some _ =>
          if fits_int64 offset then
            ([SelectCustomerId; SelectCustomerOrders; CountCustomerOrders],
             inr {| co_success := true;
                    co_data := select_customer_orders db customer_id limit' offset;
                    co_pagination :=
                      pagination page' limit' (customer_orders_total db customer_id) |})
          else ([SelectCustomerId], inl InternalError)
      end
    else ([], inl InternalError).
Proof.
  unfold run, get_customer_orders, normalize, customer_orders_total.
  unfold bind, execute, ret, raise. cbn [forallb].
  rewrite fits_int64_limit, !andb_true_r. cbn [andb].
  destruct (fits_int64 customer_id); [|reflexivity]. cbn [app andb].
  destruct (select_customer_id db customer_id); [|reflexivity].
  destruct (fits_int64 ((Z.max 1 page - 1) * Z.min 100 (Z.max 1 limit)));
    reflexivity.
Qed.

Lemma get_customer_orders_page (db : Store) (customer_id page limit : Z) :
  store_ok db = true ->
  customer_exists db customer_id ->
  (Z.max 1 page - 1) * Z.min 100 (Z.max 1 limit) <= SQLITE_INT_MAX ->
  answer (get_customer_orders db customer_id page limit)
  = inr {| co_success := true;
           co_data :=
             select_customer_orders db customer_id (Z.min 100 (Z.max 1 limit))
               ((Z.max 1 page - 1) * Z.min 100 (Z.max 1 limit));
           co_pagination :=
             pagination (Z.max 1 page) (Z.min 100 (Z.max 1 limit))
                        (customer_orders_total db customer_id) |}.
Proof.
  intros Hok (u & Hin & Hid) Hoff. unfold answer.
  rewrite get_customer_orders_run. unfold normalize.
  rewrite <- Hid, (store_ok_user_id db u Hok Hin), Hid.
  apply fits_int64_offset in Hoff. rewrite Hoff.
  destruct (select_customer_id db customer_id) eqn:E; [reflexivity|].
  exfalso. revert E. apply select_customer_id_some. eauto.
Qed.

(** ** Pagination metadata *)

Lemma total_pages_ceiling (total limit : Z) :
  0 < limit -> is_ceiling total limit ((total + limit - 1) / limit).
Proof.
  intros H. unfold is_ceiling.
  pose proof (Z.div_mod (total + limit - 1) limit ltac:(lia)) as E.
  pose proof (Z.mod_pos_bound (total + limit - 1) limit H) as B.
  nia.
Qed.

Lemma pagination_is_consistent (page limit total : Z) :
  0 <= total -> 1 <= limit <= 100 ->
  pagination_consistent (pagination page limit total).
Proof.
  intros Ht Hl. unfold pagination_consistent, pagination. cbn.
  repeat split; try lia.
  - apply total_pages_ceiling; lia.
  - apply total_pages_ceiling; lia.
  - intros ->. apply Z.div_small. lia.
Qed.

Lemma customers_total_nonneg (db : Store) (search : string) : 0 <= customers_total db search.
Proof.
  unfold customers_total, count_customers_search, sql_count_distinct, sql_count_star.
  destruct (nonempty (strip search)); lia.
Qed.

(** C3.  For every total that is not negative and every limit from 1 to
    100, the object [pagination] builds holds the page, the limit and the
    total it was given, [total_pages] is the ceiling of total / limit (0
    pages for a total of 0), [has_next] is [page < total_pages] and
    [has_prev] is [page > 1].  Whenever [list_customers] or
    [get_customer_orders] answers with a page, the [pagination] of the
    answer is that object for the normalized page and limit of the request
    and the total of the count statement: so its [has_prev] says whether
    the page asked for is more than 1. *)
Theorem pagination_metadata (db : Store) (customer_id page limit : Z) (search : string) :
  (forall page' limit' total,
     0 <= total -> 1 <= limit' <= 100 ->
     let p := pagination page' limit' total in
     pg_page p = page' /\ pg_limit p = limit' /\ pg_total p = total
     /\ is_ceiling total limit' (pg_total_pages p)
     /\ (total = 0 -> pg_total_pages p = 0)
     /\ pg_has_next p = (page' <? pg_total_pages p)
     /\ pg_has_prev p = (1 <? page'))
  /\ (forall body, answer (list_customers db page limit search) = inr body ->
        cl_pagination body
        = pagination (Z.max 1 page) (Z.min 100 (Z.max 1 limit)) (customers_total db search)
        /\ pg_has_prev (cl_pagination body) = (1 <? page)
        /\ pagination_consistent (cl_pagination body))
  /\ (forall body, answer (get_customer_orders db customer_id page limit) = inr body ->
        co_pagination body
        = pagination (Z.max 1 page) (Z.min 100 (Z.max 1 limit))
                     (customer_orders_total db customer_id)
        /\ pg_has_prev (co_pagination body) = (1 <? page)
        /\ pagination_consistent (co_pagination body)).
Proof.
  pose proof (normalize_limit_range page limit) as Hl. unfold normalize in Hl.
  assert ((1 <? Z.max 1 page) = (1 <? page)) as Hprev
      by (destruct (Z.ltb_spec 1 page), (Z.ltb_spec 1 (Z.max 1 page)); lia).
  split; [|split].
  - intros page' limit' total Ht Hl'.
    destruct (pagination_is_consistent page' limit' total Ht Hl')
      as (_ & _ & Hceil & Hzero & Hnext & Hprev').
    cbv zeta. repeat split; try assumption; apply Hceil.
  - intros body Hbody. apply list_customers_body in Hbody. subst body.
    cbn [cl_pagination]. split; [reflexivity|]. split; [exact Hprev|].
    apply pagination_is_consistent; [apply customers_total_nonneg | exact Hl].
  - intros body. unfold answer. rewrite get_customer_orders_run. unfold normalize.
    destruct (fits_int64 customer_id); cbn [snd]; [|discriminate].
    destruct (select_customer_id db customer_id); cbn [snd]; [|discriminate].
    destruct (fits_int64 _); cbn [snd]; [|discriminate].
    intros [= <-]. cbn [co_pagination]. split; [reflexivity|]. split; [exact Hprev|].
    apply pagination_is_consistent; [|exact Hl].
    unfold customer_orders_total, sql_count_star. lia.
Qed.

Lemma pagination_metadata_witness :
  (exists body, answer (list_customers example_store 1 2 "") = inr body
                /\ pg_total (cl_pagination body) = 4
                /\ pg_total_pages (cl_pagination body) = 2
                /\ pg_has_prev (cl_pagination body) = false)
  /\ (exists body, answer (get_customer_orders example_store 1 2 1) = inr body
                   /\ pg_page (co_pagination body) = 2
                   /\ pg_has_prev (co_pagination body) = true).
Proof.
  destruct (pagination_metadata example_store 1 1 2 "") as (_ & Hlist & _).
  destruct (pagination_metadata example_store 1 2 1 "") as (_ & _ & Horders).
  split; eexists; (split; [vm_compute; reflexivity|]).
  - match goal with
    | |- context [cl_pagination ?b] =>
        destruct (Hlist b) as (Hobject & Hprev & _); [vm_compute; reflexivity|]
    end.
    rewrite Hprev, Hobject. repeat split.
  - match goal with
    | |- context [co_pagination ?b] =>
        destruct (Horders b) as (Hobject & Hprev & _); [vm_compute; reflexivity|]
    end.
    rewrite Hprev, Hobject. repeat split.
Defined.

(** ** The window of a page *)

(** C4.  Normalization yields [page' = max(1, page)], a limit clamped into
    [1, 100] and [offset = (page' - 1) * limit'] for all integers.  When the
    offset is at most [2^63 - 1], [list_customers] (for a search whose
    pattern the LIKE function takes) and [get_customer_orders] (in a store of
    the schema, for a customer of the store) answer with the window that
    skips [offset] rows of the filtered, ordered result and keeps at most
    [limit'] of the rest.  A larger offset cannot be bound, a pattern of more
    than 50000 bytes makes the statement fail on the first user row, and the
    answer is then the internal error.  [get_customer_orders] looks the
    customer up before it binds the offset: for an id that no user has it
    answers NotFound whatever the offset, and for an id that cannot be bound
    the internal error. *)
Theorem paginated_window (db : Store) (customer_id page limit : Z) (search : string)
    (page' limit' offset : Z) :
  normalize page limit = (page', limit', offset) ->
  page' = Z.max 1 page
  /\ (1 <= limit' <= 100
      /\ (limit < 1 -> limit' = 1)
      /\ (1 <= limit <= 100 -> limit' = limit)
      /\ (100 < limit -> limit' = 100))
  /\ offset = (page' - 1) * limit'
  /\ (offset <= SQLITE_INT_MAX ->
      (search_too_complex db search = false ->
       exists body,
         answer (list_customers db page limit search) = inr body
         /\ cl_data body
            = firstn (Z.to_nat limit')
                     (skipn (Z.to_nat offset)
                            (customers_ordered db (search_param_of search)))
         /\ Z.of_nat (List.length (cl_data body)) <= limit')
      /\ (search_too_complex db search = true ->
          answer (list_customers db page limit search) = inl InternalError)
      /\ (store_ok db = true ->
          customer_exists db customer_id ->
          exists body,
            answer (get_customer_orders db customer_id page limit) = inr body
            /\ co_data body
               = map order_full
                     (firstn (Z.to_nat limit')
                             (skipn (Z.to_nat offset) (orders_ordered db customer_id)))
            /\ Z.of_nat (List.length (co_data body)) <= limit'))
  /\ (SQLITE_INT_MAX < offset ->
      answer (list_customers db page limit search) = inl InternalError
      /\ (store_ok db = true ->
          customer_exists db customer_id ->
          answer (get_customer_orders db customer_id page limit) = inl InternalError))
  /\ (fits_int64 customer_id = true ->
      ~ customer_exists db customer_id ->
      answer (get_customer_orders db customer_id page limit) = inl NotFound)
  /\ (fits_int64 customer_id = false ->
      answer (get_customer_orders db customer_id page limit) = inl InternalError).
Proof.
  intros Hn. unfold normalize in Hn. injection Hn as <- <- <-.
  split; [reflexivity|]. split; [lia|]. split; [reflexivity|].
  split; [|split; [|split]];
    [| |intros Hfit Hnone; unfold answer; rewrite get_customer_orders_run;
        unfold normalize; rewrite Hfit;
        destruct (select_customer_id db customer_id) eqn:E'; [|reflexivity];
        exfalso; apply Hnone, customer_exists_iff; congruence
     |intros Hfit; unfold answer; rewrite get_customer_orders_run;
        unfold normalize; now rewrite Hfit].
  - intros Hoff. split; [|split].
    + intros Hsearch. rewrite list_customers_page by assumption.
      eexists. split; [reflexivity|]. cbn [cl_data]. unfold select_customers.
      split; [apply sql_limit_offset_window | apply sql_limit_offset_length]; lia.
    + intros Hsearch. unfold answer. rewrite list_customers_run. unfold normalize.
      apply fits_int64_offset in Hoff. now rewrite Hoff, Hsearch.
    + intros Hok Hex. rewrite get_customer_orders_page by assumption.
      eexists. split; [reflexivity|]. cbn [co_data].
      unfold select_customer_orders. rewrite length_map.
      split; [f_equal; apply sql_limit_offset_window
             | apply sql_limit_offset_length]; lia.
  - intros Hoff.
    assert (fits_int64 ((Z.max 1 page - 1) * Z.min 100 (Z.max 1 limit)) = false) as E.
    { apply not_true_is_false. intros E. apply fits_int64_offset in E. lia. }
    unfold answer. rewrite list_customers_run, get_customer_orders_run.
    unfold normalize. rewrite E. split; [reflexivity|].
    intros Hok (u & Hin & Hid).
    rewrite <- Hid, (store_ok_user_id db u Hok Hin), Hid.
    destruct (select_customer_id db customer_id) eqn:E'; [reflexivity|].
    exfalso. revert E'. apply select_customer_id_some. eauto.
Qed.

Lemma paginated_window_witness :
  (exists body,
      answer (list_customers example_store 2 1 "") = inr body
      /\ map cs_id (cl_data body) = [1])
  /\ (exists body,
         answer (get_customer_orders example_store 1 2 1) = inr body
         /\ map of_order_id (co_data body) = [10]).
Proof.
  destruct (paginated_window example_store 1 2 1 "" 2 1 1 eq_refl)
    as (_ & _ & _ & Hfits & _ & _ & _).
  destruct Hfits as (Hlist & _ & Horders); [vm_compute; discriminate|].
  split.
  - destruct (Hlist eq_refl) as (body & Hbody & Hdata & _).
    exists body. split; [exact Hbody|]. rewrite Hdata. vm_compute. reflexivity.
  - destruct Horders as (body & Hbody & Hdata & _).
    + vm_compute. reflexivity.
    + apply customer_exists_iff; discriminate.
    + exists body. split; [exact Hbody|]. rewrite Hdata. vm_compute. reflexivity.
Defined.

(** C4, as stated: page [2^64] is an integer, yet no window comes back for
    it; the offset [(2^64 - 1) * 10] does not fit an SQLite INTEGER and the
    handler answers with the internal error.  So does [list_customers] on
    page 1 for a search of 49999 characters.  And for customer 77, whom the
    store does not have, [get_customer_orders] answers NotFound on page 1:
    no window either. *)
Lemma window_is_not_always_returned :
  answer (list_customers example_store (2 ^ 64) 10 "") = inl InternalError
  /\ answer (get_customer_orders example_store 1 (2 ^ 64) 10) = inl InternalError
  /\ ~ (exists body, answer (list_customers example_store (2 ^ 64) 10 "") = inr body)
  /\ answer (list_customers example_store 1 10 long_search) = inl InternalError
  /\ answer (get_customer_orders example_store 77 1 10) = inl NotFound
  /\ answer (get_customer_orders example_store 77 (2 ^ 64) 10) = inl NotFound.
Proof.
  split; [vm_compute; reflexivity|]. split; [vm_compute; reflexivity|].
  split; [|repeat split; vm_compute; reflexivity].
  intros (body & H). vm_compute in H. discriminate.
Qed.

(** ** Customers that do not exist *)


Lemma filter_nil_iff {A : Type} (p : A -> bool) (l : list A) :
  filter p l = [] <-> forall x, In x l -> p x = false.
Proof.
  induction l as [|x l IH]; simpl.
  - split; [intros _ y [] | reflexivity].
  - destruct (p x) eqn:E.
    + split; [discriminate|]. intros H. specialize (H x (or_introl eq_refl)). congruence.
    + rewrite IH. split; intros H; [intros y [<-|Hy]|]; auto.
Qed.






(** ** Pages past the last one *)

Lemma customers_where_search_param (search : string) (u : User) :
  customers_where (search_param_of search) u
  = if nonempty (strip search)
    then search_filter ("%" ++ strip search ++ "%")%string u
    else true.
Proof. unfold search_param_of. now destruct (nonempty (strip search)). Qed.

Lemma filter_true {A : Type} (l : list A) : filter (fun _ => true) l = l.
Proof. induction l as [|x l IH]; simpl; congruence. Qed.

(** With unique ids the count statement counts the rows of the list
    query. *)
Lemma customers_ordered_length (db : Store) (search : string) :
  NoDup (map u_id (users db)) ->
  Z.of_nat (List.length (customers_ordered db (search_param_of search)))
  = customers_total db search.
Proof.
  intros Hnd. unfold customers_ordered.
  rewrite order_by_desc_length, customers_grouped_users, length_map by assumption.
  unfold customers_total, search_param_of.
  destruct (nonempty (strip search)); cbn [customers_where].
  - unfold count_customers_search, sql_count_distinct.
    rewrite nodup_fixed_point by now apply filter_keeps_unique.
    now rewrite length_map.
  - now rewrite filter_true.
Qed.

Lemma orders_ordered_length (db : Store) (customer_id : Z) :
  Z.of_nat (List.length (orders_ordered db customer_id))
  = customer_orders_total db customer_id.
Proof.
  unfold orders_ordered, customer_orders_total, sql_count_star.
  now rewrite order_by_desc_length.
Qed.





(** ** The order of the rows *)

Lemma ascii_compare_N (a b : ascii) :
  Ascii.compare a b = N.compare (N_of_ascii a) (N_of_ascii b).
Proof. reflexivity. Qed.

Lemma ascii_compare_Eq (a b : ascii) : Ascii.compare a b = Eq -> a = b.
Proof.
  rewrite ascii_compare_N. intros H. apply N.compare_eq in H.
  rewrite <- (ascii_N_embedding a), <- (ascii_N_embedding b). now f_equal.
Qed.

Lemma string_leb_refl (s : string) : String.leb s s = true.
Proof.
  unfold String.leb. induction s as [|c s IH]; simpl; [reflexivity|].
  rewrite ascii_compare_N, N.compare_refl. exact IH.
Qed.

Lemma string_leb_trans (s t v : string) :
  String.leb s t = true -> String.leb t v = true -> String.leb s v = true.
Proof.
  unfold String.leb. revert t v.
  induction s as [|a s IH]; intros [|b t] [|c v]; simpl; try reflexivity;
    try discriminate.
  rewrite !ascii_compare_N.
  destruct (N.compare_spec (N_of_ascii a) (N_of_ascii b)) as [E1|L1|G1];
    try discriminate;
    destruct (N.compare_spec (N_of_ascii b) (N_of_ascii c)) as [E2|L2|G2];
    try discriminate; intros H1 H2.
  - rewrite E1, E2, N.compare_refl. now apply (IH t v).
  - rewrite E1. apply N.compare_lt_iff in L2. now rewrite L2.
  - rewrite <- E2. apply N.compare_lt_iff in L1. now rewrite L1.
  - assert (N_of_ascii a < N_of_ascii c)%N as L by lia.
    apply N.compare_lt_iff in L. now rewrite L.
Qed.

Lemma sql_leb_total (a b : sql_value) : sql_leb a b = true \/ sql_leb b a = true.
Proof.
  destruct a, b; simpl; auto.
  - rewrite !Z.leb_le. lia.
  - apply String.leb_total.
Qed.

Lemma sql_leb_trans (a b c : sql_value) :
  sql_leb a b = true -> sql_leb b c = true -> sql_leb a c = true.
Proof.
  destruct a, b, c; simpl; try reflexivity; try discriminate.
  - rewrite !Z.leb_le. lia.
  - apply string_leb_trans.
Qed.

Lemma sql_leb_refl (a : sql_value) : sql_leb a a = true.
Proof. destruct a; simpl; auto using Z.leb_refl, string_leb_refl. Qed.

Section Descending.
Context {R : Type} (key : R -> sql_value).

Lemma insert_desc_sorted (x : R) (l : list R) :
  StronglySorted (desc_by key) l ->
  StronglySorted (desc_by key) (insert_desc sql_ltb key x l).
Proof.
  induction 1 as [|y l Hl IH Hy]; simpl.
  - repeat constructor.
  - unfold sql_ltb at 1. destruct (sql_leb (key y) (key x)) eqn:E; simpl.
    + constructor; [now constructor|].
      constructor; [exact E|].
      eapply Forall_impl; [|exact Hy]. unfold desc_by. intros z Hz.
      eapply sql_leb_trans; eassumption.
    + constructor; [exact IH|].
      apply Forall_forall. intros z Hz.
      apply (Permutation_in _ (Permutation_sym (insert_desc_perm sql_ltb key x l))) in Hz.
      destruct Hz as [<-|Hz].
      * unfold desc_by. destruct (sql_leb_total (key x) (key y)); congruence.
      * rewrite Forall_forall in Hy. now apply Hy.
Qed.

Lemma order_by_desc_sorted (l : list R) :
  StronglySorted (desc_by key) (order_by_desc sql_ltb key l).
Proof.
  induction l as [|x l IH]; simpl; [constructor | now apply insert_desc_sorted].
Qed.

Lemma sorted_skipn (n : nat) (l : list R) :
  StronglySorted (desc_by key) l -> StronglySorted (desc_by key) (skipn n l).
Proof.
  revert l. induction n as [|n IH]; intros l H; [exact H|].
  destruct H; simpl; [constructor | now apply IH].
Qed.

Lemma sorted_firstn (n : nat) (l : list R) :
  StronglySorted (desc_by key) l -> StronglySorted (desc_by key) (firstn n l).
Proof.
  revert l. induction n as [|n IH]; intros l H; [constructor|].
  destruct H as [|x l Hl Hx]; simpl; constructor; [now apply IH|].
  apply Forall_forall. intros y Hy. rewrite Forall_forall in Hx.
  apply Hx. eapply (In_nth_error) in Hy. destruct Hy as [i Hi].
  apply nth_error_In with (n := i).
  rewrite nth_error_firstn in Hi. destruct (i <? n)%nat; [assumption|discriminate].
Qed.

Lemma sorted_window (limit offset : Z) (l : list R) :
  StronglySorted (desc_by key) l ->
  StronglySorted (desc_by key) (sql_limit_offset limit offset l).
Proof.
  intros H. unfold sql_limit_offset.
  destruct (limit <? 0); [|apply sorted_firstn]; now apply sorted_skipn.
Qed.

(** Rows with the same key keep the order they came in. *)
Lemma order_by_desc_ties (v : sql_value) (l : list R) :
  filter (fun r => sql_value_eqb (key r) v) (order_by_desc sql_ltb key l)
  = filter (fun r => sql_value_eqb (key r) v) l.
Proof.
  apply order_by_desc_stable. intros x y Hx Hy.
  apply sql_value_eqb_eq in Hx, Hy. rewrite Hx, Hy.
  unfold sql_ltb. now rewrite sql_leb_refl.
Qed.
End Descending.

(** ** Walking the pages of a customer's orders *)

Lemma customer_orders_total_bound (db : Store) (customer_id : Z) :
  store_ok db = true ->
  0 <= customer_orders_total db customer_id <= SQLITE_INT_MAX.
Proof.
  intros Hok. pose proof (store_ok_orders_length db Hok).
  pose proof (filter_length_le (of_user customer_id) (orders db)).
  unfold customer_orders_total, sql_count_star. lia.
Qed.

Lemma all_order_pages_from (db : Store) (customer_id : Z) :
  store_ok db = true ->
  customer_exists db customer_id ->
  forall (fuel : nat) (page : Z),
    1 <= page ->
    (page - 1) * 100 <= customer_orders_total db customer_id ->
    (Z.to_nat ((customer_orders_total db customer_id + 100 - 1) / 100 - page) < fuel)%nat ->
    all_order_pages fuel db customer_id page
    = Some (map order_full
                (skipn (Z.to_nat ((page - 1) * 100)) (orders_ordered db customer_id))).
Proof.
  intros Hok Hex.
  pose proof (customer_orders_total_bound db customer_id Hok) as Hn.
  pose proof (orders_ordered_length db customer_id) as Hlen.
  pose proof (total_pages_ceiling (customer_orders_total db customer_id) 100 ltac:(lia))
    as [Hlow Hup].
  set (n := customer_orders_total db customer_id) in *.
  set (rows := orders_ordered db customer_id) in *.
  induction fuel as [|fuel IH]; intros page Hp Hoff Hfuel; [lia|].
  cbn [all_order_pages].
  rewrite get_customer_orders_page; try assumption;
    [|replace (Z.max 1 page) with page by lia; change (Z.min 100 (Z.max 1 100)) with 100; lia].
  replace (Z.max 1 page) with page by lia.
  change (Z.min 100 (Z.max 1 100)) with 100.
  unfold pagination. cbn [co_pagination co_data pg_has_next].
  fold n. unfold select_customer_orders. fold rows.
  rewrite sql_limit_offset_window by lia.
  destruct (page <? (n + 100 - 1) / 100) eqn:Enext.
  - apply Z.ltb_lt in Enext.
    rewrite IH by lia. cbn [option_map]. f_equal.
    rewrite <- map_app. f_equal.
    replace (Z.to_nat ((page + 1 - 1) * 100))
      with (Z.to_nat 100 + Z.to_nat ((page - 1) * 100))%nat by lia.
    rewrite <- skipn_skipn. apply firstn_skipn.
  - apply Z.ltb_ge in Enext. f_equal. f_equal.
    apply firstn_all2. rewrite length_skipn. lia.
Qed.

Lemma order_full_sorted (l : list Order) :
  StronglySorted (desc_by o_created_at) l ->
  StronglySorted (desc_by of_created_at) (map order_full l).
Proof.
  induction 1 as [|o l Hl IH Ho]; simpl; constructor; [exact IH|].
  apply Forall_map. exact Ho.
Qed.

(** C8.  In a store of the schema, for a customer of the store, the walk
    from page 1 with limit 100 ends (any number of requests above the
    number of pages is enough) and the pages put together are the
    customer's orders as [ORDER BY created_at DESC] lists them without
    LIMIT: a permutation of the customer's order rows, none twice, none
    missing, latest first. *)
Theorem all_pages_are_all_orders (db : Store) (customer_id : Z) :
  store_ok db = true ->
  customer_exists db customer_id ->
  exists fuel : nat,
    forall fuel' : nat, (fuel <= fuel')%nat ->
      exists pages : list OrderFull,
        all_order_pages fuel' db customer_id 1 = Some pages
        /\ pages = map order_full (orders_ordered db customer_id)
        /\ Permutation pages (map order_full (filter (of_user customer_id) (orders db)))
        /\ NoDup pages
        /\ StronglySorted (desc_by of_created_at) pages.
Proof.
  intros Hok Hex.
  exists (S (Z.to_nat ((customer_orders_total db customer_id + 100 - 1) / 100 - 1))).
  intros fuel' Hfuel.
  pose proof (customer_orders_total_bound db customer_id Hok) as Hn.
  eexists. split; [|split; [reflexivity|]].
  - rewrite (all_order_pages_from db customer_id Hok Hex fuel' 1) by lia.
    reflexivity.
  - assert (Permutation (orders_ordered db customer_id)
                        (filter (of_user customer_id) (orders db))) as Hperm
        by (symmetry; apply order_by_desc_perm).
    split; [now apply Permutation_map|]. split.
    + apply (NoDup_map_inv of_order_id). rewrite map_map. cbn [order_full of_order_id].
      apply (Permutation_NoDup (l := map o_order_id (filter (of_user customer_id) (orders db)))).
      * apply Permutation_map. now symmetry.
      * apply filter_keeps_unique. now apply store_ok_orders.
    + apply order_full_sorted, order_by_desc_sorted.
Qed.

Lemma all_pages_are_all_orders_witness :
  exists (fuel : nat) (pages : list OrderFull),
    all_order_pages fuel example_store 1 1 = Some pages
    /\ map of_order_id pages = [11; 10].
Proof.
  destruct (all_pages_are_all_orders example_store 1 eq_refl) as (fuel & Hwalk).
  - apply customer_exists_iff; discriminate.
  - destruct (Hwalk fuel (le_n fuel)) as (pages & Hpages & Hall & _).
    exists fuel, pages. split; [exact Hpages|].
    rewrite Hall. vm_compute. reflexivity.
Defined.

(** ** The order of the customer list *)

Lemma filter_map_comm {A B : Type} (f : A -> B) (p : B -> bool) (l : list A) :
  filter p (map f l) = map f (filter (fun x => p (f x)) l).
Proof.
  induction l as [|x l IH]; simpl; [reflexivity|].
  rewrite IH. now destruct (p (f x)).
Qed.

Lemma filter_filter_and {A : Type} (p q : A -> bool) (l : list A) :
  filter p (filter q l) = filter (fun x => q x && p x) l.
Proof.
  induction l as [|x l IH]; simpl; [reflexivity|].
  destruct (q x); simpl; rewrite IH; reflexivity.
Qed.

(** The engine sorts without a second key and leaves rows of one key in
    the order in which they reach the sort: for a table walked by rowid that
    is the order of the ids. *)
Lemma ascending_lt (l : list Z) : ascending l = true -> StronglySorted Z.lt l.
Proof.
  induction l as [|x l IH]; [constructor|].
  cbn [ascending]. destruct l as [|y l]; [repeat constructor|].
  intros H. apply andb_true_iff in H. destruct H as [Hxy Hl].
  apply Z.ltb_lt in Hxy. specialize (IH Hl).
  constructor; [assumption|].
  constructor; [assumption|].
  inversion IH as [|? ? _ Hy]; subst.
  eapply Forall_impl; [|exact Hy]. cbv beta. intros; lia.
Qed.

Lemma sorted_of_map {A : Type} (f : A -> Z) (l : list A) :
  StronglySorted Z.lt (map f l) -> StronglySorted (fun a b => f a < f b) l.
Proof.
  induction l as [|x l IH]; cbn [map]; intros H; [constructor|].
  inversion H as [|? ? Hl Hx]; subst. constructor; [now apply IH|].
  rewrite Forall_map in Hx. exact Hx.
Qed.

Lemma summaries_ascending (os : list Order) (keep : User -> bool) (us : list User) :
  StronglySorted (fun u v => u_id u < u_id v) us ->
  StronglySorted (fun a b => cs_id a < cs_id b) (map (summary_of os) (filter keep us)).
Proof.
  induction 1 as [|u us Hus IH Hu]; cbn [filter map]; [constructor|].
  destruct (keep u); cbn [map]; [|assumption].
  constructor; [assumption|].
  apply Forall_forall. intros r Hr. apply in_map_iff in Hr.
  destruct Hr as (v & <- & Hv). apply filter_In in Hv. destruct Hv as [Hv _].
  rewrite Forall_forall in Hu. rewrite !summary_of_id. now apply Hu.
Qed.

Section DescendingThenId.
Context {R : Type} (key : R -> sql_value) (ident : R -> Z).

Lemma insert_desc_then_id (x : R) (l : list R) :
  Forall (fun y => ident x < ident y) l ->
  StronglySorted (desc_then_id key ident) l ->
  StronglySorted (desc_then_id key ident) (insert_desc sql_ltb key x l).
Proof.
  intros Hx Hl. induction Hl as [|y l Hl IH Hy]; cbn [insert_desc].
  - repeat constructor.
  - inversion Hx as [|? ? Hxy Hxl]; subst.
    destruct (sql_ltb (key x) (key y)) eqn:E.
    + unfold sql_ltb in E. apply negb_true_iff in E.
      constructor; [now apply IH|].
      apply Forall_forall. intros z Hz.
      apply (Permutation_in _ (Permutation_sym (insert_desc_perm sql_ltb key x l))) in Hz.
      destruct Hz as [<-|Hz]; [|rewrite Forall_forall in Hy; now apply Hy].
      split; [|congruence].
      destruct (sql_leb_total (key x) (key y)) as [H|H]; congruence.
    + unfold sql_ltb in E. apply negb_false_iff in E.
      constructor; [now constructor|].
      constructor; [split; [assumption | intros _; assumption]|].
      apply Forall_forall. intros z Hz.
      rewrite Forall_forall in Hy, Hxl. split; [|intros _; now apply Hxl].
      destruct (Hy z Hz) as [Hzy _]. exact (sql_leb_trans _ _ _ Hzy E).
Qed.

Lemma order_by_desc_then_id (l : list R) :
  StronglySorted (fun a b => ident a < ident b) l ->
  StronglySorted (desc_then_id key ident) (order_by_desc sql_ltb key l).
Proof.
  induction 1 as [|x l Hl IH Hx]; cbn [order_by_desc fold_right]; [constructor|].
  apply insert_desc_then_id; [|exact IH].
  eapply Permutation_Forall; [apply order_by_desc_perm | exact Hx].
Qed.

Lemma desc_then_id_skipn (n : nat) (l : list R) :
  StronglySorted (desc_then_id key ident) l ->
  StronglySorted (desc_then_id key ident) (skipn n l).
Proof.
  revert l. induction n as [|n IH]; intros l H; [exact H|].
  destruct H; cbn [skipn]; [constructor | now apply IH].
Qed.

Lemma desc_then_id_firstn (n : nat) (l : list R) :
  StronglySorted (desc_then_id key ident) l ->
  StronglySorted (desc_then_id key ident) (firstn n l).
Proof.
  revert l. induction n as [|n IH]; intros l H; [constructor|].
  destruct H as [|x l Hl Hx]; cbn [firstn]; constructor; [now apply IH|].
  apply Forall_forall. intros y Hy. rewrite Forall_forall in Hx. apply Hx.
  rewrite <- (firstn_skipn n l). apply in_or_app. now left.
Qed.

Lemma desc_then_id_window (limit offset : Z) (l : list R) :
  StronglySorted (desc_then_id key ident) l ->
  StronglySorted (desc_then_id key ident) (sql_limit_offset limit offset l).
Proof.
  intros H. unfold sql_limit_offset.
  destruct (limit <? 0); [|apply desc_then_id_firstn]; now apply desc_then_id_skipn.
Qed.
End DescendingThenId.

Lemma customers_ordered_then_id (db : Store) (search_param : option string) :
  store_ok db = true ->
  rowid_order db = true ->
  StronglySorted (desc_then_id cs_created_at cs_id) (customers_ordered db search_param).
Proof.
  intros Hok Hrow. unfold customers_ordered.
  rewrite customers_grouped_users by now apply store_ok_users.
  apply order_by_desc_then_id, summaries_ascending, sorted_of_map, ascending_lt.
  unfold rowid_order in Hrow. apply andb_true_iff in Hrow. tauto.
Qed.

(** C5.  The rows of a [list_customers] answer are in descending order of
    [created_at]: of any two rows, the one that comes first has the same or
    a later [created_at].  The statement names no second key, yet in a store
    of the schema, which the engine holds by rowid, two rows of one
    [created_at] come in the order of their ids, the smaller first: the
    scan meets the users by id and the sort keeps rows of one key as they
    come.  The same holds of the whole result of which a page is the
    window, so the pages of one request do not disagree. *)
Theorem customers_by_created_at_desc (db : Store) (page limit : Z) (search : string)
    (body : CustomerList) :
  store_ok db = true ->
  rowid_order db = true ->
  answer (list_customers db page limit search) = inr body ->
  StronglySorted (desc_by cs_created_at) (cl_data body)
  /\ StronglySorted (desc_then_id cs_created_at cs_id) (cl_data body)
  /\ cl_data body
     = sql_limit_offset (Z.min 100 (Z.max 1 limit))
         ((Z.max 1 page - 1) * Z.min 100 (Z.max 1 limit))
         (customers_ordered db (search_param_of search))
  /\ StronglySorted (desc_then_id cs_created_at cs_id)
                    (customers_ordered db (search_param_of search)).
Proof.
  intros Hok Hrow Hbody.
  pose proof (customers_ordered_then_id db (search_param_of search) Hok Hrow) as Hsorted.
  rewrite (list_customers_body _ _ _ _ _ Hbody).
  cbn [cl_data]. unfold select_customers.
  split; [|split; [|split]].
  - unfold customers_ordered. apply sorted_window, order_by_desc_sorted.
  - now apply desc_then_id_window.
  - reflexivity.
  - exact Hsorted.
Qed.

Lemma customers_by_created_at_desc_witness :
  exists body,
    answer (list_customers example_store 1 10 "") = inr body
    /\ map cs_id (cl_data body) = [4; 1; 2; 3]
    /\ StronglySorted (desc_then_id cs_created_at cs_id) (cl_data body).
Proof.
  eexists. split; [vm_compute; reflexivity|]. split; [vm_compute; reflexivity|].
  match goal with
  | |- StronglySorted _ (cl_data ?b) =>
      destruct (customers_by_created_at_desc example_store 1 10 "" b eq_refl eq_refl)
        as (_ & Hties & _); [vm_compute; reflexivity | exact Hties]
  end.
Defined.

(** ** The search filter *)

Lemma like_match_percent (pat s : string) :
  like_match (String "%"%char pat) s
  = like_match pat s
    || match s with
       | EmptyString => false
       | String _ s' => like_match (String "%"%char pat) s'
       end.
Proof. destruct s; reflexivity. Qed.

Lemma like_match_literal (p : ascii) (pat s : string) :
  is_meta p = false ->
  like_match (String p pat) s
  = match s with
    | EmptyString => false
    | String c s' => eq_nocase p c && like_match pat s'
    end.
Proof.
  unfold is_meta. intros H. apply orb_false_iff in H. destruct H as [H1 H2].
  cbn [like_match]. rewrite H1, H2. reflexivity.
Qed.

Lemma like_match_any (s : string) : like_match "%" s = true.
Proof.
  induction s as [|c s IH]; [reflexivity|].
  rewrite like_match_percent. rewrite IH. apply orb_true_r.
Qed.

(** Without metacharacters, [t%] matches the texts that begin with [t]
    up to ASCII case ... *)
Lemma like_match_prefix (t s : string) :
  has_meta t = false ->
  like_match (t ++ "%")%string s = prefix_ci t s.
Proof.
  revert s. induction t as [|a t IH]; intros s H.
  - apply like_match_any.
  - cbn [has_meta] in H. apply orb_false_iff in H. destruct H as [Ha Ht].
    cbn [String.append]. rewrite like_match_literal by assumption.
    destruct s as [|c s]; [reflexivity|]. cbn [prefix_ci]. now rewrite IH.
Qed.

(** ... and [%t%] those that contain [t] up to ASCII case. *)
Lemma like_match_contains (t s : string) :
  has_meta t = false ->
  like_match ("%" ++ t ++ "%")%string s = contains_ci t s.
Proof.
  intros H. cbn [String.append].
  induction s as [|c s IH]; rewrite like_match_percent, like_match_prefix by assumption.
  - reflexivity.
  - cbn [contains_ci]. now rewrite IH.
Qed.

Lemma c_string_no_nul (s : string) : has_nul s = false -> c_string s = s.
Proof.
  induction s as [|c s IH]; cbn; [reflexivity|].
  intros H. apply orb_false_iff in H. destruct H as [Hc Hs].
  now rewrite Hc, IH.
Qed.

Lemma has_nul_app (s t : string) : has_nul (s ++ t)%string = has_nul s || has_nul t.
Proof. induction s as [|c s IH]; cbn; [reflexivity|]. now rewrite IH, orb_assoc. Qed.

(** For a search without metacharacter and without NUL, the LIKE of the
    list statement is: the text, up to its first NUL, contains the search
    up to ASCII case. *)
Lemma sql_like_contains (t s : string) :
  has_meta t = false -> has_nul t = false ->
  sql_like ("%" ++ t ++ "%")%string s = contains_ci t (c_string s).
Proof.
  intros Hmeta Hnul. unfold sql_like.
  rewrite c_string_no_nul; [now apply like_match_contains|].
  change ("%" ++ t ++ "%")%string with (String "%"%char (t ++ "%"))%string.
  cbn [has_nul]. rewrite has_nul_app, Hnul. reflexivity.
Qed.

Lemma prefix_ci_iff (t s : string) :
  prefix_ci t s = true
  <-> exists mid post, s = (mid ++ post)%string /\ same_nocase t mid = true.
Proof.
  revert s. induction t as [|a t IH]; intros s.
  - split; [|reflexivity]. intros _. exists EmptyString, s. auto.
  - destruct s as [|b s]; cbn [prefix_ci].
    + split; [discriminate|]. intros (mid & post & E & H).
      destruct mid; [discriminate H | discriminate E].
    + rewrite andb_true_iff, IH. split.
      * intros (Hab & mid & post & -> & H). exists (String b mid), post.
        cbn. now rewrite Hab, H.
      * intros (mid & post & E & H). destruct mid as [|b' mid]; [discriminate H|].
        cbn in E, H. injection E as <- ->.
        apply andb_true_iff in H. destruct H. eauto.
Qed.

Lemma contains_ci_iff (t s : string) :
  contains_ci t s = true <-> occurs_nocase t s.
Proof.
  unfold occurs_nocase. induction s as [|c s IH]; cbn [contains_ci];
    rewrite orb_true_iff, prefix_ci_iff.
  - split.
    + intros [(mid & post & E & H)|]; [|discriminate].
      exists EmptyString, mid, post. auto.
    + intros (pre & mid & post & E & H). left.
      destruct pre; [|discriminate]. exists mid, post. auto.
  - rewrite IH. split.
    + intros [(mid & post & E & H)|(pre & mid & post & E & H)].
      * exists EmptyString, mid, post. auto.
      * exists (String c pre), mid, post. cbn. now rewrite E.
    + intros (pre & mid & post & E & H). destruct pre as [|c' pre].
      * left. exists mid, post. auto.
      * right. cbn in E. injection E as _ ->. exists pre, mid, post. auto.
Qed.

Lemma contains_ci_empty (s : string) : contains_ci "" s = true.
Proof. destruct s; reflexivity. Qed.

Lemma prefix_app (t post : string) : String.prefix t (t ++ post)%string = true.
Proof.
  induction t as [|a t IH]; cbn; [now destruct post|].
  destruct (ascii_dec a a); [exact IH | congruence].
Qed.

Lemma contains_of_substring (t s : string) : is_substring t s -> contains t s = true.
Proof.
  intros (pre & post & ->). induction pre as [|c pre IH]; cbn [String.append].
  - destruct (t ++ post)%string eqn:E; cbn [contains]; rewrite <- E, prefix_app; reflexivity.
  - cbn [contains]. rewrite IH. apply orb_true_r.
Qed.

Lemma not_substring (t s : string) : contains t s = false -> ~ is_substring t s.
Proof. intros H Hs. apply contains_of_substring in Hs. congruence. Qed.

Lemma on_user_of_user (u : User) (o : Order) : on_user u o = of_user (u_id u) o.
Proof. unfold on_user, of_user. destruct (o_user_id o); [apply Z.eqb_sym | reflexivity]. Qed.

Lemma In_sql_limit_offset {R : Type} (limit offset : Z) (rows : list R) (r : R) :
  In r (sql_limit_offset limit offset rows) -> In r rows.
Proof.
  unfold sql_limit_offset. intros H.
  rewrite <- (firstn_skipn (Z.to_nat offset) rows). apply in_or_app. right.
  destruct (limit <? 0); [assumption|].
  rewrite <- (firstn_skipn (Z.to_nat limit) (skipn (Z.to_nat offset) rows)).
  apply in_or_app. now left.
Qed.

Lemma customers_ordered_perm (db : Store) (search_param : option string) :
  NoDup (map u_id (users db)) ->
  Permutation (customers_ordered db search_param)
              (map (summary_of (orders db))
                   (filter (customers_where search_param) (users db))).
Proof.
  intros Hnd. unfold customers_ordered.
  rewrite <- customers_grouped_users by assumption.
  symmetry. apply order_by_desc_perm.
Qed.

(** C6.  In a store of the schema, every row of a [list_customers] answer,
    whatever the search, is the row of a user of the store that the filter
    keeps, and its [order_count] is the number of order rows whose [user_id]
    is the id of the row: the search decides which users are listed, never
    the count.  Before the window is cut, the result holds exactly the users
    the filter keeps.  The filter keeps every user when the trimmed search is
    empty, and else the users whose [first_name], [last_name] or [email]
    matches [LIKE '%search%']; for a search without [%], [_] and NUL that
    is: one of the three (read up to its first NUL, if it has one) contains
    the search, up to the case of ASCII letters. *)
Theorem order_count_of_listed_customers (db : Store) (page limit : Z) (search : string)
    (body : CustomerList) :
  store_ok db = true ->
  answer (list_customers db page limit search) = inr body ->
  (forall r, In r (cl_data body) ->
      cs_order_count r
      = Z.of_nat (List.length (filter (of_user (cs_id r)) (orders db)))
      /\ exists u, In u (users db) /\ r = summary_of (orders db) u
                   /\ matches_search search u = true)
  /\ Permutation (customers_ordered db (search_param_of search))
                 (map (summary_of (orders db))
                      (filter (matches_search search) (users db)))
  /\ (forall u,
         matches_search search u
         = if nonempty (strip search)
           then sql_like ("%" ++ strip search ++ "%")%string (u_first_name u)
                || sql_like ("%" ++ strip search ++ "%")%string (u_last_name u)
                || sql_like ("%" ++ strip search ++ "%")%string (u_email u)
           else true)
  /\ (has_meta (strip search) = false -> has_nul (strip search) = false ->
      forall u,
        matches_search search u
        = contains_ci (strip search) (c_string (u_first_name u))
          || contains_ci (strip search) (c_string (u_last_name u))
          || contains_ci (strip search) (c_string (u_email u))).
Proof.
  intros Hok Hbody.
  pose proof (store_ok_users db Hok) as Hnd.
  pose proof (customers_ordered_perm db (search_param_of search) Hnd) as Hperm.
  split; [|split; [exact Hperm|split]].
  - intros r Hr.
    assert (In r (customers_ordered db (search_param_of search))) as Hin.
    { rewrite (list_customers_body _ _ _ _ _ Hbody) in Hr.
      cbn [cl_data] in Hr. revert Hr. apply In_sql_limit_offset. }
    apply (Permutation_in _ Hperm) in Hin. apply in_map_iff in Hin.
    destruct Hin as (u & <- & Hu). apply filter_In in Hu. destruct Hu as [Hu Hw].
    split; [|eauto].
    rewrite summary_of_order_count, summary_of_id.
    f_equal. f_equal. apply filter_ext. intros o. apply on_user_of_user.
  - intros u. unfold matches_search. rewrite customers_where_search_param. reflexivity.
  - intros Hmeta Hnul u. unfold matches_search. rewrite customers_where_search_param.
    unfold search_filter. rewrite !sql_like_contains by assumption.
    destruct (nonempty (strip search)) eqn:E; [reflexivity|].
    destruct (strip search); [|discriminate].
    now rewrite contains_ci_empty.
Qed.

Lemma order_count_of_listed_customers_witness :
  exists body,
    answer (list_customers example_store 1 10 "ANN") = inr body
    /\ (forall r, In r (cl_data body) ->
           cs_order_count r
           = Z.of_nat (List.length (filter (of_user (cs_id r)) (orders example_store))))
    /\ map cs_id (cl_data body) = [1]
    /\ map cs_order_count (cl_data body) = [2].
Proof.
  eexists. split; [vm_compute; reflexivity|].
  match goal with
  | |- context [cl_data ?b] =>
      destruct (order_count_of_listed_customers example_store 1 10 "ANN" b eq_refl)
        as [Hcount _]; [vm_compute; reflexivity|]
  end.
  split; [|split; reflexivity].
  intros r Hr. now apply Hcount.
Defined.

(** C6, as stated: the search [b_b] lists the customer Bob Lee,
    bob@example.com, and none of the three texts contains [b_b], whatever the
    case of the letters. *)
Lemma search_lists_without_containing :
  exists body r,
    answer (list_customers example_store 1 10 "b_b") = inr body
    /\ In r (cl_data body)
    /\ cs_first_name r = "Bob" /\ cs_last_name r = "Lee"
    /\ cs_email r = "bob@example.com"
    /\ ~ occurs_nocase "b_b" (cs_first_name r)
    /\ ~ occurs_nocase "b_b" (cs_last_name r)
    /\ ~ occurs_nocase "b_b" (cs_email r).
Proof.
  eexists. eexists. split; [vm_compute; reflexivity|].
  split; [left; reflexivity|].
  repeat split; try reflexivity; rewrite <- contains_ci_iff; vm_compute; discriminate.
Qed.

(** C10.  The WHERE clause of a search tests the three texts against the
    pattern [%], the trimmed search as it is, [%].
    So the search [_nn] lists the customer Ann Roe, ann@example.com, and the
    search [b%b@] the customer Bob Lee, bob@example.com: each search holds a
    metacharacter, and none of the three texts of the customer it lists
    contains the search as it is written. *)
Theorem like_wildcards_list_beyond_substring :
  (forall search u,
      matches_search search u
      = if nonempty (strip search)
        then search_filter ("%" ++ strip search ++ "%")%string u
        else true)
  /\ (exists body r,
         has_meta (strip " _nn ") = true
         /\ answer (list_customers example_store 1 10 " _nn ") = inr body
         /\ In r (cl_data body)
         /\ cs_first_name r = "Ann" /\ cs_last_name r = "Roe"
         /\ cs_email r = "ann@example.com"
         /\ ~ is_substring (strip " _nn ") (cs_first_name r)
         /\ ~ is_substring (strip " _nn ") (cs_last_name r)
         /\ ~ is_substring (strip " _nn ") (cs_email r))
  /\ (exists body r,
         has_meta (strip "b%b@") = true
         /\ answer (list_customers example_store 1 10 "b%b@") = inr body
         /\ In r (cl_data body)
         /\ cs_first_name r = "Bob" /\ cs_last_name r = "Lee"
         /\ cs_email r = "bob@example.com"
         /\ ~ is_substring (strip "b%b@") (cs_first_name r)
         /\ ~ is_substring (strip "b%b@") (cs_last_name r)
         /\ ~ is_substring (strip "b%b@") (cs_email r)).
Proof.
  split; [intros; apply customers_where_search_param|]. split.
  - eexists. eexists. split; [reflexivity|]. split; [vm_compute; reflexivity|].
    split; [left; reflexivity|].
    repeat split; try reflexivity; apply not_substring; vm_compute; reflexivity.
  - eexists. eexists. split; [reflexivity|]. split; [vm_compute; reflexivity|].
    split; [left; reflexivity|].
    repeat split; try reflexivity; apply not_substring; vm_compute; reflexivity.
Qed.

(** ** Counting orders through the join *)

Lemma sql_count_app {R A : Type} (expr : R -> option A) (l1 l2 : list R) :
  sql_count expr (l1 ++ l2) = sql_count expr l1 + sql_count expr l2.
Proof. unfold sql_count. rewrite filter_app, length_app. lia. Qed.

Lemma filter_either_length {A : Type} (p q : A -> bool) (l : list A) :
  (forall x, In x l -> p x = true -> q x = false) ->
  List.length (filter (fun x => p x || q x) l)
  = (List.length (filter p l) + List.length (filter q l))%nat.
Proof.
  induction l as [|x l IH]; intros H; [reflexivity|].
  assert (forall y, In y l -> p y = true -> q y = false) as H'
      by (intros; apply H; simpl; auto).
  specialize (IH H'). cbn [filter].
  destruct (p x) eqn:Px; cbn [orb].
  - rewrite (H x (in_eq x l) Px). cbn [List.length]. lia.
  - destruct (q x); cbn [List.length]; lia.
Qed.

Lemma left_join_order_count (us : list User) (os : list Order) :
  NoDup (map u_id us) ->
  sql_count joined_order_id (left_join us os)
  = Z.of_nat (List.length (filter (fun o => existsb (fun u => on_user u o) us) os)).
Proof.
  rewrite left_join_blocks.
  induction us as [|u us IH]; intros Hnd; cbn [flat_map existsb].
  - unfold sql_count. cbn. induction os; simpl; auto.
  - inversion Hnd as [|? ? Hu Hus]; subst.
    rewrite sql_count_app, join_block_count, IH by assumption.
    rewrite filter_either_length; [lia|].
    intros o _ Ho. apply not_true_is_false. intros Hex.
    apply existsb_exists in Hex. destruct Hex as (v & Hv & Hvo).
    apply Hu. unfold on_user in Ho, Hvo.
    destruct (o_user_id o) as [i|]; [|discriminate].
    apply Z.eqb_eq in Ho, Hvo. rewrite Ho, <- Hvo. now apply in_map.
Qed.

(** ** A customer without orders *)

Lemma select_customer_users (db : Store) (customer_id : Z) :
  NoDup (map u_id (users db)) ->
  select_customer db customer_id
  = map (fun u => (u, sql_count joined_order_id (join_block (orders db) u),
                   sql_sum (map joined_num_of_item (join_block (orders db) u))))
        (filter (fun u => u_id u =? customer_id) (users db)).
Proof.
  intros Hnd. unfold select_customer.
  rewrite (left_join_filter (fun u => u_id u =? customer_id)).
  rewrite group_by_left_join;
    auto using same_columns_refl, same_columns_id, filter_keeps_unique.
  now rewrite map_map.
Qed.

(** C1.  In a store of the schema, for a customer of the store without an
    order row, [get_customer_details] answers with success;
    [order_statistics] has [total_orders], [total_items] and
    [avg_items_per_order] all 0, and the customer record has [order_count] 0
    and [total_items_ordered] null: the sum over the joined rows is NULL and
    the handler passes the row on as it is, while it writes [or 0] on the two
    aggregates of [order_statistics]. *)
Theorem total_items_ordered_is_null (db : Store) (customer_id : Z) :
  store_ok db = true ->
  customer_exists db customer_id ->
  filter (of_user customer_id) (orders db) = [] ->
  exists body,
    answer (get_customer_details db customer_id) = inr body
    /\ cf_order_count (cd_customer body) = 0
    /\ cf_total_items_ordered (cd_customer body) = None
    /\ st_total_orders (cd_order_statistics body) = 0
    /\ st_total_items (cd_order_statistics body) = 0
    /\ st_avg_items_per_order (cd_order_statistics body) = PyInt 0
    /\ cd_recent_orders body = [].
Proof.
  intros Hok (u & Hin & Hid) Hnone.
  pose proof (store_ok_user_id db u Hok Hin) as Hfit. rewrite Hid in Hfit.
  unfold answer, run, get_customer_details, bind, execute, ret, raise.
  cbn [forallb]. rewrite Hfit. cbn [andb app].
  rewrite select_customer_users by now apply store_ok_users.
  destruct (filter (fun u => u_id u =? customer_id) (users db)) as [|v vs] eqn:E.
  { exfalso. rewrite filter_nil_iff in E. specialize (E u Hin).
    apply Z.eqb_neq in E. contradiction. }
  assert (u_id v = customer_id) as Hv.
  { assert (In v (v :: vs)) as Hvin by (simpl; auto).
    rewrite <- E in Hvin. apply filter_In in Hvin. now apply Z.eqb_eq. }
  assert (join_block (orders db) v = [(v, None)]) as Hblock.
  { unfold join_block.
    rewrite (filter_ext (on_user v) (of_user customer_id))
      by (intros o; rewrite on_user_of_user, Hv; reflexivity).
    now rewrite Hnone. }
  cbn [map]. unfold select_recent_orders, orders_ordered.
  rewrite Hblock, Hnone. cbn.
  eexists. repeat split; reflexivity.
Qed.

Lemma total_items_ordered_is_null_witness :
  exists body,
    answer (get_customer_details example_store 2) = inr body
    /\ cf_total_items_ordered (cd_customer body) = None
    /\ st_total_items (cd_order_statistics body) = 0
    /\ st_avg_items_per_order (cd_order_statistics body) = PyInt 0.
Proof.
  destruct (total_items_ordered_is_null example_store 2 eq_refl)
    as (body & Hbody & _ & Hnull & _ & Hitems & Havg & _).
  - apply customer_exists_iff; discriminate.
  - reflexivity.
  - exists body. auto.
Defined.

(* ===================================================================== *)
(** * Further properties *)
(* ===================================================================== *)

(** ** The detail handler *)

Lemma join_block_sum (os : list Order) (u : User) :
  sql_sum (map joined_num_of_item (join_block os u))
  = sql_sum (map o_num_of_item (filter (on_user u) os)).
Proof.
  unfold join_block. destruct (filter (on_user u) os) as [|o l]; [reflexivity|].
  now rewrite map_map.
Qed.

Lemma filter_on_user (os : list Order) (u : User) :
  filter (on_user u) os = filter (of_user (u_id u)) os.
Proof. apply filter_ext. intros o. apply on_user_of_user. Qed.

(** In a store of the schema the detail statement returns the row of the
    one user of that id, with the count and the sum of that user's order
    rows. *)
Lemma select_customer_rows (db : Store) (customer_id : Z) :
  store_ok db = true ->
  select_customer db customer_id
  = map (fun u => (u,
                   sql_count_star (filter (of_user customer_id) (orders db)),
                   sql_sum (map o_num_of_item (filter (of_user customer_id) (orders db)))))
        (filter (fun u => u_id u =? customer_id) (users db)).
Proof.
  intros Hok. rewrite select_customer_users by now apply store_ok_users.
  apply map_ext_in. intros u Hu. apply filter_In in Hu. destruct Hu as [_ Hid].
  apply Z.eqb_eq in Hid.
  rewrite join_block_count, join_block_sum, filter_on_user, Hid. reflexivity.
Qed.

Lemma get_customer_details_run (db : Store) (customer_id : Z) :
  store_ok db = true ->
  run (get_customer_details db customer_id)
  = let mine := filter (of_user customer_id) (orders db) in
    if fits_int64 customer_id then
      match filter (fun u => u_id u =? customer_id) (users db) with
      | [] => ([SelectCustomer], inl NotFound)
      | u :: _ =>
          match sql_sum (map o_num_of_item mine) with
          | SumOverflow => ([SelectCustomer], inl InternalError)
          | total =>
              ([SelectCustomer; SelectRecentOrders; SelectOrderStatistics],
               inr {| cd_success := true;
                      cd_customer :=
                        {| cf_columns := u;
                           cf_order_count := sql_count_star mine;
                           cf_total_items_ordered :=
                             match total with SumInt n => Some n | _ => None end |};
                      cd_recent_orders := select_recent_orders db customer_id;
                      cd_order_statistics :=
                        {| st_total_orders := sql_count_star mine;
                           st_total_items :=
                             or_zero (match total with SumInt n => Some n | _ => None end);
                           st_avg_items_per_order :=
                             round2_or_zero (sql_avg (map o_num_of_item mine));
                           st_completed_orders :=
                             sql_count (fun o => status_is "Complete" (o_status o)) mine;
                           st_shipped_orders :=
                             sql_count (fun o => status_is "Shipped" (o_status o)) mine;
                           st_cancelled_orders :=
                             sql_count (fun o => status_is "Cancelled" (o_status o)) mine |} |})
          end
      end
    else ([], inl InternalError).
Proof.
  intros Hok. cbv zeta.
  unfold run, get_customer_details, bind, execute, ret, raise. cbn [forallb].
  destruct (fits_int64 customer_id); [|reflexivity]. cbn [andb app].
  rewrite select_customer_rows by assumption.
  destruct (filter (fun u => u_id u =? customer_id) (users db)) as [|u us];
    [reflexivity|].
  cbn [map].
  destruct (sql_sum (map o_num_of_item (filter (of_user customer_id) (orders db))));
    reflexivity.
Qed.

(** Three predicates that exclude one another count no more rows than
    there are. *)
Lemma exclusive_filters_le {R : Type} (p1 p2 p3 : R -> bool) (rows : list R) :
  (forall r, p1 r = true -> p2 r = false /\ p3 r = false) ->
  (forall r, p2 r = true -> p3 r = false) ->
  (List.length (filter p1 rows) + List.length (filter p2 rows)
   + List.length (filter p3 rows) <= List.length rows)%nat.
Proof.
  intros H1 H2. induction rows as [|r rows IH]; [cbn; lia|].
  cbn [filter]. specialize (H1 r). specialize (H2 r).
  destruct (p1 r); [destruct H1 as [-> ->]; [reflexivity|]; cbn [List.length]; lia|].
  destruct (p2 r); [rewrite H2 by reflexivity; cbn [List.length]; lia|].
  destruct (p3 r); cbn [List.length]; lia.
Qed.

Lemma status_is_exclusive (lit1 lit2 : string) (status : option string) :
  lit1 <> lit2 ->
  status_is lit1 status <> None -> status_is lit2 status = None.
Proof.
  intros Hne. destruct status as [s|]; cbn; [|congruence].
  destruct (String.eqb_spec s lit1) as [->|]; [|congruence].
  intros _. destruct (String.eqb_spec lit1 lit2); congruence.
Qed.

(** The three status counters count rows that exclude one another. *)
Lemma status_counts_le {R : Type} (status : R -> option string) (rows : list R) :
  sql_count (fun r => status_is "Complete" (status r)) rows
  + sql_count (fun r => status_is "Shipped" (status r)) rows
  + sql_count (fun r => status_is "Cancelled" (status r)) rows
  <= sql_count_star rows.
Proof.
  unfold sql_count, sql_count_star.
  pose proof (exclusive_filters_le
                (fun r => match status_is "Complete" (status r) with
                          | Some _ => true | None => false end)
                (fun r => match status_is "Shipped" (status r) with
                          | Some _ => true | None => false end)
                (fun r => match status_is "Cancelled" (status r) with
                          | Some _ => true | None => false end) rows) as H.
  cbv beta in H. 
  assert (forall lit1 lit2 r, lit1 <> lit2 ->
            match status_is lit1 (status r) with Some _ => true | None => false end = true ->
            match status_is lit2 (status r) with Some _ => true | None => false end = false)
    as Hex.
  { intros lit1 lit2 r Hne Hr.
    rewrite (status_is_exclusive lit1 lit2); [reflexivity | assumption |].
    destruct (status_is lit1 (status r)); congruence. }
  apply Nat2Z.inj_le in H.
  - rewrite !Nat2Z.inj_add in H. exact H.
  - intros r Hr. split; apply (Hex "Complete"); try assumption; discriminate.
  - intros r Hr. apply (Hex "Shipped"); [discriminate | assumption].
Qed.

Lemma filter_id_exists (db : Store) (customer_id : Z) :
  filter (fun u => u_id u =? customer_id) (users db) <> []
  <-> customer_exists db customer_id.
Proof.
  rewrite customer_exists_iff. unfold select_customer_id.
  destruct (filter (fun u => u_id u =? customer_id) (users db)); split; congruence.
Qed.

Lemma order_summary_sorted (l : list Order) :
  StronglySorted (desc_by o_created_at) l ->
  StronglySorted (desc_by os_created_at) (map order_summary l).
Proof.
  induction 1 as [|o l Hl IH Ho]; simpl; constructor; [exact IH|].
  apply Forall_map. exact Ho.
Qed.

(** X1.  In a store of the schema, the [recent_orders] of a detail answer
    are the first five of the customer's orders in descending order of
    [created_at]: they are sorted that way, each is an order row of that
    customer, and their number is the smaller of 5 and [total_orders]. *)
Theorem recent_orders_are_the_latest_five (db : Store) (customer_id : Z)
    (body : CustomerDetails) :
  store_ok db = true ->
  answer (get_customer_details db customer_id) = inr body ->
  cd_recent_orders body = map order_summary (firstn 5 (orders_ordered db customer_id))
  /\ Z.of_nat (List.length (cd_recent_orders body))
     = Z.min 5 (st_total_orders (cd_order_statistics body))
  /\ StronglySorted (desc_by os_created_at) (cd_recent_orders body)
  /\ (forall r, In r (cd_recent_orders body) ->
        exists o, In o (orders db) /\ o_user_id o = Some customer_id
                  /\ r = order_summary o).
Proof.
  intros Hok. unfold answer. rewrite get_customer_details_run by assumption. cbv zeta.
  destruct (fits_int64 customer_id); cbn [snd]; [|discriminate].
  destruct (filter (fun u => u_id u =? customer_id) (users db)) as [|u us];
    cbn [snd]; [discriminate|].
  assert (select_recent_orders db customer_id
          = map order_summary (firstn 5 (orders_ordered db customer_id))) as Hrecent.
  { unfold select_recent_orders. now rewrite sql_limit_offset_window by lia. }
  destruct (sql_sum _); cbn [snd]; try discriminate;
    intros [= <-]; cbn [cd_recent_orders cd_order_statistics st_total_orders];
    rewrite Hrecent;
    (split; [reflexivity|]; split; [|split]).
  all: try (rewrite length_map, length_firstn;
            pose proof (orders_ordered_length db customer_id) as Hlen;
            unfold customer_orders_total in Hlen; lia).
  all: try (apply order_summary_sorted, sorted_firstn, order_by_desc_sorted).
  all: intros r Hr; apply in_map_iff in Hr; destruct Hr as (o & <- & Ho);
    exists o; split; [|split; [|reflexivity]];
    assert (In o (orders_ordered db customer_id)) as Hin
      by (rewrite <- (firstn_skipn 5); apply in_or_app; now left);
    apply (Permutation_in _ (Permutation_sym (order_by_desc_perm _ _ _))) in Hin;
    apply filter_In in Hin; destruct Hin as [Hin Hof]; [assumption|];
    unfold of_user in Hof; destruct (o_user_id o); [|discriminate];
    apply Z.eqb_eq in Hof; now subst.
Qed.

Lemma recent_orders_are_the_latest_five_witness :
  exists body,
    answer (get_customer_details example_store 1) = inr body
    /\ map os_order_id (cd_recent_orders body) = [11; 10].
Proof.
  eexists. split; [vm_compute; reflexivity|].
  match goal with
  | |- context [cd_recent_orders ?b] =>
      destruct (recent_orders_are_the_latest_five example_store 1 b eq_refl)
        as [Hrecent _]; [vm_compute; reflexivity|]
  end.
  rewrite Hrecent. vm_compute. reflexivity.
Defined.

(** X2.  In a store of the schema, the two halves of a detail answer
    agree: the customer is the user of the id asked for, its [order_count]
    is the [total_orders] of [order_statistics], [total_items] is its
    [total_items_ordered] with 0 for null, and [total_items_ordered] is null
    exactly when no order row of the customer has a [num_of_item]; the
    completed, shipped and cancelled orders together are no more than
    [total_orders]. *)
Theorem detail_answer_is_consistent (db : Store) (customer_id : Z)
    (body : CustomerDetails) :
  store_ok db = true ->
  answer (get_customer_details db customer_id) = inr body ->
  In (cf_columns (cd_customer body)) (users db)
  /\ u_id (cf_columns (cd_customer body)) = customer_id
  /\ cf_order_count (cd_customer body) = st_total_orders (cd_order_statistics body)
  /\ st_total_orders (cd_order_statistics body)
     = Z.of_nat (List.length (filter (of_user customer_id) (orders db)))
  /\ st_total_items (cd_order_statistics body)
     = or_zero (cf_total_items_ordered (cd_customer body))
  /\ (cf_total_items_ordered (cd_customer body) = None
      <-> non_null (map o_num_of_item (filter (of_user customer_id) (orders db))) = [])
  /\ st_completed_orders (cd_order_statistics body)
     + st_shipped_orders (cd_order_statistics body)
     + st_cancelled_orders (cd_order_statistics body)
     <= st_total_orders (cd_order_statistics body).
Proof.
  intros Hok. unfold answer. rewrite get_customer_details_run by assumption. cbv zeta.
  destruct (fits_int64 customer_id); cbn [snd]; [|discriminate].
  destruct (filter (fun u => u_id u =? customer_id) (users db)) as [|u us] eqn:E;
    cbn [snd]; [discriminate|].
  assert (In u (users db) /\ u_id u = customer_id) as [Hin Hid].
  { assert (In u (u :: us)) as H by (simpl; auto).
    rewrite <- E in H. apply filter_In in H. now rewrite Z.eqb_eq in H. }
  pose proof (status_counts_le o_status (filter (of_user customer_id) (orders db)))
    as Hstatus.
  unfold sql_sum.
  destruct (non_null (map o_num_of_item (filter (of_user customer_id) (orders db))))
    as [|x l]; [|destruct (sum_from x l)]; cbn [snd]; try discriminate;
    intros [= <-]; cbn; repeat split; auto; try discriminate; try congruence.
Qed.

Lemma detail_answer_is_consistent_witness :
  exists body,
    answer (get_customer_details example_store 1) = inr body
    /\ cf_order_count (cd_customer body) = 2
    /\ st_total_orders (cd_order_statistics body) = 2
    /\ st_total_items (cd_order_statistics body) = 5.
Proof.
  eexists. split; [vm_compute; reflexivity|].
  match goal with
  | |- context [cd_customer ?b] =>
      destruct (detail_answer_is_consistent example_store 1 b eq_refl)
        as (_ & _ & Hcount & Htotal & Hitems & _); [vm_compute; reflexivity|]
  end.
  rewrite Hcount, Hitems, Htotal. repeat split; reflexivity.
Defined.

(** X3.  In a store of the schema, [get_customer_details] answers with the
    internal error exactly when the id does not fit an SQLite INTEGER (no
    statement is run then) or the customer exists and the sum of its
    [num_of_item] overflows 64 bits (the first statement fails then, and is
    the only one that ran); NotFound is answered after the first statement,
    which is then the only one that ran; an answer with a body has run the
    three statements in their order. *)
Theorem detail_internal_error_iff (db : Store) (customer_id : Z) :
  store_ok db = true ->
  (answer (get_customer_details db customer_id) = inl InternalError
   <-> fits_int64 customer_id = false
       \/ (customer_exists db customer_id
           /\ sql_sum (map o_num_of_item (filter (of_user customer_id) (orders db)))
              = SumOverflow))
  /\ (fits_int64 customer_id = false ->
      executed (get_customer_details db customer_id) = [])
  /\ (forall body,
         answer (get_customer_details db customer_id) = inr body ->
         executed (get_customer_details db customer_id)
         = [SelectCustomer; SelectRecentOrders; SelectOrderStatistics])
  /\ (fits_int64 customer_id = true ->
      answer (get_customer_details db customer_id) = inl InternalError ->
      executed (get_customer_details db customer_id) = [SelectCustomer])
  /\ (answer (get_customer_details db customer_id) = inl NotFound ->
      executed (get_customer_details db customer_id) = [SelectCustomer]).
Proof.
  intros Hok. unfold answer, executed.
  rewrite get_customer_details_run by assumption. cbv zeta.
  pose proof (filter_id_exists db customer_id) as Hex.
  destruct (fits_int64 customer_id); cbn [fst snd].
  - destruct (filter (fun u => u_id u =? customer_id) (users db)) as [|u us];
      cbn [fst snd].
    + split; [|repeat split; try discriminate; reflexivity].
      split; [discriminate|]. intros [H|[H _]]; [discriminate|].
      apply Hex in H. congruence.
    + assert (customer_exists db customer_id) as Hu by (apply Hex; discriminate).
      destruct (sql_sum _); cbn [fst snd];
        (split; [|repeat split; try discriminate; try reflexivity]);
        try (split; [discriminate | intros [H|[_ H]]; discriminate]).
      split; auto.
  - split; [|repeat split; try discriminate; reflexivity].
    split; auto.
Qed.

Lemma detail_internal_error_iff_witness :
  answer (get_customer_details example_store (2 ^ 70)) = inl InternalError
  /\ executed (get_customer_details example_store (2 ^ 70)) = []
  /\ answer (get_customer_details heavy_store 1) = inl InternalError
  /\ executed (get_customer_details heavy_store 1) = [SelectCustomer]
  /\ executed (get_customer_details example_store 77) = [SelectCustomer].
Proof.
  destruct (detail_internal_error_iff example_store (2 ^ 70) eq_refl) as (Herr & Hlog & _).
  destruct (detail_internal_error_iff heavy_store 1 eq_refl)
    as (Hheavy & _ & _ & Hfirst & _).
  destruct (detail_internal_error_iff example_store 77 eq_refl)
    as (_ & _ & _ & _ & Hmissing).
  assert (answer (get_customer_details heavy_store 1) = inl InternalError) as Hfails.
  { apply Hheavy. right. split; [|reflexivity].
    apply customer_exists_iff. discriminate. }
  split; [apply Herr; left; reflexivity|].
  split; [apply Hlog; reflexivity|].
  split; [exact Hfails|].
  split; [apply Hfirst; [reflexivity | exact Hfails] | apply Hmissing; reflexivity].
Defined.

(** ** The size of a page and what [has_next] says *)

Lemma sql_limit_offset_size {R : Type} (limit offset : Z) (rows : list R) :
  0 <= limit -> 0 <= offset ->
  Z.of_nat (List.length (sql_limit_offset limit offset rows))
  = Z.min limit (Z.max 0 (Z.of_nat (List.length rows) - offset)).
Proof.
  intros Hl Ho. rewrite sql_limit_offset_window by assumption.
  rewrite length_firstn, length_skipn. lia.
Qed.

Lemma list_customers_succeeds_iff (db : Store) (page limit : Z) (search : string) :
  (exists body, answer (list_customers db page limit search) = inr body)
  <-> (Z.max 1 page - 1) * Z.min 100 (Z.max 1 limit) <= SQLITE_INT_MAX
      /\ search_too_complex db search = false.
Proof.
  split.
  - intros (body & H). revert H. unfold answer. rewrite list_customers_run.
    unfold normalize. destruct (fits_int64 _) eqn:E; cbn [snd]; [|discriminate].
    apply fits_int64_offset in E.
    destruct (search_too_complex db search); cbn [snd]; [discriminate|]. auto.
  - intros [Hoff Hsearch]. rewrite list_customers_page by assumption. eauto.
Qed.

Lemma get_customer_orders_body (db : Store) (customer_id page limit : Z)
    (body : CustomerOrders) :
  answer (get_customer_orders db customer_id page limit) = inr body ->
  (Z.max 1 page - 1) * Z.min 100 (Z.max 1 limit) <= SQLITE_INT_MAX
  /\ fits_int64 customer_id = true
  /\ customer_exists db customer_id
  /\ body = {| co_success := true;
               co_data :=
                 select_customer_orders db customer_id (Z.min 100 (Z.max 1 limit))
                   ((Z.max 1 page - 1) * Z.min 100 (Z.max 1 limit));
               co_pagination :=
                 pagination (Z.max 1 page) (Z.min 100 (Z.max 1 limit))
                            (customer_orders_total db customer_id) |}.
Proof.
  unfold answer. rewrite get_customer_orders_run. unfold normalize.
  destruct (fits_int64 customer_id); cbn [snd]; [|discriminate].
  destruct (select_customer_id db customer_id) eqn:Eid; cbn [snd]; [|discriminate].
  destruct (fits_int64 _) eqn:E; cbn [snd]; [|discriminate].
  apply fits_int64_offset in E. intros [= <-].
  repeat split; auto. apply customer_exists_iff. congruence.
Qed.

(** X4.  In a store of the schema, the number of rows of a
    [list_customers] or [get_customer_orders] answer can be read off its
    [pagination]: it is the smaller of [limit] and of what is left of
    [total] after the [(page - 1) * limit] rows of the pages before, none
    when nothing is left.  So every page before the last is full. *)
Theorem page_size (db : Store) (customer_id page limit : Z) (search : string) :
  store_ok db = true ->
  (forall body, answer (list_customers db page limit search) = inr body ->
     let p := cl_pagination body in
     Z.of_nat (List.length (cl_data body))
     = Z.min (pg_limit p) (Z.max 0 (pg_total p - (pg_page p - 1) * pg_limit p)))
  /\ (forall body, answer (get_customer_orders db customer_id page limit) = inr body ->
        let p := co_pagination body in
        Z.of_nat (List.length (co_data body))
        = Z.min (pg_limit p) (Z.max 0 (pg_total p - (pg_page p - 1) * pg_limit p))).
Proof.
  intros Hok. split; intros body Hbody; cbv zeta.
  - rewrite (list_customers_body _ _ _ _ _ Hbody).
    cbn [cl_data cl_pagination]. unfold pagination, select_customers.
    cbn [pg_limit pg_total pg_page].
    rewrite sql_limit_offset_size by nia.
    now rewrite customers_ordered_length by now apply store_ok_users.
  - destruct (get_customer_orders_body _ _ _ _ _ Hbody) as (_ & _ & _ & ->).
    cbn [co_data co_pagination]. unfold pagination, select_customer_orders.
    cbn [pg_limit pg_total pg_page].
    rewrite length_map, sql_limit_offset_size by nia.
    now rewrite orders_ordered_length.
Qed.

Lemma page_size_witness :
  (exists body, answer (list_customers example_store 2 3 "") = inr body
                /\ List.length (cl_data body) = 1%nat)
  /\ (exists body, answer (get_customer_orders example_store 1 1 1) = inr body
                   /\ List.length (co_data body) = 1%nat).
Proof.
  destruct (page_size example_store 1 2 3 "" eq_refl) as [Hlist _].
  destruct (page_size example_store 1 1 1 "" eq_refl) as [_ Horders].
  split; eexists; (split; [vm_compute; reflexivity|]); apply Nat2Z.inj.
  - rewrite Hlist by (vm_compute; reflexivity). reflexivity.
  - rewrite Horders by (vm_compute; reflexivity). reflexivity.
Defined.

Lemma has_next_iff_rows_left (page limit total : Z) :
  1 <= limit ->
  (page <? (total + limit - 1) / limit) = (page * limit <? total).
Proof.
  intros Hl.
  pose proof (total_pages_ceiling total limit ltac:(lia)) as [Hlo Hhi].
  destruct (page * limit <? total) eqn:E.
  - apply Z.ltb_lt in E. apply Z.ltb_lt. nia.
  - apply Z.ltb_ge in E. apply Z.ltb_ge. nia.
Qed.

(** X5.  In a store of the schema, [has_next] of a [list_customers] answer
    tells the truth about the next page: it is true exactly when [total]
    is more than [page * limit], and then the request for page [page + 1]
    (same limit and search) is answered with rows; when it is false, an
    answer to that request has none. *)
Theorem list_has_next_is_truthful (db : Store) (page limit : Z) (search : string)
    (body : CustomerList) :
  store_ok db = true ->
  answer (list_customers db page limit search) = inr body ->
  let p := cl_pagination body in
  pg_has_next p = (pg_page p * pg_limit p <? pg_total p)
  /\ (pg_has_next p = true ->
      exists next,
        answer (list_customers db (pg_page p + 1) limit search) = inr next
        /\ cl_data next <> [])
  /\ (pg_has_next p = false ->
      forall next,
        answer (list_customers db (pg_page p + 1) limit search) = inr next ->
        cl_data next = []).
Proof.
  intros Hok Hbody. cbv zeta.
  pose proof (proj1 (list_customers_succeeds_iff db page limit search)
                    (ex_intro _ body Hbody)) as [Hoff Hsearch].
  rewrite (list_customers_body _ _ _ _ _ Hbody).
  cbn [cl_pagination]. unfold pagination. cbn [pg_has_next pg_page pg_limit pg_total].
  set (l := Z.min 100 (Z.max 1 limit)) in *.
  set (pg := Z.max 1 page) in *.
  assert (1 <= l <= 100) as Hl by (unfold l; lia).
  assert (1 <= pg) as Hpg by (unfold pg; lia).
  pose proof (customers_ordered_length db search (store_ok_users db Hok)) as Hlen.
  pose proof (store_ok_users_length db Hok) as Husers.
  assert (customers_total db search <= SQLITE_INT_MAX) as Htotal.
  { rewrite <- Hlen. unfold customers_ordered.
    rewrite order_by_desc_length, customers_grouped_users, length_map
      by now apply store_ok_users.
    pose proof (filter_length_le (customers_where (search_param_of search)) (users db)).
    lia. }
  rewrite has_next_iff_rows_left by lia.
  assert (forall next,
             answer (list_customers db (pg + 1) limit search) = inr next ->
             Z.of_nat (List.length (cl_data next))
             = Z.min l (Z.max 0 (customers_total db search - pg * l))) as Hsize.
  { intros next Hnext.
    destruct (page_size db 0 (pg + 1) limit search Hok) as [Hsz _].
    rewrite (Hsz next Hnext).
    rewrite (list_customers_body _ _ _ _ _ Hnext).
    cbn [cl_pagination]. unfold pagination. cbn [pg_limit pg_total pg_page].
    fold l. replace (Z.max 1 (pg + 1) - 1) with pg by lia. reflexivity. }
  split; [reflexivity|]. split.
  - intros Hnext. apply Z.ltb_lt in Hnext.
    assert (exists next, answer (list_customers db (pg + 1) limit search) = inr next)
      as [next Hn].
    { apply list_customers_succeeds_iff. split; [|assumption].
      fold l. replace (Z.max 1 (pg + 1) - 1) with pg by lia. lia. }
    exists next. split; [assumption|].
    specialize (Hsize next Hn). intros E. rewrite E in Hsize. cbn in Hsize. lia.
  - intros Hnext next Hn. apply Z.ltb_ge in Hnext.
    specialize (Hsize next Hn).
    destruct (cl_data next); [reflexivity|]. cbn [List.length] in Hsize. lia.
Qed.

Lemma list_has_next_is_truthful_witness :
  exists body next,
    answer (list_customers example_store 1 3 "") = inr body
    /\ pg_has_next (cl_pagination body) = true
    /\ answer (list_customers example_store 2 3 "") = inr next
    /\ cl_data next <> [].
Proof.
  eexists. 
  match goal with
  | |- exists next, ?A = inr ?b /\ _ =>
      destruct (list_has_next_is_truthful example_store 1 3 "" b eq_refl)
        as (_ & Hmore & _); [vm_compute; reflexivity|]
  end.
  destruct Hmore as (next & Hnext & Hrows); [reflexivity|].
  exists next. split; [vm_compute; reflexivity|]. split; [reflexivity|].
  split; [exact Hnext | exact Hrows].
Defined.

(** X6.  The same for [get_customer_orders]: [has_next] is true exactly
    when the customer has more than [page * limit] orders, and then page
    [page + 1] is answered with rows; when it is false, an answer for page
    [page + 1] has none. *)
Theorem orders_has_next_is_truthful (db : Store) (customer_id page limit : Z)
    (body : CustomerOrders) :
  store_ok db = true ->
  answer (get_customer_orders db customer_id page limit) = inr body ->
  let p := co_pagination body in
  pg_has_next p = (pg_page p * pg_limit p <? pg_total p)
  /\ (pg_has_next p = true ->
      exists next,
        answer (get_customer_orders db customer_id (pg_page p + 1) limit) = inr next
        /\ co_data next <> [])
  /\ (pg_has_next p = false ->
      forall next,
        answer (get_customer_orders db customer_id (pg_page p + 1) limit) = inr next ->
        co_data next = []).
Proof.
  intros Hok Hbody. cbv zeta.
  destruct (get_customer_orders_body _ _ _ _ _ Hbody) as (Hoff & Hfit & Hex & ->).
  cbn [co_pagination]. unfold pagination. cbn [pg_has_next pg_page pg_limit pg_total].
  set (l := Z.min 100 (Z.max 1 limit)) in *.
  set (pg := Z.max 1 page) in *.
  assert (1 <= l <= 100) as Hl by (unfold l; lia).
  assert (1 <= pg) as Hpg by (unfold pg; lia).
  pose proof (customer_orders_total_bound db customer_id Hok) as Htotal.
  rewrite has_next_iff_rows_left by lia.
  assert (forall next,
             answer (get_customer_orders db customer_id (pg + 1) limit) = inr next ->
             Z.of_nat (List.length (co_data next))
             = Z.min l (Z.max 0 (customer_orders_total db customer_id - pg * l)))
    as Hsize.
  { intros next Hnext.
    destruct (page_size db customer_id (pg + 1) limit "" Hok) as [_ Hsz].
    rewrite (Hsz next Hnext).
    destruct (get_customer_orders_body _ _ _ _ _ Hnext) as (_ & _ & _ & ->).
    cbn [co_pagination]. unfold pagination. cbn [pg_limit pg_total pg_page].
    fold l. replace (Z.max 1 (pg + 1) - 1) with pg by lia. reflexivity. }
  split; [reflexivity|]. split.
  - intros Hnext. apply Z.ltb_lt in Hnext.
    assert (answer (get_customer_orders db customer_id (pg + 1) limit)
            = inr {| co_success := true;
                     co_data :=
                       select_customer_orders db customer_id (Z.min 100 (Z.max 1 limit))
                         ((Z.max 1 (pg + 1) - 1) * Z.min 100 (Z.max 1 limit));
                     co_pagination :=
                       pagination (Z.max 1 (pg + 1)) (Z.min 100 (Z.max 1 limit))
                                  (customer_orders_total db customer_id) |}) as Hn.
    { apply get_customer_orders_page; try assumption.
      fold l. replace (Z.max 1 (pg + 1) - 1) with pg by lia. lia. }
    eexists. split; [exact Hn|].
    specialize (Hsize _ Hn). intros E. rewrite E in Hsize. cbn in Hsize. lia.
  - intros Hnext next Hn. apply Z.ltb_ge in Hnext.
    specialize (Hsize next Hn).
    destruct (co_data next); [reflexivity|]. cbn [List.length] in Hsize. lia.
Qed.

Lemma orders_has_next_is_truthful_witness :
  exists body next,
    answer (get_customer_orders example_store 1 1 1) = inr body
    /\ pg_has_next (co_pagination body) = true
    /\ answer (get_customer_orders example_store 1 2 1) = inr next
    /\ co_data next <> [].
Proof.
  eexists.
  match goal with
  | |- exists next, ?A = inr ?b /\ _ =>
      destruct (orders_has_next_is_truthful example_store 1 1 1 b eq_refl)
        as (_ & Hmore & _); [vm_compute; reflexivity|]
  end.
  destruct Hmore as (next & Hnext & Hrows); [reflexivity|].
  exists next. split; [vm_compute; reflexivity|]. split; [reflexivity|].
  split; [exact Hnext | exact Hrows].
Defined.

(** ** The statistics handler *)

Lemma filter_exclusive_perm {R : Type} (p q : R -> bool) (l : list R) :
  (forall r, In r l -> p r = true -> q r = false) ->
  Permutation (filter p l ++ filter q l) (filter (fun r => p r || q r) l).
Proof.
  induction l as [|r l IH]; intros Hex; [constructor|].
  cbn [filter].
  assert (Permutation (filter p l ++ filter q l) (filter (fun r => p r || q r) l)) as IH'
      by (apply IH; intros; apply Hex; simpl; auto).
  destruct (p r) eqn:Ep.
  - rewrite (Hex r) by (simpl; auto). cbn. now constructor.
  - destruct (q r); cbn; [|assumption].
    etransitivity; [symmetry; apply Permutation_middle|]. now constructor.
Qed.

(** The orders the join shows are the orders that are not orphaned, user
    after user. *)
Lemma matched_orders_perm (us : list User) (os : list Order) :
  NoDup (map u_id us) ->
  Permutation (flat_map (fun u => filter (on_user u) os) us)
              (filter (fun o => existsb (fun u => on_user u o) us) os).
Proof.
  induction us as [|u us IH]; intros Hnd; cbn [flat_map existsb].
  - induction os; cbn; auto.
  - inversion Hnd as [|? ? Hu Hus]; subst.
    etransitivity; [apply Permutation_app_head, IH, Hus|].
    apply filter_exclusive_perm. intros o _ Ho.
    apply not_true_is_false. intros Hex.
    apply existsb_exists in Hex. destruct Hex as (v & Hv & Hvo).
    apply Hu. unfold on_user in Ho, Hvo.
    destruct (o_user_id o) as [i|]; [|discriminate].
    apply Z.eqb_eq in Ho, Hvo. rewrite Ho, <- Hvo. now apply in_map.
Qed.

Lemma non_null_app {A : Type} (l1 l2 : list (option A)) :
  non_null (l1 ++ l2) = non_null l1 ++ non_null l2.
Proof.
  induction l1 as [|[x|] l1 IH]; cbn; [reflexivity| |assumption]. now rewrite IH.
Qed.

Lemma non_null_perm {A : Type} (l1 l2 : list (option A)) :
  Permutation l1 l2 -> Permutation (non_null l1) (non_null l2).
Proof.
  induction 1 as [|x k1 k2 _ IH|x y k|k1 k2 k3 _ IH1 _ IH2]; cbn.
  - constructor.
  - destruct x; [now constructor | assumption].
  - destruct x, y; try reflexivity. constructor.
  - etransitivity; eassumption.
Qed.

Lemma join_block_items (os : list Order) (u : User) :
  non_null (map joined_num_of_item (join_block os u))
  = non_null (map o_num_of_item (filter (on_user u) os)).
Proof.
  unfold join_block. destruct (filter (on_user u) os) as [|o l]; [reflexivity|].
  now rewrite map_map.
Qed.

Lemma joined_items (us : list User) (os : list Order) :
  non_null (map joined_num_of_item (left_join us os))
  = non_null (map o_num_of_item (flat_map (fun u => filter (on_user u) os) us)).
Proof.
  rewrite left_join_blocks.
  induction us as [|u us IH]; [reflexivity|]. cbn [flat_map].
  now rewrite !map_app, !non_null_app, join_block_items, IH.
Qed.

Lemma joined_items_perm (db : Store) :
  store_ok db = true ->
  Permutation (non_null (map joined_num_of_item (left_join (users db) (orders db))))
              (counted_items db).
Proof.
  intros Hok. rewrite joined_items. unfold counted_items, has_customer.
  apply non_null_perm, Permutation_map, matched_orders_perm.
  now apply store_ok_users.
Qed.

Lemma z_sum_perm (l1 l2 : list Z) : Permutation l1 l2 -> z_sum l1 = z_sum l2.
Proof. unfold z_sum. induction 1; cbn [fold_right]; lia. Qed.

Lemma sum_from_some (l : list Z) (acc n : Z) :
  sum_from acc l = Some n -> n = acc + z_sum l.
Proof.
  unfold z_sum. revert acc.
  induction l as [|x l IH]; intros acc; cbn [sum_from fold_right].
  - intros [= <-]. lia.
  - destruct (fits_int64 (acc + x)); [|discriminate].
    intros H. apply IH in H. lia.
Qed.

(** The ids the join shows are the ids of the users. *)
Lemma nodup_length_perm (l1 l2 : list Z) :
  NoDup l2 -> (forall x, In x l1 <-> In x l2) ->
  List.length (nodup Z.eq_dec l1) = List.length l2.
Proof.
  intros Hnd Hiff. apply Nat.le_antisymm.
  - apply NoDup_incl_length; [apply NoDup_nodup|].
    intros x Hx. apply Hiff. now apply nodup_In in Hx.
  - apply NoDup_incl_length; [assumption|].
    intros x Hx. apply nodup_In. now apply Hiff.
Qed.

Lemma left_join_ids (us : list User) (os : list Order) (i : Z) :
  In i (map (fun r => u_id (fst r)) (left_join us os)) <-> In i (map u_id us).
Proof.
  rewrite left_join_blocks, !in_map_iff. split.
  - intros (r & <- & Hr). apply in_flat_map in Hr. destruct Hr as (u & Hu & Hr).
    pose proof (join_block_user os u) as Hall. rewrite Forall_forall in Hall.
    rewrite (Hall r Hr). eauto.
  - intros (u & <- & Hu).
    destruct (join_block os u) as [|r l] eqn:E; [now apply join_block_not_nil in E|].
    exists r. pose proof (join_block_user os u) as Hall. rewrite E in Hall.
    inversion Hall; subst. split; [reflexivity|].
    apply in_flat_map. exists (fst r). rewrite E. simpl; auto.
Qed.

Lemma left_join_customer_count (us : list User) (os : list Order) :
  NoDup (map u_id us) ->
  sql_count_distinct (fun r => u_id (fst r)) (left_join us os)
  = Z.of_nat (List.length us).
Proof.
  intros Hnd. unfold sql_count_distinct.
  rewrite (nodup_length_perm _ (map u_id us)), length_map; auto.
  intros i. apply left_join_ids.
Qed.

Lemma filter_of_implied {R : Type} (p q : R -> bool) (l : list R) :
  (forall r, p r = true -> q r = true) ->
  filter p (filter q l) = filter p l.
Proof.
  intros Himp. induction l as [|r l IH]; [reflexivity|]. cbn [filter].
  destruct (q r) eqn:Eq; cbn [filter].
  - now rewrite IH.
  - destruct (p r) eqn:Ep; [|assumption]. apply Himp in Ep. congruence.
Qed.

Lemma joined_status_counts_le (rows : list (User * option Order)) :
  sql_count (fun r => status_is "Complete" (joined_status r)) rows
  + sql_count (fun r => status_is "Shipped" (joined_status r)) rows
  + sql_count (fun r => status_is "Cancelled" (joined_status r)) rows
  <= sql_count joined_order_id rows.
Proof.
  pose proof (status_counts_le joined_status
                (filter (fun r => match joined_order_id r with
                                  | Some _ => true | None => false end) rows)) as H.
  unfold sql_count, sql_count_star in *.
  rewrite !filter_of_implied in H; [exact H| | |];
    intros [u [o|]]; unfold joined_status, joined_order_id; cbn; congruence.
Qed.

Lemma filter_of_perm {A : Type} (keep : A -> bool) (l l' : list A) :
  Permutation l l' -> Permutation (filter keep l) (filter keep l').
Proof.
  induction 1 as [|x k1 k2 _ IH|x y k|k1 k2 k3 _ IH1 _ IH2]; cbn [filter].
  - constructor.
  - destruct (keep x); [now constructor | assumption].
  - destruct (keep x), (keep y); try reflexivity. constructor.
  - etransitivity; eassumption.
Qed.

(** The index holds the orders the table holds. *)
Lemma index_scan_perm (os : list Order) : Permutation (index_scan os) os.
Proof. symmetry. apply order_by_desc_perm. Qed.

Lemma join_block_perm (os os' : list Order) (u : User) :
  Permutation os' os -> Permutation (join_block os' u) (join_block os u).
Proof.
  intros H. unfold join_block.
  pose proof (filter_of_perm (on_user u) _ _ H) as Hf.
  destruct (filter (on_user u) os') as [|o' l'], (filter (on_user u) os) as [|o l].
  - reflexivity.
  - apply Permutation_nil in Hf. discriminate.
  - symmetry in Hf. apply Permutation_nil in Hf. discriminate.
  - now apply Permutation_map.
Qed.

Lemma left_join_perm (us : list User) (os os' : list Order) :
  Permutation os' os -> Permutation (left_join us os') (left_join us os).
Proof.
  intros H. rewrite !left_join_blocks.
  induction us as [|u us IH]; cbn [flat_map]; [constructor|].
  apply Permutation_app; [now apply join_block_perm | exact IH].
Qed.

(** The aggregates that count do not see the order of the rows. *)
Lemma sql_count_perm {R A : Type} (expr : R -> option A) (l l' : list R) :
  Permutation l l' -> sql_count expr l = sql_count expr l'.
Proof.
  intros H. unfold sql_count. f_equal. now apply Permutation_length, filter_of_perm.
Qed.

Lemma sql_count_distinct_perm {R : Type} (expr : R -> Z) (l l' : list R) :
  Permutation l l' -> sql_count_distinct expr l = sql_count_distinct expr l'.
Proof.
  intros H. unfold sql_count_distinct. f_equal.
  apply nodup_length_perm; [apply NoDup_nodup|].
  intros x. rewrite nodup_In. split; apply Permutation_in, Permutation_map;
    [exact H | now symmetry].
Qed.

Lemma fold_left_add (l : list Z) (acc : Z) : fold_left Z.add l acc = acc + z_sum l.
Proof.
  unfold z_sum. revert acc.
  induction l as [|x l IH]; intros acc; cbn [fold_left fold_right]; [lia|].
  rewrite IH. lia.
Qed.

Lemma sql_avg_perm (l l' : list (option Z)) :
  Permutation l l' -> sql_avg l = sql_avg l'.
Proof.
  intros H. apply non_null_perm in H. unfold sql_avg.
  destruct (non_null l) as [|x k], (non_null l') as [|x' k'].
  - reflexivity.
  - apply Permutation_nil in H. discriminate.
  - symmetry in H. apply Permutation_nil in H. discriminate.
  - rewrite !fold_left_add, (Permutation_length H).
    pose proof (z_sum_perm _ _ H) as Hsum. unfold z_sum in *.
    cbn [fold_right] in Hsum. now rewrite Hsum.
Qed.

(** The statistics statement, with the aggregates that do not see the
    order of the rows written over the join in the order of the store. *)
Lemma get_statistics_answer (db : Store) :
  answer (get_statistics db)
  = let joined := left_join (users db) (orders db) in
    match sql_sum (map joined_num_of_item
                       (left_join (users db) (index_scan (orders db)))) with
    | SumOverflow => inl InternalError
    | total_items =>
        inr {| sx_success := true;
               sx_overall_statistics :=
                 {| ov_total_customers := sql_count_distinct (fun r => u_id (fst r)) joined;
                    ov_total_orders := sql_count joined_order_id joined;
                    ov_total_items :=
                      or_zero (match total_items with SumInt n => Some n | _ => None end);
                    ov_avg_items_per_order :=
                      round2_or_zero (sql_avg (map joined_num_of_item joined));
                    ov_completed_orders :=
                      sql_count (fun r => status_is "Complete" (joined_status r)) joined;
                    ov_shipped_orders :=
                      sql_count (fun r => status_is "Shipped" (joined_status r)) joined;
                    ov_cancelled_orders :=
                      sql_count (fun r => status_is "Cancelled" (joined_status r)) joined |};
               sx_top_countries := select_top_countries db |}
    end.
Proof.
  pose proof (left_join_perm (users db) _ _ (index_scan_perm (orders db))) as Hperm.
  unfold answer, run, get_statistics, bind, execute, ret, raise. cbn [forallb app].
  cbv zeta.
  rewrite (sql_count_distinct_perm _ _ _ Hperm).
  rewrite (sql_count_perm joined_order_id _ _ Hperm).
  rewrite (sql_count_perm (fun r => status_is "Complete" (joined_status r)) _ _ Hperm).
  rewrite (sql_count_perm (fun r => status_is "Shipped" (joined_status r)) _ _ Hperm).
  rewrite (sql_count_perm (fun r => status_is "Cancelled" (joined_status r)) _ _ Hperm).
  rewrite (sql_avg_perm _ _ (Permutation_map joined_num_of_item Hperm)).
  destruct (sql_sum _); reflexivity.
Qed.

(** What the SUM of the statistics statement adds up, in whatever order. *)
Lemma index_join_items_perm (db : Store) :
  store_ok db = true ->
  Permutation (non_null (map joined_num_of_item
                             (left_join (users db) (index_scan (orders db)))))
              (counted_items db).
Proof.
  intros Hok. etransitivity; [|now apply joined_items_perm].
  apply non_null_perm, Permutation_map, left_join_perm, index_scan_perm.
Qed.

Lemma counted_items_fit (db : Store) :
  store_ok db = true ->
  Forall (fun x => SQLITE_INT_MIN <= x <= SQLITE_INT_MAX) (counted_items db).
Proof.
  intros Hok. unfold counted_items. apply Forall_forall. intros x Hx.
  assert (In (Some x) (map o_num_of_item (filter (has_customer db) (orders db))))
    as Hin.
  { clear -Hx. induction (map o_num_of_item _) as [|[y|] l IH]; cbn in *;
      [contradiction| |auto]. destruct Hx as [->|]; auto. }
  apply in_map_iff in Hin. destruct Hin as (o & Ho & Hin).
  apply filter_In in Hin. destruct Hin as [Hin _].
  unfold store_ok in Hok. rewrite !andb_true_iff in Hok.
  destruct Hok as [[[_ Hitems] _] _].
  rewrite forallb_forall in Hitems. specialize (Hitems o Hin).
  rewrite Ho in Hitems. now apply fits_int64_iff.
Qed.

Lemma sum_from_none_iff (l : list Z) (acc : Z) :
  0 <= acc <= SQLITE_INT_MAX ->
  Forall (fun x => 0 <= x) l ->
  sum_from acc l = None <-> SQLITE_INT_MAX < acc + z_sum l.
Proof.
  unfold z_sum. revert acc.
  induction l as [|x l IH]; intros acc Hacc Hall; cbn [sum_from fold_right].
  - split; [discriminate | lia].
  - inversion Hall as [|? ? Hx Hl]; subst.
    assert (0 <= fold_right Z.add 0 l) as Hsum.
    { clear -Hl. induction Hl; cbn [fold_right]; lia. }
    destruct (fits_int64 (acc + x)) eqn:E.
    + apply fits_int64_iff in E. rewrite IH by (auto; lia). lia.
    + split; [|reflexivity]. intros _.
      assert (~ (SQLITE_INT_MIN <= acc + x <= SQLITE_INT_MAX)) as Hout.
      { intros Hfit. apply fits_int64_iff in Hfit. congruence. }
      unfold SQLITE_INT_MIN, SQLITE_INT_MAX in *. lia.
Qed.

(** Quantities that are not negative overflow in any order or in none. *)
Lemma statistics_sum_overflows (db : Store) :
  store_ok db = true ->
  Forall (fun x => 0 <= x) (counted_items db) ->
  sql_sum (map joined_num_of_item (left_join (users db) (index_scan (orders db))))
  = SumOverflow
  <-> SQLITE_INT_MAX < z_sum (counted_items db).
Proof.
  intros Hok Hpos.
  pose proof (index_join_items_perm db Hok) as Hperm.
  pose proof (counted_items_fit db Hok) as Hfit.
  unfold sql_sum.
  destruct (non_null (map joined_num_of_item
                          (left_join (users db) (index_scan (orders db)))))
    as [|x l] eqn:E.
  - apply Permutation_nil in Hperm. rewrite Hperm. cbn.
    split; [discriminate|]. unfold SQLITE_INT_MAX. lia.
  - assert (Forall (fun x => 0 <= x) (x :: l)) as Hpos'
        by (eapply Permutation_Forall; [symmetry; exact Hperm | exact Hpos]).
    assert (Forall (fun x => SQLITE_INT_MIN <= x <= SQLITE_INT_MAX) (x :: l)) as Hfit'
        by (eapply Permutation_Forall; [symmetry; exact Hperm | exact Hfit]).
    inversion Hpos' as [|? ? Hx Hl]; subst.
    inversion Hfit' as [|? ? Hx' _]; subst.
    rewrite <- (z_sum_perm _ _ Hperm). cbn [z_sum fold_right].
    pose proof (sum_from_none_iff l x ltac:(lia) Hl) as Hnone. fold (z_sum l).
    destruct (sum_from x l) as [n|].
    + split; [discriminate|]. intros H. apply Hnone in H. discriminate.
    + split; [|reflexivity]. intros _. now apply Hnone.
Qed.

Lemma filter_keeps_all {A : Type} (keep : A -> bool) (l : list A) :
  List.length (filter keep l) = List.length l <-> forall x, In x l -> keep x = true.
Proof.
  induction l as [|a l IH]; cbn [filter List.length In]; [tauto|].
  pose proof (filter_length_le keep l) as Hle.
  destruct (keep a) eqn:E; cbn [List.length].
  - split.
    + intros H x [<-|Hx]; [assumption|]. apply IH; [lia | assumption].
    + intros H. f_equal. apply IH. auto.
  - split; [lia|]. intros H. specialize (H a (or_introl eq_refl)). congruence.
Qed.

(** C2.  In a store of the schema, whenever [get_statistics] answers with
    statistics, [total_orders] is the number of order rows whose [user_id]
    is the id of a user: never more than the number of order rows, and that
    number exactly when no order is orphaned; an orphaned order is not
    counted.  The statement fails when its SUM overflows, which depends on
    the order in which the engine adds the rows; where no quantity it adds
    is negative it does not: the answer is statistics when the sum of these
    quantities is at most [2^63 - 1], and the internal error when it is
    more. *)
Theorem total_orders_counts_matched_orders (db : Store) :
  store_ok db = true ->
  (forall body,
     answer (get_statistics db) = inr body ->
     ov_total_orders (sx_overall_statistics body)
     = Z.of_nat (List.length (filter (has_customer db) (orders db)))
     /\ ov_total_orders (sx_overall_statistics body)
        <= Z.of_nat (List.length (orders db))
     /\ (ov_total_orders (sx_overall_statistics body)
         = Z.of_nat (List.length (orders db))
         <-> forall o, In o (orders db) -> has_customer db o = true))
  /\ (Forall (fun x => 0 <= x) (counted_items db) ->
      (z_sum (counted_items db) <= SQLITE_INT_MAX ->
       exists body, answer (get_statistics db) = inr body)
      /\ (SQLITE_INT_MAX < z_sum (counted_items db) ->
          answer (get_statistics db) = inl InternalError)).
Proof.
  intros Hok.
  pose proof (left_join_order_count (users db) (orders db) (store_ok_users db Hok)) as Hcount.
  fold (has_customer db) in Hcount.
  pose proof (filter_length_le (has_customer db) (orders db)) as Hle.
  pose proof (filter_keeps_all (has_customer db) (orders db)) as Hall.
  split.
  - intros body. rewrite get_statistics_answer. cbv zeta.
    destruct (sql_sum _); [| |discriminate]; intros [= <-];
      cbn [sx_overall_statistics ov_total_orders]; rewrite Hcount;
      (split; [reflexivity|]); (split; [lia|]);
      rewrite <- Hall; split; intros H; [now apply Nat2Z.inj | now f_equal
                                        |now apply Nat2Z.inj | now f_equal].
  - intros Hpos. pose proof (statistics_sum_overflows db Hok Hpos) as Hsum.
    rewrite get_statistics_answer. cbv zeta.
    destruct (sql_sum _); (split; [intros Hfits | intros Hover]);
      try (eexists; reflexivity); try reflexivity.
    + apply Hsum in Hover. discriminate.
    + apply Hsum in Hover. discriminate.
    + exfalso. assert (SQLITE_INT_MAX < z_sum (counted_items db)) by now apply Hsum.
      lia.
Qed.

Lemma total_orders_counts_matched_orders_witness :
  exists body,
    answer (get_statistics example_store) = inr body
    /\ ov_total_orders (sx_overall_statistics body) = 2
    /\ List.length (orders example_store) = 3%nat.
Proof.
  destruct (total_orders_counts_matched_orders example_store eq_refl) as [Hbody Hfits].
  destruct Hfits as [Hsome _]; [repeat constructor; discriminate|].
  destruct Hsome as [body Hanswer]; [vm_compute; discriminate|].
  exists body. split; [exact Hanswer|]. split; [|reflexivity].
  destruct (Hbody body Hanswer) as (Hcount & _). rewrite Hcount. reflexivity.
Defined.

(** C2, as stated: a store with one order and no user has one order row,
    and [total_orders] is 0. *)
Lemma orphaned_order_is_not_counted :
  exists body,
    answer (get_statistics orphan_store) = inr body
    /\ ov_total_orders (sx_overall_statistics body) = 0
    /\ Z.of_nat (List.length (orders orphan_store)) = 1.
Proof. eexists. repeat split; vm_compute; reflexivity. Qed.

(** X7.  In a store of the schema, an answer of [get_statistics] has
    [total_customers] equal to the number of users, [total_items] equal to
    the sum of the [num_of_item] of the orders that are not orphaned (NULLs
    left out, 0 when there is none), and the three status counters together
    no more than [total_orders]. *)
Theorem overall_statistics (db : Store) (body : Statistics) :
  store_ok db = true ->
  answer (get_statistics db) = inr body ->
  let ov := sx_overall_statistics body in
  ov_total_customers ov = Z.of_nat (List.length (users db))
  /\ ov_total_items ov = z_sum (counted_items db)
  /\ ov_completed_orders ov + ov_shipped_orders ov + ov_cancelled_orders ov
     <= ov_total_orders ov.
Proof.
  intros Hok. rewrite get_statistics_answer. cbv zeta.
  pose proof (index_join_items_perm db Hok) as Hperm.
  pose proof (joined_status_counts_le (left_join (users db) (orders db))) as Hstatus.
  pose proof (left_join_customer_count (users db) (orders db) (store_ok_users db Hok))
    as Hcustomers.
  unfold sql_sum.
  destruct (non_null (map joined_num_of_item
                          (left_join (users db) (index_scan (orders db)))))
    as [|x l] eqn:E.
  - apply Permutation_nil in Hperm. intros [= <-].
    cbn [sx_overall_statistics ov_total_customers ov_total_items ov_total_orders
         ov_completed_orders ov_shipped_orders ov_cancelled_orders or_zero].
    rewrite Hperm. cbn [z_sum fold_right]. auto.
  - destruct (sum_from x l) as [n|] eqn:Esum; [|discriminate]. intros [= <-].
    apply sum_from_some in Esum.
    assert (n = z_sum (counted_items db)) as Hn
        by (rewrite <- (z_sum_perm _ _ Hperm); cbn [z_sum fold_right]; exact Esum).
    cbn [sx_overall_statistics ov_total_customers ov_total_items ov_total_orders
         ov_completed_orders ov_shipped_orders ov_cancelled_orders or_zero].
    repeat split; auto.
Qed.

Lemma overall_statistics_witness :
  exists body,
    answer (get_statistics example_store) = inr body
    /\ ov_total_customers (sx_overall_statistics body) = 4
    /\ ov_total_items (sx_overall_statistics body) = 5.
Proof.
  eexists. split; [vm_compute; reflexivity|].
  match goal with
  | |- context [sx_overall_statistics ?b] =>
      destruct (overall_statistics example_store b eq_refl)
        as (Hcustomers & Hitems & _); [vm_compute; reflexivity|]
  end.
  rewrite Hcustomers, Hitems. split; reflexivity.
Defined.

(** X8.  In a store of the schema where no counted quantity is negative,
    [get_statistics] fails exactly when the sum of the [num_of_item] of the
    orders that are not orphaned is more than 2^63 - 1, and the failure is
    the internal error; it never answers "not found". *)
Theorem statistics_fails_iff_total_overflows (db : Store) :
  store_ok db = true ->
  Forall (fun x => 0 <= x) (counted_items db) ->
  (answer (get_statistics db) = inl InternalError
   <-> SQLITE_INT_MAX < z_sum (counted_items db))
  /\ answer (get_statistics db) <> inl NotFound.
Proof.
  intros Hok Hpos. pose proof (statistics_sum_overflows db Hok Hpos) as Hsum.
  rewrite get_statistics_answer. cbv zeta.
  destruct (sql_sum _); (split; [|discriminate]).
  - split; [discriminate|]. intros H. apply Hsum in H. discriminate.
  - split; [discriminate|]. intros H. apply Hsum in H. discriminate.
  - split; [intros _; now apply Hsum | reflexivity].
Qed.

Lemma statistics_fails_iff_total_overflows_witness :
  answer (get_statistics heavy_store) = inl InternalError.
Proof.
  apply (statistics_fails_iff_total_overflows heavy_store eq_refl).
  - repeat constructor; discriminate.
  - reflexivity.
Defined.

(** ** The countries of the statistics *)

Section GroupByKeys.
Context {K R : Type} (eqb : K -> K -> bool) (key : R -> K).
Hypothesis eqb_eq : forall a b, eqb a b = true <-> a = b.

Lemma key_in_or_not (k : K) (l : list K) : In k l \/ ~ In k l.
Proof.
  induction l as [|a l [IH|IH]]; [right; intros [] | left; simpl; auto |].
  destruct (eqb a k) eqn:E.
  - apply eqb_eq in E. left. simpl; auto.
  - right. intros [->|H]; [|contradiction].
    rewrite (proj2 (eqb_eq k k) eq_refl) in E. discriminate.
Qed.

Lemma add_to_group_keys (k : K) (r : R) (gs : list (K * list R)) :
  (In k (map fst gs) -> map fst (add_to_group eqb k r gs) = map fst gs)
  /\ (~ In k (map fst gs) -> map fst (add_to_group eqb k r gs) = map fst gs ++ [k]).
Proof.
  induction gs as [|[k0 rs0] gs [IHin IHout]]; cbn [add_to_group map fst].
  - split; [contradiction | reflexivity].
  - destruct (eqb k0 k) eqn:E.
    + apply eqb_eq in E. subst k0. split; [reflexivity|]. intros H. exfalso. apply H.
      simpl; auto.
    + assert (k0 <> k) as Hne by (intros ->; rewrite (proj2 (eqb_eq k k) eq_refl) in E;
                                  discriminate).
      cbn [map fst]. split.
      * intros [H|H]; [contradiction|]. now rewrite IHin.
      * intros H. rewrite IHout; [reflexivity|]. intros H'. apply H. simpl; auto.
Qed.

Lemma add_to_group_In (k : K) (r : R) (gs : list (K * list R)) (k' : K) (rs' : list R) :
  NoDup (map fst gs) ->
  In (k', rs') (add_to_group eqb k r gs) ->
  (k' <> k /\ In (k', rs') gs)
  \/ (k' = k /\ ((exists rs, In (k, rs) gs /\ rs' = rs ++ [r])
                 \/ (~ In k (map fst gs) /\ rs' = [r]))).
Proof.
  induction gs as [|[k0 rs0] gs IH]; cbn [add_to_group map fst]; intros Hnd Hin.
  - destruct Hin as [[= <- <-]|[]]. right. split; [reflexivity|]. right.
    split; [intros [] | reflexivity].
  - inversion Hnd as [|? ? Hk0 Hgs]; subst.
    destruct (eqb k0 k) eqn:E.
    + apply eqb_eq in E. subst k0. destruct Hin as [[= <- <-]|Hin].
      * right. split; [reflexivity|]. left. exists rs0. simpl; auto.
      * left. split; [|simpl; auto]. intros ->. apply Hk0.
        apply in_map_iff. now exists (k, rs').
    + assert (k0 <> k) as Hne by (intros ->; rewrite (proj2 (eqb_eq k k) eq_refl) in E;
                                  discriminate).
      destruct Hin as [[= <- <-]|Hin]; [left; simpl; auto|].
      destruct (IH Hgs Hin) as [[Hk Hg]|[-> [(rs & Hg & ->)|[Hout ->]]]].
      * left. simpl; auto.
      * right. split; [reflexivity|]. left. exists rs. simpl; auto.
      * right. split; [reflexivity|]. right. split; [|reflexivity].
        intros [H|H]; [contradiction | now apply Hout].
Qed.

Lemma group_by_snoc (rows : list R) (r : R) :
  group_by eqb key (rows ++ [r]) = add_to_group eqb (key r) r (group_by eqb key rows).
Proof. unfold group_by. now rewrite fold_left_app. Qed.

(** The groups have distinct keys, the keys are the keys of the rows, and
    the group of a key holds the rows of that key, in their order. *)
Lemma group_by_groups (rows : list R) :
  NoDup (map fst (group_by eqb key rows))
  /\ (forall k, In k (map fst (group_by eqb key rows)) <-> In k (map key rows))
  /\ (forall k rs, In (k, rs) (group_by eqb key rows) ->
        rs = filter (fun r => eqb k (key r)) rows).
Proof.
  induction rows as [|r rows (Hnd & Hkeys & Hgroups)] using rev_ind.
  - cbn. split; [constructor|]. split; [tauto|]. intros k rs [].
  - rewrite group_by_snoc.
    destruct (add_to_group_keys (key r) r (group_by eqb key rows)) as [Kin Kout].
    assert (forall k, In k (map fst (add_to_group eqb (key r) r (group_by eqb key rows)))
                      <-> In k (map key (rows ++ [r]))) as Hkeys'.
    { intros k. rewrite map_app, in_app_iff. cbn [map In].
      destruct (key_in_or_not (key r) (map fst (group_by eqb key rows))) as [Hin|Hout].
      - rewrite (Kin Hin), Hkeys. split; [auto|]. intros [H|[<-|[]]]; [assumption|].
        now apply Hkeys.
      - rewrite (Kout Hout), in_app_iff, Hkeys. cbn [In]. tauto. }
    split; [|split; [exact Hkeys'|]].
    + destruct (key_in_or_not (key r) (map fst (group_by eqb key rows))) as [Hin|Hout].
      * now rewrite (Kin Hin).
      * rewrite (Kout Hout). apply NoDup_app; [assumption|repeat constructor; intros []|].
        intros k Hk [<-|[]]. contradiction.
    + intros k rs Hin. rewrite filter_app. cbn [filter].
      destruct (add_to_group_In _ _ _ _ _ Hnd Hin)
        as [[Hk Hg]|[-> [(rs0 & Hg & ->)|[Hout ->]]]].
      * rewrite (Hgroups _ _ Hg).
        destruct (eqb k (key r)) eqn:E; [apply eqb_eq in E; contradiction|].
        now rewrite app_nil_r.
      * rewrite (Hgroups _ _ Hg), (proj2 (eqb_eq (key r) (key r)) eq_refl). reflexivity.
      * rewrite (proj2 (eqb_eq (key r) (key r)) eq_refl).
        replace (filter (fun r0 => eqb (key r) (key r0)) rows) with (@nil R);
          [reflexivity|].
        symmetry. apply filter_nil_iff. intros r0 Hr0.
        apply not_true_is_false. intros E. apply eqb_eq in E.
        apply Hout, Hkeys. rewrite E. now apply in_map.
Qed.
End GroupByKeys.

Lemma sorted_split {R : Type} (P : R -> R -> Prop) (l1 l2 : list R) :
  StronglySorted P (l1 ++ l2) ->
  StronglySorted P l1 /\ forall a b, In a l1 -> In b l2 -> P a b.
Proof.
  induction l1 as [|x l1 IH]; cbn; intros H.
  - split; [constructor | intros a b []].
  - inversion H as [|? ? Hs Hx]; subst. destruct (IH Hs) as [H1 H2].
    rewrite Forall_forall in Hx. split.
    + constructor; [assumption|]. apply Forall_forall. intros y Hy.
      apply Hx, in_or_app. auto.
    + intros a b [<-|Ha] Hb; [apply Hx, in_or_app; auto | now apply H2].
Qed.

Lemma insert_desc_sorted_Z {R : Type} (key : R -> Z) (x : R) (l : list R) :
  StronglySorted (fun a b => key b <= key a) l ->
  StronglySorted (fun a b => key b <= key a) (insert_desc Z.ltb key x l).
Proof.
  induction 1 as [|y l Hl IH Hy]; cbn [insert_desc].
  - repeat constructor.
  - destruct (Z.ltb_spec (key x) (key y)).
    + constructor; [assumption|].
      apply Forall_forall. intros z Hz.
      apply (Permutation_in _ (Permutation_sym (insert_desc_perm Z.ltb key x l))) in Hz.
      destruct Hz as [<-|Hz]; [lia|]. rewrite Forall_forall in Hy. auto.
    + constructor; [now constructor|]. constructor; [lia|].
      eapply Forall_impl; [|exact Hy]. cbv beta. intros; lia.
Qed.

Lemma order_by_desc_sorted_Z {R : Type} (key : R -> Z) (l : list R) :
  StronglySorted (fun a b => key b <= key a) (order_by_desc Z.ltb key l).
Proof.
  induction l as [|x l IH]; cbn; [constructor | now apply insert_desc_sorted_Z].
Qed.

(** The rows of a user, tagged with its country. *)
Lemma tagged_block (os : list Order) (u : User) :
  flat_map (fun r => match u_country (fst r) with
                     | Some c => [(c, r)]
                     | None => []
                     end) (join_block os u)
  = match u_country u with
    | Some c => map (pair c) (join_block os u)
    | None => []
    end.
Proof.
  pose proof (join_block_user os u) as H.
  induction (join_block os u) as [|r l IH]; cbn [flat_map map].
  - now destruct (u_country u).
  - inversion H as [|? ? Hr Hl]; subst. rewrite IH by assumption.
    now destruct (u_country (fst r)).
Qed.

(** The tagged rows of one country are the join of its users. *)
Lemma country_rows (c : string) (us : list User) (os : list Order) :
  filter (fun cr => String.eqb c (fst cr))
         (flat_map (fun r => match u_country (fst r) with
                             | Some c => [(c, r)]
                             | None => []
                             end) (left_join us os))
  = map (pair c) (left_join (filter (in_country c) us) os).
Proof.
  rewrite !left_join_blocks.
  induction us as [|u us IH]; cbn [flat_map filter]; [reflexivity|].
  rewrite flat_map_app, filter_app, IH, tagged_block. unfold in_country at 2.
  destruct (u_country u) as [c'|]; [|reflexivity].
  rewrite filter_map_comm. cbn [fst]. rewrite String.eqb_sym.
  destruct (String.eqb c' c) eqn:E.
  - apply String.eqb_eq in E. subst c'. cbn [flat_map]. rewrite map_app. f_equal.
    f_equal. clear. induction (join_block os u); cbn; congruence.
  - replace (filter (fun _ => false) (join_block os u)) with (@nil (User * option Order));
      [reflexivity|].
    clear. induction (join_block os u); cbn; congruence.
Qed.

Lemma sql_count_map {A B C : Type} (f : A -> B) (expr : B -> option C) (l : list A) :
  sql_count expr (map f l) = sql_count (fun x => expr (f x)) l.
Proof. unfold sql_count. now rewrite filter_map_comm, length_map. Qed.

(** What a group of the countries statement counts. *)
Lemma country_group_counts (db : Store) (c : string)
    (rs : list (string * (User * option Order))) :
  store_ok db = true ->
  In (c, rs)
     (group_by String.eqb fst
        (flat_map (fun r => match u_country (fst r) with
                            | Some c => [(c, r)]
                            | None => []
                            end) (left_join (users db) (orders db)))) ->
  country_customers db c <> []
  /\ sql_count_distinct (fun cr => u_id (fst (snd cr))) rs
     = Z.of_nat (List.length (country_customers db c))
  /\ sql_count (fun cr => joined_order_id (snd cr)) rs
     = Z.of_nat (List.length (country_orders db c)).
Proof.
  intros Hok Hin.
  destruct (group_by_groups String.eqb fst String.eqb_eq
              (flat_map (fun r => match u_country (fst r) with
                                  | Some c => [(c, r)]
                                  | None => []
                                  end) (left_join (users db) (orders db))))
    as (_ & Hkeys & Hgroups).
  pose proof (Hgroups _ _ Hin) as Hrs. rewrite country_rows in Hrs.
  fold (country_customers db c) in Hrs.
  assert (NoDup (map u_id (country_customers db c))) as Hnd
      by (apply filter_keeps_unique; now apply store_ok_users).
  split; [|split].
  - intros Hnil. rewrite Hnil in Hrs. cbn in Hrs.
    assert (In c (map fst
                   (flat_map (fun r => match u_country (fst r) with
                                       | Some c => [(c, r)]
                                       | None => []
                                       end) (left_join (users db) (orders db))))) as Hc.
    { apply Hkeys. apply in_map_iff. now exists (c, rs). }
    apply in_map_iff in Hc. destruct Hc as (cr & Hfst & Hcr).
    assert (In cr (filter (fun cr => String.eqb c (fst cr))
                     (flat_map (fun r => match u_country (fst r) with
                                         | Some c => [(c, r)]
                                         | None => []
                                         end) (left_join (users db) (orders db)))))
      as Hfilter.
    { apply filter_In. split; [assumption|]. rewrite Hfst. apply String.eqb_refl. }
    rewrite country_rows in Hfilter. fold (country_customers db c) in Hfilter.
    rewrite Hnil in Hfilter. exact Hfilter.
  - rewrite Hrs. unfold sql_count_distinct. rewrite map_map. cbn [snd].
    now apply left_join_customer_count.
  - rewrite Hrs, sql_count_map. cbn [snd].
    change (sql_count (fun x => joined_order_id x)) with (@sql_count _ Z joined_order_id).
    now rewrite left_join_order_count.
Qed.

(** X9.  In a store of the schema, the [top_countries] of a
    [get_statistics] answer are at most five rows of distinct countries, in
    descending order of [order_count]; a row's [customer_count] is the
    number of users of its country (there is at least one) and its
    [order_count] the number of orders of these users; and a country of some
    user that is not listed has no more orders than any listed one, five
    others being listed. *)
Theorem top_countries_are_the_top_five (db : Store) (body : Statistics) :
  store_ok db = true ->
  answer (get_statistics db) = inr body ->
  let top := sx_top_countries body in
  (List.length top <= 5)%nat
  /\ NoDup (map cr_country top)
  /\ StronglySorted (fun a b => cr_order_count b <= cr_order_count a) top
  /\ (forall row, In row top ->
        country_customers db (cr_country row) <> []
        /\ cr_customer_count row
           = Z.of_nat (List.length (country_customers db (cr_country row)))
        /\ cr_order_count row
           = Z.of_nat (List.length (country_orders db (cr_country row))))
  /\ (forall u c, In u (users db) -> u_country u = Some c ->
        ~ In c (map cr_country top) ->
        List.length top = 5%nat
        /\ forall row, In row top ->
             Z.of_nat (List.length (country_orders db c)) <= cr_order_count row).
Proof.
  intros Hok Hbody.
  assert (sx_top_countries body = select_top_countries db) as ->.
  { revert Hbody. rewrite get_statistics_answer. cbv zeta.
    destruct (sql_sum _); [| |discriminate]; now intros [= <-]. }
  cbv zeta. unfold select_top_countries. cbv zeta.
  set (kept := flat_map _ (left_join (users db) (orders db))).
  set (mk := fun g : string * list (string * (User * option Order)) =>
               {| cr_country := fst g;
                  cr_customer_count :=
                    sql_count_distinct (fun cr => u_id (fst (snd cr))) (snd g);
                  cr_order_count :=
                    sql_count (fun cr => joined_order_id (snd cr)) (snd g) |}).
  set (rows := map mk (order_by_desc String.ltb fst (group_by String.eqb fst kept))).
  set (sorted := order_by_desc Z.ltb cr_order_count rows).
  rewrite sql_limit_offset_window by lia.
  change (Z.to_nat 5) with 5%nat. change (Z.to_nat 0) with 0%nat. cbn [skipn].
  destruct (group_by_groups String.eqb fst String.eqb_eq kept) as (Hnd & Hkeys & _).
  assert (forall row, In row sorted ->
            exists rs, In (cr_country row, rs) (group_by String.eqb fst kept)
                       /\ row = mk (cr_country row, rs)) as Hgroup.
  { intros row Hrow.
    apply (Permutation_in _ (Permutation_sym (order_by_desc_perm _ _ rows))) in Hrow.
    apply in_map_iff in Hrow. destruct Hrow as ([c rs] & <- & Hg).
    apply (Permutation_in _ (Permutation_sym (order_by_desc_perm _ _ _))) in Hg.
    exists rs. split; [exact Hg | reflexivity]. }
  assert (forall row, In row sorted ->
            country_customers db (cr_country row) <> []
            /\ cr_customer_count row
               = Z.of_nat (List.length (country_customers db (cr_country row)))
            /\ cr_order_count row
               = Z.of_nat (List.length (country_orders db (cr_country row)))) as Hrows.
  { intros row Hrow. destruct (Hgroup row Hrow) as (rs & Hg & Hmk).
    pose proof (country_group_counts db _ _ Hok Hg) as Hcounts.
    destruct Hcounts as (Hsome & Hcustomers & Horders).
    repeat split; [exact Hsome | rewrite <- Hcustomers | rewrite <- Horders];
      rewrite Hmk; reflexivity. }
  assert (Permutation (map cr_country sorted) (map fst (group_by String.eqb fst kept)))
    as Hperm.
  { etransitivity;
      [apply Permutation_map, Permutation_sym, order_by_desc_perm|].
    unfold rows. rewrite map_map. cbn [mk cr_country].
    apply Permutation_map, Permutation_sym, order_by_desc_perm. }
  assert (NoDup (map cr_country sorted)) as Hnd'
      by (eapply Permutation_NoDup; [symmetry; exact Hperm | exact Hnd]).
  pose proof (order_by_desc_sorted_Z cr_order_count rows) as Hsorted. fold sorted in Hsorted.
  rewrite <- (firstn_skipn 5 sorted) in Hsorted, Hnd'.
  destruct (sorted_split _ _ _ Hsorted) as [Hfirst Hrest].
  rewrite map_app in Hnd'.
  assert (forall row, In row (firstn 5 sorted) -> In row sorted) as Hsub.
  { intros row Hrow. rewrite <- (firstn_skipn 5 sorted). apply in_or_app. auto. }
  split; [apply firstn_le_length|].
  split; [now apply NoDup_app_remove_r in Hnd'|].
  split; [exact Hfirst|].
  split; [intros row Hrow; apply Hrows, Hsub, Hrow|].
  intros u c Hu Hcountry Hout.
  assert (In c (map cr_country sorted)) as Hc.
  { apply (Permutation_in _ (Permutation_sym Hperm)). apply Hkeys.
    unfold kept. apply in_map_iff.
    destruct (join_block (orders db) u) as [|r l] eqn:E;
      [now apply join_block_not_nil in E|].
    pose proof (join_block_user (orders db) u) as Hall. rewrite E in Hall.
    inversion Hall as [|? ? Hr _]; subst.
    exists (c, r). split; [reflexivity|].
    apply in_flat_map. exists r. split.
    - rewrite left_join_blocks. apply in_flat_map. exists (fst r). rewrite E.
      split; [assumption | simpl; auto].
    - rewrite Hcountry. simpl; auto. }
  apply in_map_iff in Hc. destruct Hc as (other & Hother & Hin).
  rewrite <- (firstn_skipn 5 sorted) in Hin. apply in_app_or in Hin.
  destruct Hin as [Hin|Hin].
  { exfalso. apply Hout. rewrite <- Hother. now apply in_map. }
  assert (In other sorted) as Hin'
      by (rewrite <- (firstn_skipn 5 sorted); apply in_or_app; auto).
  split.
  - apply firstn_length_le.
    destruct (Nat.le_gt_cases 5 (List.length sorted)) as [H|H]; [assumption|].
    rewrite skipn_all2 in Hin by lia. contradiction.
  - intros row Hrow. specialize (Hrest row other Hrow Hin). cbv beta in Hrest.
    destruct (Hrows other Hin') as (_ & _ & Hcount).
    rewrite Hother in Hcount. lia.
Qed.

Lemma top_countries_are_the_top_five_witness :
  exists body,
    answer (get_statistics world_store) = inr body
    /\ List.length (sx_top_countries body) = 5%nat.
Proof.
  eexists. split; [vm_compute; reflexivity|].
  match goal with
  | |- context [sx_top_countries ?b] =>
      destruct (top_countries_are_the_top_five world_store b eq_refl)
        as (_ & _ & _ & _ & Hrest); [vm_compute; reflexivity|]
  end.
  destruct (Hrest (example_user_of 6 "Peru") "Peru") as [Hfive _].
  - simpl; tauto.
  - reflexivity.
  - vm_compute. intuition discriminate.
  - exact Hfive.
Defined.

(** ** The routes of the server *)

Lemma strip_prefix_some (p s t : string) :
  strip_prefix p s = Some t -> s = (p ++ t)%string.
Proof.
  revert s. induction p as [|a p IH]; intros s; cbn.
  - now intros [= ->].
  - destruct s as [|b s]; [discriminate|].
    destruct (Ascii.eqb_spec a b) as [->|]; [|discriminate].
    intros H. now rewrite (IH _ H).
Qed.

Lemma take_digits_spec (s : string) :
  s = (fst (take_digits s) ++ snd (take_digits s))%string
  /\ forallb is_digit (list_ascii_of_string (fst (take_digits s))) = true.
Proof.
  induction s as [|c s [IHs IHd]]; cbn; [auto|].
  destruct (is_digit c) eqn:E; [|auto].
  destruct (take_digits s) as [digits rest]. cbn in *.
  rewrite E. split; [congruence | assumption].
Qed.

Lemma in_string_app (c : ascii) (a b : string) :
  in_string c (a ++ b) = in_string c a || in_string c b.
Proof.
  induction a as [|d a IH]; cbn; [reflexivity|]. now rewrite IH, orb_assoc.
Qed.

Lemma digits_hold_no_mark (d : string) :
  forallb is_digit (list_ascii_of_string d) = true -> in_string "?" d = false.
Proof.
  induction d as [|c d IH]; cbn; [reflexivity|].
  intros H. apply andb_true_iff in H. destruct H as [Hc Hd].
  rewrite (IH Hd), orb_false_r.
  destruct (Ascii.eqb_spec c "?") as [->|]; [discriminate Hc | reflexivity].
Qed.

Lemma at_end_holds_no_mark (s : string) : at_end s = true -> in_string "?" s = false.
Proof.
  unfold at_end. intros H. apply orb_true_iff in H.
  destruct H as [H|H]; apply String.eqb_eq in H; subst; reflexivity.
Qed.


Lemma match_customer_orders_spec (path digits : string) :
  match_customer_orders path = Some digits ->
  forallb is_digit (list_ascii_of_string digits) = true
  /\ nonempty digits = true
  /\ exists rest, path = ("/api/customers/" ++ digits ++ "/orders" ++ rest)%string
                  /\ at_end rest = true.
Proof.
  unfold match_customer_orders.
  destruct (strip_prefix "/api/customers/" path) as [tail|] eqn:E1; [|discriminate].
  destruct (take_digits_spec tail) as [Htail Hdigits].
  destruct (take_digits tail) as [d rest]. cbn [fst snd] in *.
  destruct (strip_prefix "/orders" rest) as [rest'|] eqn:E3; [|discriminate].
  destruct (nonempty d && at_end rest') eqn:E2; [|discriminate].
  intros [= <-]. apply andb_true_iff in E2. destruct E2 as [Hne Hend].
  repeat split; auto. exists rest'. split; [|assumption].
  apply strip_prefix_some in E1. apply strip_prefix_some in E3.
  now rewrite E1, Htail, E3.
Qed.

Lemma match_customer_orders_no_mark (path digits : string) :
  match_customer_orders path = Some digits -> in_string "?" path = false.
Proof.
  intros H. apply match_customer_orders_spec in H.
  destruct H as (Hdigits & _ & rest & -> & Hend).
  rewrite !in_string_app, (digits_hold_no_mark _ Hdigits), (at_end_holds_no_mark _ Hend).
  reflexivity.
Qed.

(** [int()] of a run of digits is not negative. *)
Lemma int_digits_nonneg (s : string) :
  forall (value : Z) (count : nat) (after : bool) (v : Z) (n : nat) (rest : string),
    0 <= value ->
    int_digits s value count after = Some (v, n, rest) -> 0 <= v.
Proof.
  induction s as [|c s IH]; intros value count after v n rest Hvalue; cbn [int_digits].
  - destruct after; [discriminate|]. now intros [= <- _ _].
  - destruct (is_digit c) eqn:E.
    + apply IH. unfold is_digit in E. unfold digit_value.
      apply andb_true_iff in E. destruct E as [E _]. apply Z.leb_le in E. lia.
    + destruct (Ascii.eqb c "_").
      * destruct after; [discriminate|]. now apply IH.
      * destruct after; [discriminate|]. now intros [= <- _ _].
Qed.

Lemma py_int_digits_nonneg (int_max_str_digits : nat) (digits : string) (v : Z) :
  forallb is_digit (list_ascii_of_string digits) = true ->
  py_int int_max_str_digits digits = Some v -> 0 <= v.
Proof.
  destruct digits as [|c digits]; [discriminate 2|].
  cbn [list_ascii_of_string forallb]. intros H.
  apply andb_true_iff in H. destruct H as [Hc _].
  assert (int_space c = false) as Hspace.
  { unfold is_digit, int_space in *. apply andb_true_iff in Hc.
    destruct Hc as [H1 H2]. apply Z.leb_le in H1, H2.
    repeat match goal with
           | |- context [?a <=? ?b] => destruct (Z.leb_spec a b)
           | |- context [?a =? ?b] => destruct (Z.eqb_spec a b)
           end; cbn; try reflexivity; lia. }
  assert (Ascii.eqb c "-" = false) as Hminus
      by (destruct (Ascii.eqb_spec c "-") as [->|]; [discriminate Hc | reflexivity]).
  assert (Ascii.eqb c "+" = false) as Hplus
      by (destruct (Ascii.eqb_spec c "+") as [->|]; [discriminate Hc | reflexivity]).
  unfold py_int. cbn [int_lstrip]. rewrite Hspace, Hminus, Hplus, Hc.
  destruct (int_digits (String c digits) 0 0 false) as [[[value count] rest]|] eqn:E;
    [|discriminate].
  apply int_digits_nonneg in E; [|lia].
  destruct (all_int_space rest); [|discriminate].
  destruct (_ && _); [discriminate|]. now intros [= <-].
Qed.

Section Routes.
Variable unquote : string -> string.
Variable int_max_str_digits : nat.

Lemma sent_body {A : Type} (wrap : A -> api_body)
    (r : list statement * (http_failure + A)) (b : api_body) :
  snd (simple_api.sent wrap r) = inr b -> exists body, snd r = inr body /\ b = wrap body.
Proof.
  destruct r as [log [f|body]]; cbn; [discriminate|]. intros [= <-]. eauto.
Qed.

Lemma respond_body {A : Type} (c : cursor A) (body : A) :
  snd (respond c) = inr body <-> answer c = inr body.
Proof.
  unfold respond, answer. destruct (run c) as [log [f|b]]; cbn; split; congruence.
Qed.

(** X10.  The server of [simple_api.py] never hands a query string to the
    handler of a customer's orders: whatever the path, an answer with orders
    is the answer of [get_customer_orders] for page 1 and limit 10, for an
    id that is not negative. *)
Theorem orders_route_ignores_pagination (db : Store) (path : string)
    (body : CustomerOrders) :
  snd (simple_api.do_GET unquote int_max_str_digits db path) = inr (Orders body) ->
  exists customer_id,
    0 <= customer_id
    /\ answer (get_customer_orders db customer_id 1 10) = inr body
    /\ pg_page (co_pagination body) = 1
    /\ pg_limit (co_pagination body) = 10.
Proof.
  unfold simple_api.do_GET.
  destruct (String.eqb path "/api/health"); [discriminate|]. cbv zeta.
  set (stripped := if String.prefix "/api/customers" path && in_string "?" path
                   then fst (split1 "?" path) else path).
  destruct (_ && String.eqb stripped "/api/customers").
  { intros H. apply sent_body in H. destruct H as (? & _ & [=]). }
  destruct (match_customer stripped) as [digits|].
  { destruct (py_int int_max_str_digits digits); [|discriminate].
    intros H. apply sent_body in H. destruct H as (? & _ & [=]). }
  destruct (match_customer_orders stripped) as [digits|] eqn:Em.
  2:{ destruct (String.eqb stripped "/api/statistics"); [|discriminate].
      intros H. apply sent_body in H. destruct H as (? & _ & [=]). }
  destruct (py_int int_max_str_digits digits) as [customer_id|] eqn:Eid; [|discriminate].
  rewrite (match_customer_orders_no_mark _ _ Em).
  intros H. apply sent_body in H. destruct H as (body' & Hbody & [= <-]).
  unfold simple_api._handle_get_customer_orders, simple_api._parse_query_params in Hbody.
  cbn [nonempty dict_get args_get int_param] in Hbody.
  apply respond_body in Hbody.
  exists customer_id. split; [|split; [exact Hbody|]].
  - apply match_customer_orders_spec in Em. destruct Em as (Hdigits & _).
    exact (py_int_digits_nonneg _ _ _ Hdigits Eid).
  - destruct (get_customer_orders_body _ _ _ _ _ Hbody) as (_ & _ & _ & ->).
    split; reflexivity.
Qed.


Lemma split1_spec (c : ascii) (s : string) :
  in_string c s = true ->
  s = (fst (split1 c s) ++ String c (snd (split1 c s)))%string.
Proof.
  induction s as [|d s IH]; cbn; [discriminate|].
  destruct (Ascii.eqb_spec d c) as [->|]; cbn; [reflexivity|].
  intros H. destruct (split1 c s) as [before after]. cbn in *.
  now rewrite <- IH.
Qed.

(** X12.  The list of customers is served exactly for the paths
    [/api/customers?...]: such a path is answered by the list handler on
    what follows the question mark, and no other path is answered with a
    list (so [/api/customers] alone is no route). *)
Theorem list_route_needs_a_question_mark (db : Store) :
  (forall query_string,
     simple_api.do_GET unquote int_max_str_digits db ("/api/customers?" ++ query_string)
     = simple_api.sent Customers
         (simple_api._handle_list_customers unquote int_max_str_digits db query_string))
  /\ (forall path body,
        snd (simple_api.do_GET unquote int_max_str_digits db path) = inr (Customers body) ->
        exists query_string, path = ("/api/customers?" ++ query_string)%string)
  /\ simple_api.do_GET unquote int_max_str_digits db "/api/customers"
     = ([], inl RouteNotFound).
Proof.
  split; [|split].
  - intros query_string. reflexivity.
  - intros path body. unfold simple_api.do_GET.
    destruct (String.eqb path "/api/health"); [discriminate|]. cbv zeta.
    destruct (String.prefix "/api/customers" path && in_string "?" path) eqn:Ewith.
    + apply andb_true_iff in Ewith. destruct Ewith as [_ Hmark].
      pose proof (split1_spec "?" path Hmark) as Hpath.
      cbn [andb]. destruct (String.eqb_spec (fst (split1 "?" path)) "/api/customers")
        as [Efst|_].
      * intros _. exists (snd (split1 "?" path)). now rewrite Hpath at 1; rewrite Efst.
      * destruct (match_customer _) as [digits|].
        { destruct (py_int int_max_str_digits digits); [|discriminate].
          intros H. apply sent_body in H. destruct H as (? & _ & [=]). }
        destruct (match_customer_orders _) as [digits|].
        { destruct (py_int int_max_str_digits digits); [|discriminate].
          intros H. apply sent_body in H. destruct H as (? & _ & [=]). }
        destruct (String.eqb _ "/api/statistics"); [|discriminate].
        intros H. apply sent_body in H. destruct H as (? & _ & [=]).
    + cbn [andb]. destruct (match_customer _) as [digits|].
      { destruct (py_int int_max_str_digits digits); [|discriminate].
        intros H. apply sent_body in H. destruct H as (? & _ & [=]). }
      destruct (match_customer_orders _) as [digits|].
      { destruct (py_int int_max_str_digits digits); [|discriminate].
        intros H. apply sent_body in H. destruct H as (? & _ & [=]). }
      destruct (String.eqb _ "/api/statistics"); [|discriminate].
      intros H. apply sent_body in H. destruct H as (? & _ & [=]).
  - reflexivity.
Qed.
End Routes.

Lemma orders_route_ignores_pagination_witness :
  exists body,
    snd (simple_api.do_GET (fun s => s) 4300 example_store
           "/api/customers/1/orders?page=2&limit=1") = inr (Orders body)
    /\ pg_page (co_pagination body) = 1
    /\ pg_limit (co_pagination body) = 10.
Proof.
  eexists. split; [vm_compute; reflexivity|].
  match goal with
  | |- pg_page (co_pagination ?b) = _ /\ _ =>
      destruct (orders_route_ignores_pagination (fun s => s) 4300 example_store
                  "/api/customers/1/orders?page=2&limit=1" b)
        as (customer_id & _ & _ & Hpage & Hlimit); [vm_compute; reflexivity|]
  end.
  split; [exact Hpage | exact Hlimit].
Defined.


(** ** The parameters of the server *)

Lemma split_not_nil (c : ascii) (s : string) : split c s <> [].
Proof.
  destruct s as [|d s]; cbn; [discriminate|].
  destruct (Ascii.eqb d c); [discriminate|]. destruct (split c s); discriminate.
Qed.

Lemma split_app (c : ascii) (a b : string) :
  split c (a ++ String c b) = split c a ++ split c b.
Proof.
  induction a as [|d a IH]; cbn [append split].
  - now rewrite Ascii.eqb_refl.
  - destruct (Ascii.eqb d c); [now rewrite IH|].
    rewrite IH. destruct (split c a) as [|piece pieces] eqn:E; [|reflexivity].
    now apply split_not_nil in E.
Qed.

Lemma dict_get_set (key k v : string) (d : list (string * string)) :
  dict_get key (dict_set k v d) = if String.eqb k key then Some v else dict_get key d.
Proof.
  unfold dict_get. induction d as [|[k0 v0] d IH]; cbn [dict_set args_get].
  - reflexivity.
  - destruct (String.eqb_spec k0 k) as [->|Hne]; cbn [args_get].
    + now destruct (String.eqb k key).
    + rewrite IH. destruct (String.eqb_spec k0 key) as [->|]; [|reflexivity].
      destruct (String.eqb_spec k key); congruence.
Qed.

Section QueryParams.
Variable unquote : string -> string.

(** One turn of the loop of [_parse_query_params]. *)
Lemma parse_step_get (key param : string) (d : list (string * string)) :
  dict_get key
    (if in_string "=" param
     then let '(k, v) := split1 "=" param in dict_set (unquote k) (unquote v) d
     else d)
  = match dict_get key
            (if in_string "=" param
             then let '(k, v) := split1 "=" param in dict_set (unquote k) (unquote v) []
             else [])
    with
    | Some v => Some v
    | None => dict_get key d
    end.
Proof.
  destruct (in_string "=" param); [|reflexivity].
  destruct (split1 "=" param) as [k v]. rewrite !dict_get_set.
  now destruct (String.eqb (unquote k) key).
Qed.

Lemma parse_fold_get (key : string) (pieces : list string) :
  forall d : list (string * string),
    dict_get key
      (fold_left
         (fun params param =>
            if in_string "=" param
            then let '(k, v) := split1 "=" param in
                 dict_set (unquote k) (unquote v) params
            else params) pieces d)
    = match dict_get key
              (fold_left
                 (fun params param =>
                    if in_string "=" param
                    then let '(k, v) := split1 "=" param in
                         dict_set (unquote k) (unquote v) params
                    else params) pieces [])
      with
      | Some v => Some v
      | None => dict_get key d
      end.
Proof.
  induction pieces as [|param pieces IH]; intros d; cbn [fold_left]; [reflexivity|].
  rewrite IH. symmetry. rewrite IH. rewrite (parse_step_get key param d).
  destruct (dict_get key (fold_left _ pieces [])); reflexivity.
Qed.

Lemma parse_query_params_fold (query_string : string) :
  simple_api._parse_query_params unquote query_string
  = fold_left
      (fun params param =>
         if in_string "=" param
         then let '(k, v) := split1 "=" param in dict_set (unquote k) (unquote v) params
         else params) (split "&" query_string) [].
Proof.
  unfold simple_api._parse_query_params. now destruct query_string.
Qed.

(** X13.  In the parameters [_parse_query_params] reads off a query string,
    what stands behind an [&] overrides what stands before it: a key has
    the value the second part gives it, and the value of the first part
    only when the second part does not give one. *)
Theorem later_parameters_override (first second key : string) :
  dict_get key (simple_api._parse_query_params unquote (first ++ "&" ++ second))
  = match dict_get key (simple_api._parse_query_params unquote second) with
    | Some value => Some value
    | None => dict_get key (simple_api._parse_query_params unquote first)
    end.
Proof.
  rewrite !parse_query_params_fold.
  change (first ++ "&" ++ second)%string with (first ++ String "&" second)%string.
  rewrite split_app, fold_left_app. apply parse_fold_get.
Qed.
End QueryParams.

(** ** The search of the list *)

Lemma sqlite_tolower_keeps (c : ascii) :
  Ascii.eqb c "%" = Ascii.eqb (sqlite_tolower c) "%"
  /\ Ascii.eqb c "_" = Ascii.eqb (sqlite_tolower c) "_"
  /\ Ascii.eqb c zero = Ascii.eqb (sqlite_tolower c) zero
  /\ (N_of_ascii c <? 128)%N = (N_of_ascii (sqlite_tolower c) <? 128)%N.
Proof. destruct c as [[] [] [] [] [] [] [] []]; repeat split. Qed.

Lemma eq_nocase_keeps (a b : ascii) :
  eq_nocase a b = true ->
  Ascii.eqb a "%" = Ascii.eqb b "%"
  /\ Ascii.eqb a "_" = Ascii.eqb b "_"
  /\ Ascii.eqb a zero = Ascii.eqb b zero
  /\ (N_of_ascii a <? 128)%N = (N_of_ascii b <? 128)%N
  /\ forall c, eq_nocase a c = eq_nocase b c.
Proof.
  unfold eq_nocase. intros H. apply Ascii.eqb_eq in H.
  destruct (sqlite_tolower_keeps a) as (A1 & A2 & A3 & A4).
  destruct (sqlite_tolower_keeps b) as (B1 & B2 & B3 & B4).
  rewrite A1, A2, A3, A4, B1, B2, B3, B4, H. repeat split.
Qed.

Lemma same_nocase_refl (s : string) : same_nocase s s = true.
Proof.
  induction s as [|c s IH]; cbn; [reflexivity|].
  unfold eq_nocase. now rewrite Ascii.eqb_refl.
Qed.

Lemma same_nocase_app (a b c d : string) :
  same_nocase a b = true -> same_nocase c d = true ->
  same_nocase (a ++ c) (b ++ d) = true.
Proof.
  revert b. induction a as [|x a IH]; intros [|y b]; cbn; try discriminate; auto.
  intros H Hcd. apply andb_true_iff in H. destruct H as [-> H]. cbn. now apply IH.
Qed.

Lemma same_nocase_c_string (a b : string) :
  same_nocase a b = true -> same_nocase (c_string a) (c_string b) = true.
Proof.
  revert b. induction a as [|x a IH]; intros [|y b]; cbn; try discriminate; auto.
  intros H. apply andb_true_iff in H. destruct H as [Hxy H].
  destruct (eq_nocase_keeps x y Hxy) as (_ & _ & <- & _).
  destruct (Ascii.eqb x zero); [reflexivity|]. cbn. rewrite Hxy. now apply IH.
Qed.

Lemma like_match_nocase (p q : string) :
  same_nocase p q = true -> forall s, like_match p s = like_match q s.
Proof.
  revert q. induction p as [|x p IH]; intros [|y q]; cbn [same_nocase];
    try discriminate; [reflexivity|].
  intros H. apply andb_true_iff in H. destruct H as [Hxy H].
  destruct (eq_nocase_keeps x y Hxy) as (Hpercent & Hany & _ & _ & Hchar).
  destruct (Ascii.eqb x "%") eqn:Ex.
  - apply Ascii.eqb_eq in Ex. symmetry in Hpercent. apply Ascii.eqb_eq in Hpercent.
    subst x y. intros s. induction s as [|c s IHs].
    + rewrite !like_match_percent. now rewrite (IH q H).
    + rewrite (like_match_percent p), (like_match_percent q). now rewrite (IH q H), IHs.
  - intros s. cbn [like_match]. rewrite <- Hpercent, Ex.
    destruct s as [|c s]; [reflexivity|].
    now rewrite <- Hany, (Hchar c), (IH q H).
Qed.

Lemma utf8_length_nocase (a b : string) :
  same_nocase a b = true -> utf8_length a = utf8_length b.
Proof.
  revert b. induction a as [|x a IH]; intros [|y b]; cbn; try discriminate; auto.
  intros H. apply andb_true_iff in H. destruct H as [Hxy H].
  destruct (eq_nocase_keeps x y Hxy) as (_ & _ & _ & <- & _).
  now rewrite (IH b H).
Qed.

Lemma nonempty_nocase (a b : string) :
  same_nocase a b = true -> nonempty a = nonempty b.
Proof. destruct a, b; cbn; congruence. Qed.

Lemma search_filter_nocase (p q : string) (u : User) :
  same_nocase p q = true -> search_filter p u = search_filter q u.
Proof.
  intros H. unfold search_filter, sql_like.
  now rewrite !(like_match_nocase _ _ (same_nocase_c_string _ _ H)).
Qed.

Lemma select_customers_ext (db : Store) (p q : option string) (limit offset : Z) :
  (forall u, customers_where p u = customers_where q u) ->
  select_customers db p limit offset = select_customers db q limit offset.
Proof.
  intros H. unfold select_customers, customers_ordered, customers_grouped.
  do 4 f_equal. apply filter_ext. intros r. apply H.
Qed.

(** X14.  [list_customers] reads its search up to the case of the 26 ASCII
    letters and up to the blanks around it: two searches that differ only
    so run the same statements and get the same failure, or the same rows
    and the same pagination. *)
Theorem search_ignores_ascii_case (db : Store) (page limit : Z) (s1 s2 : string) :
  same_nocase (strip s1) (strip s2) = true ->
  executed (list_customers db page limit s1) = executed (list_customers db page limit s2)
  /\ match answer (list_customers db page limit s1),
           answer (list_customers db page limit s2) with
     | inr b1, inr b2 => cl_data b1 = cl_data b2 /\ cl_pagination b1 = cl_pagination b2
     | inl f1, inl f2 => f1 = f2
     | _, _ => False
     end.
Proof.
  intros H.
  assert (same_nocase ("%" ++ strip s1 ++ "%") ("%" ++ strip s2 ++ "%") = true) as Hpat.
  { apply (same_nocase_app "%" "%"); [reflexivity|].
    apply same_nocase_app; [assumption | reflexivity]. }
  pose proof (nonempty_nocase _ _ H) as Hne.
  assert (search_too_complex db s1 = search_too_complex db s2) as Hfail.
  { unfold search_too_complex, search_fails, like_too_complex.
    now rewrite Hne, (utf8_length_nocase _ _ Hpat). }
  assert (forall u, customers_where (search_param_of s1) u
                    = customers_where (search_param_of s2) u) as Hwhere.
  { intros u. rewrite !customers_where_search_param, Hne.
    destruct (nonempty (strip s2)); [|reflexivity]. now apply search_filter_nocase. }
  assert (customers_total db s1 = customers_total db s2) as Htotal.
  { unfold customers_total, count_customers_search. rewrite Hne.
    destruct (nonempty (strip s2)); [|reflexivity].
    now rewrite (filter_ext _ _ (fun u => search_filter_nocase _ _ u Hpat)). }
  unfold executed, answer. rewrite !list_customers_run. unfold normalize.
  rewrite Hfail, Hne, Htotal.
  rewrite (select_customers_ext db _ _ _ _ Hwhere).
  destruct (fits_int64 _); cbn [fst snd]; [|auto].
  destruct (search_too_complex db s2); cbn [fst snd cl_data cl_pagination]; auto.
Qed.

Lemma search_ignores_ascii_case_witness :
  exists b1 b2,
    answer (list_customers example_store 1 10 "  ANN ") = inr b1
    /\ answer (list_customers example_store 1 10 "ann") = inr b2
    /\ cl_data b1 = cl_data b2.
Proof.
  pose proof (search_ignores_ascii_case example_store 1 10 "  ANN " "ann" eq_refl)
    as [_ Hsame].
  destruct (answer (list_customers example_store 1 10 "  ANN ")) as [f1|b1] eqn:E1;
    [discriminate E1|].
  destruct (answer (list_customers example_store 1 10 "ann")) as [f2|b2] eqn:E2;
    [discriminate E2|].
  exists b1, b2. repeat split. exact (proj1 Hsame).
Defined.

Lemma rstrip_head (c : ascii) (s : string) :
  py_isspace c = false -> rstrip (String c s) = String c (rstrip s).
Proof. intros H. cbn [rstrip]. rewrite H. now destruct (rstrip s). Qed.

Lemma rstrip_cons (c : ascii) (s : string) :
  rstrip (String c s)
  = match rstrip s with
    | EmptyString => if py_isspace c then EmptyString else String c EmptyString
    | String d r => String c (String d r)
    end.
Proof. reflexivity. Qed.

Lemma rstrip_rstrip (s : string) : rstrip (rstrip s) = rstrip s.
Proof.
  induction s as [|c s IH]; [reflexivity|]. rewrite rstrip_cons.
  destruct (rstrip s) as [|d r] eqn:E.
  - destruct (py_isspace c) eqn:Ec; [reflexivity|]. rewrite rstrip_cons. cbn [rstrip].
    now rewrite Ec.
  - rewrite rstrip_cons, IH. reflexivity.
Qed.

Lemma lstrip_head (s : string) :
  lstrip s = EmptyString
  \/ exists c t, lstrip s = String c t /\ py_isspace c = false.
Proof.
  induction s as [|c s IH]; [now left|]. cbn [lstrip].
  destruct (py_isspace c) eqn:E; [assumption|]. right. eauto.
Qed.

Lemma strip_strip (s : string) : strip (strip s) = strip s.
Proof.
  unfold strip. destruct (lstrip_head s) as [->|(c & t & -> & Hc)]; [reflexivity|].
  rewrite (rstrip_head c t Hc). cbn [lstrip]. rewrite Hc.
  rewrite <- (rstrip_head c t Hc). apply rstrip_rstrip.
Qed.

(** X15.  The blanks around the search of [list_customers] do not count:
    the run for a search is the run for the search without them, statements
    and answer, and a search of blanks only is answered as no search. *)
Theorem search_is_stripped (db : Store) (page limit : Z) (search : string) :
  run (list_customers db page limit search)
  = run (list_customers db page limit (strip search))
  /\ (nonempty (strip search) = false ->
      run (list_customers db page limit search)
      = run (list_customers db page limit "")).
Proof.
  assert (run (list_customers db page limit search)
          = run (list_customers db page limit (strip search))) as Hrun.
  { rewrite !list_customers_run.
    unfold search_too_complex, search_param_of, customers_total.
    now rewrite !strip_strip. }
  split; [exact Hrun|]. intros Hblank. rewrite Hrun.
  destruct (strip search); [reflexivity | discriminate].
Qed.

(** ** The two servers *)




(** ** The pages of the list *)

Lemma window_nth {R : Type} (n k : nat) (rows : list R) (x : R) :
  In x (firstn n (skipn k rows)) <->
  exists i, (k <= i < k + n)%nat /\ nth_error rows i = Some x.
Proof.
  split.
  - intros H. apply In_nth_error in H. destruct H as [j Hj].
    rewrite nth_error_firstn in Hj.
    destruct (Nat.ltb_spec j n); [|discriminate].
    rewrite nth_error_skipn in Hj. exists (k + j)%nat. split; [lia | assumption].
  - intros (i & Hi & Hx). apply (nth_error_In _ (i - k)).
    rewrite nth_error_firstn.
    destruct (Nat.ltb_spec (i - k) n); [|lia].
    rewrite nth_error_skipn. now replace (k + (i - k))%nat with i by lia.
Qed.

Lemma unique_place {R : Type} (ident : R -> Z) (rows : list R) (i j : nat) (a b : R) :
  NoDup (map ident rows) ->
  nth_error rows i = Some a -> nth_error rows j = Some b ->
  ident a = ident b -> i = j.
Proof.
  intros Hnd Ha Hb Hid.
  apply (proj1 (NoDup_nth_error (map ident rows)) Hnd).
  - rewrite length_map. apply nth_error_Some. congruence.
  - rewrite !nth_error_map, Ha, Hb. cbn. now rewrite Hid.
Qed.

Lemma customers_ordered_ids (db : Store) (search_param : option string) :
  store_ok db = true ->
  NoDup (map cs_id (customers_ordered db search_param)).
Proof.
  intros Hok. pose proof (store_ok_users db Hok) as Hnd.
  eapply Permutation_NoDup;
    [symmetry; apply Permutation_map, customers_ordered_perm, Hnd|].
  rewrite map_map.
  rewrite (map_ext _ u_id) by (intros u; apply summary_of_id).
  now apply filter_keeps_unique.
Qed.

(** X17.  In a store of the schema, the pages of [list_customers] do not
    repeat a customer: the rows of an answer have distinct ids, and two
    answers for the same limit and search and different pages have no id in
    common. *)
Theorem no_customer_is_listed_twice (db : Store) (page1 page2 limit : Z)
    (search : string) (b1 b2 : CustomerList) :
  store_ok db = true ->
  answer (list_customers db page1 limit search) = inr b1 ->
  answer (list_customers db page2 limit search) = inr b2 ->
  NoDup (map cs_id (cl_data b1))
  /\ (pg_page (cl_pagination b1) <> pg_page (cl_pagination b2) ->
      forall r1 r2, In r1 (cl_data b1) -> In r2 (cl_data b2) -> cs_id r1 <> cs_id r2).
Proof.
  intros Hok H1 H2.
  pose proof (customers_ordered_ids db (search_param_of search) Hok) as Hnd.
  rewrite (list_customers_body _ _ _ _ _ H1), (list_customers_body _ _ _ _ _ H2).
  cbn [cl_data cl_pagination]. unfold pagination, select_customers. cbn [pg_page].
  set (l := Z.min 100 (Z.max 1 limit)).
  assert (1 <= l <= 100) as Hl by (unfold l; lia).
  rewrite !sql_limit_offset_window by lia.
  set (rows := customers_ordered db (search_param_of search)) in *.
  split.
  - rewrite <- (firstn_skipn (Z.to_nat ((Z.max 1 page1 - 1) * l)) rows) in Hnd.
    rewrite map_app in Hnd. apply NoDup_app_remove_l in Hnd.
    rewrite <- (firstn_skipn (Z.to_nat l)
                  (skipn (Z.to_nat ((Z.max 1 page1 - 1) * l)) rows)) in Hnd.
    rewrite map_app in Hnd. now apply NoDup_app_remove_r in Hnd.
  - intros Hpages r1 r2 Hr1 Hr2 Hid.
    apply window_nth in Hr1, Hr2.
    destruct Hr1 as (i & Hi & Hri). destruct Hr2 as (j & Hj & Hrj).
    pose proof (unique_place cs_id rows i j r1 r2 Hnd Hri Hrj Hid) as Hij. subst j.
    assert (Z.to_nat ((Z.max 1 page1 - 1) * l)
            = (Z.to_nat (Z.max 1 page1 - 1) * Z.to_nat l)%nat) as E1
        by (rewrite Z2Nat.inj_mul; lia).
    assert (Z.to_nat ((Z.max 1 page2 - 1) * l)
            = (Z.to_nat (Z.max 1 page2 - 1) * Z.to_nat l)%nat) as E2
        by (rewrite Z2Nat.inj_mul; lia).
    rewrite E1 in Hi. rewrite E2 in Hj.
    assert (Z.to_nat (Z.max 1 page1 - 1) = Z.to_nat (Z.max 1 page2 - 1)) as Hsame by nia.
    lia.
Qed.

Lemma no_customer_is_listed_twice_witness :
  exists b1 b2,
    answer (list_customers example_store 1 2 "") = inr b1
    /\ answer (list_customers example_store 2 2 "") = inr b2
    /\ forall r1 r2, In r1 (cl_data b1) -> In r2 (cl_data b2) -> cs_id r1 <> cs_id r2.
Proof.
  eexists. eexists. split; [vm_compute; reflexivity|]. split; [vm_compute; reflexivity|].
  match goal with
  | |- forall r1 r2, In r1 (cl_data ?b1) -> In r2 (cl_data ?b2) -> _ =>
      destruct (no_customer_is_listed_twice example_store 1 2 2 "" b1 b2 eq_refl)
        as [_ Hpages]; [vm_compute; reflexivity | vm_compute; reflexivity |]
  end.
  apply Hpages. discriminate.
Defined.

(** X18.  In a store of the schema, every customer the search keeps is on
    a page: when the search is not too long for LIKE, whatever the limit,
    some page is answered with the row of that customer.  With X17, the
    pages list each such customer once. *)
Theorem every_customer_is_on_a_page (db : Store) (limit : Z) (search : string)
    (u : User) :
  store_ok db = true ->
  search_too_complex db search = false ->
  In u (users db) ->
  matches_search search u = true ->
  exists page body,
    1 <= page
    /\ answer (list_customers db page limit search) = inr body
    /\ In (summary_of (orders db) u) (cl_data body).
Proof.
  intros Hok Hsearch Hu Hmatch.
  pose proof (store_ok_users db Hok) as Hnd.
  pose proof (store_ok_users_length db Hok) as Hmax.
  set (rows := customers_ordered db (search_param_of search)).
  assert (In (summary_of (orders db) u) rows) as Hin.
  { apply (Permutation_in _ (Permutation_sym (customers_ordered_perm db _ Hnd))).
    apply in_map, filter_In. split; assumption. }
  assert (List.length rows <= List.length (users db))%nat as Hlen.
  { unfold rows. rewrite (Permutation_length (customers_ordered_perm db _ Hnd)).
    rewrite length_map. apply filter_length_le. }
  apply In_nth_error in Hin. destruct Hin as [i Hi].
  assert (i < List.length rows)%nat as Hlt by (apply nth_error_Some; congruence).
  set (l := Z.min 100 (Z.max 1 limit)).
  assert (1 <= l <= 100) as Hl by (unfold l; lia).
  set (n := Z.to_nat l).
  assert (n <> 0%nat) as Hn by (unfold n; lia).
  pose proof (Nat.div_mod_eq i n) as Hdiv.
  pose proof (Nat.mod_upper_bound i n Hn) as Hmod.
  set (page := Z.of_nat (i / n) + 1).
  assert ((Z.max 1 page - 1) * l = Z.of_nat (i / n * n)) as Hoff.
  { unfold page, n. rewrite Nat2Z.inj_mul, Z2Nat.id by lia. lia. }
  exists page. eexists. split; [unfold page; lia|]. split.
  - apply list_customers_page; [|assumption]. fold l. rewrite Hoff. lia.
  - cbn [cl_data]. unfold select_customers. fold l rows.
    rewrite sql_limit_offset_window by lia. rewrite Hoff, Nat2Z.id. fold n.
    apply window_nth. exists i. split; [lia | assumption].
Qed.

Lemma every_customer_is_on_a_page_witness :
  exists page body,
    1 <= page
    /\ answer (list_customers example_store page 1 "cyd") = inr body
    /\ In (summary_of (orders example_store)
             (example_user 3 "Cyd" "Poe" "cyd@example.com" "2022-07-19 13:51:00+00:00"))
          (cl_data body).
Proof.
  apply (every_customer_is_on_a_page example_store 1 "cyd"); try reflexivity.
  simpl. tauto.
Defined.

(** ** One customer, three endpoints *)

Lemma user_of_id (us : list User) (u v : User) :
  NoDup (map u_id us) -> In u us -> In v us -> u_id u = u_id v -> u = v.
Proof.
  intros Hnd Hu Hv Hid.
  apply In_nth_error in Hu, Hv. destruct Hu as [i Hi]. destruct Hv as [j Hj].
  pose proof (unique_place u_id us i j u v Hnd Hi Hj Hid) as Hij. subst j. congruence.
Qed.

Lemma listed_row_user (db : Store) (page limit : Z) (search : string)
    (body : CustomerList) (row : CustomerSummary) :
  store_ok db = true ->
  answer (list_customers db page limit search) = inr body ->
  In row (cl_data body) ->
  exists u, In u (users db) /\ row = summary_of (orders db) u.
Proof.
  intros Hok Hbody Hrow.
  rewrite (list_customers_body _ _ _ _ _ Hbody) in Hrow. cbn [cl_data] in Hrow.
  apply In_sql_limit_offset in Hrow.
  apply (Permutation_in _ (customers_ordered_perm db _ (store_ok_users db Hok))) in Hrow.
  apply in_map_iff in Hrow. destruct Hrow as (u & <- & Hu).
  apply filter_In in Hu. exists u. tauto.
Qed.

Lemma details_counts (db : Store) (customer_id : Z) (details : CustomerDetails) :
  store_ok db = true ->
  answer (get_customer_details db customer_id) = inr details ->
  In (cf_columns (cd_customer details)) (users db)
  /\ u_id (cf_columns (cd_customer details)) = customer_id
  /\ cf_order_count (cd_customer details)
     = Z.of_nat (List.length (filter (of_user customer_id) (orders db)))
  /\ st_total_orders (cd_order_statistics details)
     = Z.of_nat (List.length (filter (of_user customer_id) (orders db))).
Proof.
  intros Hok. unfold answer. rewrite get_customer_details_run by assumption. cbv zeta.
  destruct (fits_int64 customer_id); cbn [snd]; [|discriminate].
  destruct (filter (fun u => u_id u =? customer_id) (users db)) as [|u us] eqn:E;
    cbn [snd]; [discriminate|].
  assert (In u (users db) /\ u_id u = customer_id) as [Hin Hid].
  { assert (In u (u :: us)) as H by (simpl; auto).
    rewrite <- E in H. apply filter_In in H. now rewrite Z.eqb_eq in H. }
  destruct (sql_sum _); cbn [snd]; try discriminate; intros [= <-]; cbn; auto.
Qed.

(** X19.  In a store of the schema, the three endpoints agree on a
    customer: a row of a [list_customers] answer is the summary of the very
    user [get_customer_details] answers with for the id of the row, and its
    [order_count] is the [order_count] and the [total_orders] of that
    answer and the [total] of any [get_customer_orders] answer for the
    id. *)
Theorem endpoints_agree_on_a_customer (db : Store) (page limit : Z) (search : string)
    (orders_page orders_limit : Z)
    (listed : CustomerList) (row : CustomerSummary)
    (details : CustomerDetails) (ordered : CustomerOrders) :
  store_ok db = true ->
  answer (list_customers db page limit search) = inr listed ->
  In row (cl_data listed) ->
  answer (get_customer_details db (cs_id row)) = inr details ->
  answer (get_customer_orders db (cs_id row) orders_page orders_limit) = inr ordered ->
  row = summary_of (orders db) (cf_columns (cd_customer details))
  /\ cs_order_count row = cf_order_count (cd_customer details)
  /\ cs_order_count row = st_total_orders (cd_order_statistics details)
  /\ cs_order_count row = pg_total (co_pagination ordered).
Proof.
  intros Hok Hlisted Hrow Hdetails Hordered.
  destruct (listed_row_user db page limit search listed row Hok Hlisted Hrow)
    as (u & Hu & ->).
  rewrite summary_of_id in Hdetails, Hordered.
  destruct (details_counts db _ details Hok Hdetails) as (Hin & Hid & Hcount & Htotal).
  destruct (get_customer_orders_body _ _ _ _ _ Hordered) as (_ & _ & _ & ->).
  cbn [co_pagination]. unfold pagination. cbn [pg_total].
  unfold customer_orders_total, sql_count_star.
  rewrite Hcount, Htotal, summary_of_order_count.
  rewrite (filter_ext _ _ (on_user_of_user u)).
  repeat split. f_equal.
  apply (user_of_id (users db)); auto using store_ok_users.
Qed.

Lemma endpoints_agree_on_a_customer_witness :
  exists listed row details ordered,
    answer (list_customers example_store 1 10 "ann") = inr listed
    /\ In row (cl_data listed)
    /\ answer (get_customer_details example_store (cs_id row)) = inr details
    /\ answer (get_customer_orders example_store (cs_id row) 1 10) = inr ordered
    /\ cs_order_count row = pg_total (co_pagination ordered).
Proof.
  do 4 eexists.
  split; [vm_compute; reflexivity|].
  split; [simpl; left; reflexivity|].
  split; [vm_compute; reflexivity|].
  split; [vm_compute; reflexivity|].
  match goal with
  | |- cs_order_count ?r = pg_total (co_pagination ?o) =>
      refine (proj2 (proj2 (proj2
                (endpoints_agree_on_a_customer example_store 1 10 "ann" 1 10
                   _ r _ o eq_refl _ _ _ _))))
  end.
  - vm_compute; reflexivity.
  - simpl; left; reflexivity.
  - vm_compute; reflexivity.
  - vm_compute; reflexivity.
Defined.

(** ** The statistics and the list *)

Lemma left_join_count_sum (us : list User) (os : list Order) :
  sql_count joined_order_id (left_join us os)
  = z_sum (map (fun u => cs_order_count (summary_of os u)) us).
Proof.
  rewrite left_join_blocks. unfold z_sum.
  induction us as [|u us IH]; cbn [flat_map map fold_right]; [reflexivity|].
  now rewrite sql_count_app, IH, join_block_count, summary_of_order_count.
Qed.

(** X20.  In a store of the schema, the statistics agree with the list:
    [total_customers] is the [total] of a [list_customers] answer without
    search, and [total_orders] is the sum of the [order_count] of all the
    customers that list holds. *)
Theorem statistics_agree_with_the_list (db : Store) (page limit : Z)
    (stats : Statistics) (listed : CustomerList) :
  store_ok db = true ->
  answer (get_statistics db) = inr stats ->
  answer (list_customers db page limit "") = inr listed ->
  ov_total_customers (sx_overall_statistics stats) = pg_total (cl_pagination listed)
  /\ ov_total_orders (sx_overall_statistics stats)
     = z_sum (map cs_order_count (customers_ordered db (search_param_of ""))).
Proof.
  intros Hok Hstats Hlisted.
  pose proof (store_ok_users db Hok) as Hnd.
  rewrite (list_customers_body _ _ _ _ _ Hlisted).
  cbn [cl_pagination]. unfold pagination. cbn [pg_total].
  change (customers_total db "") with (sql_count_star (users db)).
  change (search_param_of "") with (@None string).
  rewrite (z_sum_perm _ _ (Permutation_map cs_order_count
                             (customers_ordered_perm db None Hnd))).
  cbn [customers_where]. rewrite filter_true, map_map, <- left_join_count_sum.
  revert Hstats. rewrite get_statistics_answer. cbv zeta.
  destruct (sql_sum _); [| |discriminate]; intros [= <-];
    cbn [sx_overall_statistics ov_total_customers ov_total_orders];
    (split; [now apply left_join_customer_count | reflexivity]).
Qed.

Lemma statistics_agree_with_the_list_witness :
  exists stats listed,
    answer (get_statistics example_store) = inr stats
    /\ answer (list_customers example_store 1 10 "") = inr listed
    /\ ov_total_customers (sx_overall_statistics stats) = pg_total (cl_pagination listed).
Proof.
  do 2 eexists.
  split; [vm_compute; reflexivity|].
  split; [vm_compute; reflexivity|].
  match goal with
  | |- ov_total_customers (sx_overall_statistics ?s) = pg_total (cl_pagination ?l) =>
      refine (proj1 (statistics_agree_with_the_list example_store 1 10 s l eq_refl _ _))
  end; vm_compute; reflexivity.
Defined.

(** ** The routes of one path *)

Lemma prefix_before_mark (c : ascii) (p s : string) :
  in_string c p = false ->
  String.prefix p s = true ->
  String.prefix p (fst (split1 c s)) = true.
Proof.
  revert s. induction p as [|a p IH]; intros s Hp Hs; [now destruct (fst _)|].
  destruct s as [|b s]; [discriminate|].
  cbn [in_string] in Hp. apply orb_false_iff in Hp. destruct Hp as [Hac Hp].
  cbn [String.prefix] in Hs. destruct (ascii_dec a b) as [<-|]; [|discriminate].
  cbn [split1]. rewrite Hac.
  destruct (split1 c s) as [before after] eqn:E. cbn [fst String.prefix].
  destruct (ascii_dec a a); [|congruence].
  specialize (IH s Hp Hs). now rewrite E in IH.
Qed.

(** X21.  The statistics and the health check are served for their own
    path only, to the letter: [do_GET] answers with statistics exactly for
    [/api/statistics], and then with the answer of [get_statistics], and
    with the health check exactly for [/api/health]; a query string behind
    either path makes it no route. *)
Theorem exact_routes (unquote : string -> string) (int_max_str_digits : nat)
    (db : Store) (path : string) :
  (forall body,
     snd (simple_api.do_GET unquote int_max_str_digits db path) = inr (Stats body)
     <-> path = "/api/statistics" /\ answer (get_statistics db) = inr body)
  /\ (snd (simple_api.do_GET unquote int_max_str_digits db path) = inr Health
      <-> path = "/api/health")
  /\ (forall query_string,
        simple_api.do_GET unquote int_max_str_digits db
          ("/api/statistics?" ++ query_string) = ([], inl RouteNotFound)
        /\ simple_api.do_GET unquote int_max_str_digits db
             ("/api/health?" ++ query_string) = ([], inl RouteNotFound)).
Proof.
  split; [|split].
  - intros body. split.
    + unfold simple_api.do_GET.
      destruct (String.eqb path "/api/health"); [discriminate|]. cbv zeta.
      destruct (String.prefix "/api/customers" path && in_string "?" path) eqn:Ewith.
      * apply andb_true_iff in Ewith. destruct Ewith as [Hprefix _].
        apply (prefix_before_mark "?") in Hprefix; [|reflexivity].
        cbn [andb]. destruct (String.eqb _ "/api/customers").
        { intros H. apply sent_body in H. destruct H as (? & _ & [=]). }
        destruct (match_customer _) as [digits|].
        { destruct (py_int int_max_str_digits digits); [|discriminate].
          intros H. apply sent_body in H. destruct H as (? & _ & [=]). }
        destruct (match_customer_orders _) as [digits|].
        { destruct (py_int int_max_str_digits digits); [|discriminate].
          intros H. apply sent_body in H. destruct H as (? & _ & [=]). }
        destruct (String.eqb_spec (fst (split1 "?" path)) "/api/statistics") as [E|];
          [|discriminate].
        rewrite E in Hprefix. discriminate Hprefix.
      * cbn [andb]. destruct (match_customer path) as [digits|].
        { destruct (py_int int_max_str_digits digits); [|discriminate].
          intros H. apply sent_body in H. destruct H as (? & _ & [=]). }
        destruct (match_customer_orders path) as [digits|].
        { destruct (py_int int_max_str_digits digits); [|discriminate].
          intros H. apply sent_body in H. destruct H as (? & _ & [=]). }
        destruct (String.eqb_spec path "/api/statistics") as [E|]; [|discriminate].
        intros H. apply sent_body in H. destruct H as (body' & Hbody & [= <-]).
        split; [exact E|]. now apply respond_body.
    + intros [-> Hbody]. apply respond_body in Hbody.
      unfold simple_api.do_GET. cbn.
      unfold simple_api._handle_get_statistics, simple_api.sent.
      destruct (respond (get_statistics db)) as [log [f|b]]; cbn in *; congruence.
  - split.
    + unfold simple_api.do_GET.
      destruct (String.eqb_spec path "/api/health") as [E|_]; [auto|]. cbv zeta.
      destruct (_ && String.eqb _ "/api/customers").
      { intros H. apply sent_body in H. destruct H as (? & _ & [=]). }
      destruct (match_customer _) as [digits|].
      { destruct (py_int int_max_str_digits digits); [|discriminate].
        intros H. apply sent_body in H. destruct H as (? & _ & [=]). }
      destruct (match_customer_orders _) as [digits|].
      { destruct (py_int int_max_str_digits digits); [|discriminate].
        intros H. apply sent_body in H. destruct H as (? & _ & [=]). }
      destruct (String.eqb _ "/api/statistics"); [|discriminate].
      intros H. apply sent_body in H. destruct H as (? & _ & [=]).
    + intros ->. reflexivity.
  - intros query_string. split; reflexivity.
Qed.
